(** * Talkie backend: room lifecycle, cleanup sweep, message log, hub fan-out

    A shallow embedding of the Go backend of Talkie (services/room.go,
    services/cleanup.go, services/message.go, supabase/client.go,
    websocket/hub.go) and the properties of its specification stated over
    it. The Session Store (Supabase, reached over REST) and the realtime
    endpoint are external: they are modelled by the two tables of the
    schema, by a trace of the requests made, and by an environment that
    decides which requests fail. *)

From Stdlib Require Import ZArith Lia List String Ascii.
From Stdlib Require Import Strings.Byte.
From stdpp Require Import gmap strings list.

Local Open Scope Z_scope.

(** ** Part I. The embedding *)

(** *** services/room.go: base64Encode *)

(** [uint32] arithmetic: values are integers reduced modulo 2^32. *)
Definition u32 (z : Z) : Z := z mod 2 ^ 32.

(** [uint32(data[i])]: the numeric value of a byte. *)
Definition byte_val (b : byte) : Z := Z.of_N (Byte.to_N b).

Definition shl32 (a n : Z) : Z := u32 (Z.shiftl a n).
Definition shr32 (a n : Z) : Z := Z.shiftr a n.
Definition or32 (a b : Z) : Z := Z.lor a b.
Definition and32 (a b : Z) : Z := Z.land a b.

Definition base64Chars : string :=
  "ABCDEFGHIJKLMNOPQRSTUVWXYZabcdefghijklmnopqrstuvwxyz0123456789+/".

(** [base64Chars[k]]; Go panics on an index outside the string, every index
    used below is masked with [0x3F] and so stays below 64. *)
Definition char_at (s : string) (k : Z) : ascii :=
  match String.get (Z.to_nat k) s with
  | Some c => c
  | None => Ascii.zero
  end.

(** [data[i]] for an index that the loop guard keeps in range. *)
Definition byte_at (data : list byte) (i : nat) : byte :=
  match data !! i with
  | Some b => b
  | None => x00
  end.

(** The body of [for i := 0; i < len(data); i += 3], one iteration per unit
    of fuel; [result] is the slice being appended to. *)
Fixpoint base64_loop (fuel : nat) (data : list byte) (i : nat)
    (result : list ascii) : list ascii :=
  match fuel with
  | O => result
  | S fuel' =>
      if (i <? length data)%nat then
        let remaining := (length data - i)%nat in
        if (3 <=? remaining)%nat then
          let b := or32 (or32 (shl32 (byte_val (byte_at data i)) 16)
                              (shl32 (byte_val (byte_at data (i + 1))) 8))
                        (byte_val (byte_at data (i + 2))) in
          base64_loop fuel' data (i + 3)
            (result ++ [char_at base64Chars (and32 (shr32 b 18) 63);
                        char_at base64Chars (and32 (shr32 b 12) 63);
                        char_at base64Chars (and32 (shr32 b 6) 63);
                        char_at base64Chars (and32 b 63)])
        else if (remaining =? 2)%nat then
          let b := or32 (shl32 (byte_val (byte_at data i)) 16)
                        (shl32 (byte_val (byte_at data (i + 1))) 8) in
          base64_loop fuel' data (i + 3)
            (result ++ [char_at base64Chars (and32 (shr32 b 18) 63);
                        char_at base64Chars (and32 (shr32 b 12) 63);
                        char_at base64Chars (and32 (shr32 b 6) 63);
                        "="%char])
        else
          let b := shl32 (byte_val (byte_at data i)) 16 in
          base64_loop fuel' data (i + 3)
            (result ++ [char_at base64Chars (and32 (shr32 b 18) 63);
                        char_at base64Chars (and32 (shr32 b 12) 63);
                        "="%char; "="%char])
      else result
  end.

(** The loop runs at most once per input byte, so [len(data)] iterations of
    fuel always reach the exit of the loop. *)
Definition base64Encode (data : list byte) : string :=
  string_of_list_ascii (base64_loop (length data) data 0 []).

(** *** RFC 4648, section 4, in its own words

    The input is read as a stream of bits, most significant bit of each
    octet first; the stream is cut into 6-bit groups, the last group being
    completed with zero bits on the right; each group indexes the base 64
    alphabet; the output is completed with '=' to a multiple of four
    characters. *)

Definition rfc4648_alphabet : list ascii :=
  list_ascii_of_string
    "ABCDEFGHIJKLMNOPQRSTUVWXYZabcdefghijklmnopqrstuvwxyz0123456789+/".

Definition octet_bits (b : byte) : list bool :=
  map (fun k => Z.testbit (byte_val b) k) [7; 6; 5; 4; 3; 2; 1; 0].

Definition bit_stream (data : list byte) : list bool :=
  concat (map octet_bits data).

Definition bits_value (bs : list bool) : nat :=
  fold_left (fun acc (b : bool) => (2 * acc + (if b then 1 else 0))%nat) bs O.

(** Cut into groups of six, completing a short last group with zero bits. *)
Fixpoint sextets (fuel : nat) (bs : list bool) : list (list bool) :=
  match fuel with
  | O => []
  | S fuel' =>
      match bs with
      | [] => []
      | _ => take 6 (take 6 bs ++ replicate 6 false) :: sextets fuel' (drop 6 bs)
      end
  end.

Definition rfc4648_char (g : list bool) : ascii :=
  nth (bits_value g) rfc4648_alphabet Ascii.zero.

Definition rfc4648_encode (data : list byte) : string :=
  let bs := bit_stream data in
  let chars := map rfc4648_char (sextets (length bs) bs) in
  let pad := ((4 - length chars mod 4) mod 4)%nat in
  string_of_list_ascii (chars ++ replicate pad "="%char).

(** Decoding, for the same section of the RFC: the '=' characters at the end
    are dropped (at most two, in a text whose length is a multiple of four),
    each character is replaced by its 6-bit index in the alphabet, and the
    bit stream is read back in whole octets. *)
Fixpoint alphabet_index (c : ascii) (l : list ascii) (k : nat) : option nat :=
  match l with
  | [] => None
  | x :: l' => if Ascii.eqb x c then Some k else alphabet_index c l' (S k)
  end.

Definition sextet_bits (n : nat) : list bool :=
  map (fun k => Nat.testbit n k) [5; 4; 3; 2; 1; 0]%nat.

Definition octet_of_bits (bs : list bool) : byte :=
  match Byte.of_N (N.of_nat (bits_value bs)) with
  | Some b => b
  | None => x00
  end.

Fixpoint octets (fuel : nat) (bs : list bool) : list byte :=
  match fuel with
  | O => []
  | S fuel' =>
      if (8 <=? length bs)%nat
      then octet_of_bits (take 8 bs) :: octets fuel' (drop 8 bs)
      else []
  end.

Fixpoint strip_padding (l : list ascii) : list ascii :=
  match l with
  | [] => []
  | c :: l' =>
      match strip_padding l' with
      | [] => if Ascii.eqb c "=" then [] else [c]
      | r => c :: r
      end
  end.

Fixpoint decode_chars (l : list ascii) : option (list nat) :=
  match l with
  | [] => Some []
  | c :: l' =>
      match alphabet_index c rfc4648_alphabet 0, decode_chars l' with
      | Some n, Some ns => Some (n :: ns)
      | _, _ => None
      end
  end.

Definition decode_list (chars : list ascii) : option (list byte) :=
  match decode_chars (strip_padding chars) with
  | None => None
  | Some ns =>
      let bits := flat_map sextet_bits ns in
      Some (octets (length bits) bits)
  end.

Definition rfc4648_decode (s : string) : option (list byte) :=
  let chars := list_ascii_of_string s in
  if negb (length chars mod 4 =? 0)%nat then None
  else if (2 <? length chars - length (strip_padding chars))%nat then None
  else decode_list chars.

(** *** models: Room, Participant, Message *)

(** [time.Time] as the signed number of nanoseconds since Go's zero instant
    (January 1, year 1, 00:00:00 UTC). *)
Definition Time : Type := Z.

Definition IsZero (t : Time) : bool := t =? 0.
Definition After (t u : Time) : bool := u <? t.
Definition Before (t u : Time) : bool := t <? u.

(** [t.Format(time.RFC3339)] keeps whole seconds only. *)
Definition FormatRFC3339 (t : Time) : Time := (t / 1000000000) * 1000000000.

Record Room : Type := mkRoom {
  Room_ID : string;
  Room_Name : string;
  Room_EncryptionKey : string;
  Room_CreatedAt : Time;
  Room_LastActiveAt : Time
}.

Record Participant : Type := mkParticipant {
  Participant_ID : string;
  Participant_RoomID : string;
  Participant_Username : string;
  Participant_Avatar : string;
  Participant_JoinedAt : Time;
  Participant_LastActiveAt : Time
}.

Record ReplyContext : Type := mkReplyContext {
  Reply_Username : string;
  Reply_Content : string
}.

Record Message : Type := mkMessage {
  Message_ID : string;
  Message_RoomID : string;
  Message_ParticipantID : string;
  Message_Content : string;
  Message_Username : string;
  Message_Avatar : string;
  Message_Timestamp : Time;
  Message_ReplyTo : option ReplyContext
}.

Record SendMessageRequest : Type := mkSendMessageRequest {
  Req_ParticipantID : string;
  Req_Content : string;
  Req_Username : string;
  Req_Avatar : string;
  Req_ReplyTo : option ReplyContext
}.

(** *** The Session Store behind supabase.Client

    The two tables of migrations/001_initial_schema.sql, as the REST calls of
    supabase/client.go see them: rows are selected, patched and deleted by an
    equality or a less-than filter; [id] is a primary key in both tables and
    [participants.room_id] references [rooms(id)] with ON DELETE CASCADE. *)
Record Store : Type := mkStore {
  rooms : list Room;
  participants : list Participant
}.

Definition room_has_id (id : string) (r : Room) : bool :=
  String.eqb (Room_ID r) id.
Definition participant_has_id (id : string) (p : Participant) : bool :=
  String.eqb (Participant_ID p) id.
Definition participant_in_room (roomID : string) (p : Participant) : bool :=
  String.eqb (Participant_RoomID p) roomID.

(** One REST call, as recorded in the trace of an execution. *)
Inductive StoreOp : Type :=
| OpCreateRoom (room : Room)
| OpGetRoom (id : string)
| OpUpdateRoomActivity (roomID : string)
| OpDeleteRoom (id : string)
| OpAddParticipant (p : Participant)
| OpGetParticipants (roomID : string)
| OpGetParticipant (participantID : string)
| OpRemoveParticipant (participantID : string)
| OpGetInactiveRooms (threshold : Time)
| OpUpdateParticipantActivity (participantID : string)
| OpGetInactiveParticipants (threshold : Time).

(** What an execution does to the outside world, in order. [ok] tells whether
    the call returned without error. *)
Inductive Event : Type :=
| StoreCall (op : StoreOp) (ok : bool)
| BroadcastParticipant (roomID action : string) (p : Participant) (ok : bool)
| BroadcastRoom (action : string) (room : Room) (ok : bool).

(** *** websocket: connections *)

(** A buffered Go channel of payloads. *)
Record Chan : Type := mkChan {
  chan_buf : list (list byte);
  chan_cap : nat;
  chan_closed : bool
}.

(** [*Client] values are addresses into a heap of [Client] records. *)
Definition addr : Type := nat.

Record Client : Type := mkClient {
  Client_send : Chan;
  Client_RoomID : string;
  Client_ParticipantID : string;
  Client_Username : string;
  Client_Avatar : string
}.

Record MessagePayload : Type := mkMessagePayload {
  Payload_ID : string;
  Payload_ParticipantID : string;
  Payload_Content : string;
  Payload_Timestamp : string;
  Payload_Username : string;
  Payload_Avatar : string;
  Payload_ReplyTo : option ReplyContext
}.

(** *** The environment of an execution

    Everything the code reads from outside: whether the request to the
    Session Store, or to the realtime endpoint, made at step k fails in
    transport, and whether a failing request to the store had reached the
    store before it failed (the reply was lost: [Do] timed out after the
    send, or [io.ReadAll] failed); the clock, the uuid and random sources,
    the order in which [range] visits the keys of a map, and the two JSON
    decoders used by the hub. Each reading is indexed by a counter kept in
    the world. *)
Record Env : Type := mkEnv {
  net_fails : nat -> bool;
  reply_lost : nat -> bool;
  realtime_fails : nat -> bool;
  now_at : nat -> Time;
  uuid_at : nat -> string;
  rand_at : nat -> option (nat -> byte);
  range_keys : gset string -> list string;
  range_clients : gset addr -> list addr;
  json_ws : list byte -> option (string * list byte);
  json_payload : list byte -> option MessagePayload
}.

(** Go leaves the order of [range] over a map open, but visits each key
    once. *)
Definition Env_ok (env : Env) : Prop :=
  (forall s, range_keys env s ≡ₚ elements s)
  /\ (forall s, range_clients env s ≡ₚ elements s).

(** The state an execution acts on: the Session Store, the in-memory message
    log of [MessageService], the hub's room map and whether it was given a
    message service, the heap of connections, the trace of effects so far,
    and the counter of readings of the environment. *)
Record World : Type := mkWorld {
  store : Store;
  messages : gmap string (list Message);
  hub_rooms : gmap string (gset addr);
  hub_messageService : bool;
  heap : gmap addr Client;
  trace : list Event;
  tick : nat
}.

Definition set_store (st : Store) (w : World) : World :=
  mkWorld st (messages w) (hub_rooms w) (hub_messageService w) (heap w)
          (trace w) (tick w).
Definition set_messages (m : gmap string (list Message)) (w : World) : World :=
  mkWorld (store w) m (hub_rooms w) (hub_messageService w) (heap w)
          (trace w) (tick w).
Definition set_hub_rooms (r : gmap string (gset addr)) (w : World) : World :=
  mkWorld (store w) (messages w) r (hub_messageService w) (heap w)
          (trace w) (tick w).
Definition set_heap (h : gmap addr Client) (w : World) : World :=
  mkWorld (store w) (messages w) (hub_rooms w) (hub_messageService w) h
          (trace w) (tick w).
Definition emit (e : Event) (w : World) : World :=
  mkWorld (store w) (messages w) (hub_rooms w) (hub_messageService w) (heap w)
          (trace w ++ [e]) (tick w).
Definition step (w : World) : World :=
  mkWorld (store w) (messages w) (hub_rooms w) (hub_messageService w) (heap w)
          (trace w) (S (tick w)).

(** The state monad the services run in. *)
Definition M (A : Type) : Type := World -> A * World.

Definition ret {A : Type} (a : A) : M A := fun w => (a, w).
Definition bind {A B : Type} (m : M A) (k : A -> M B) : M B :=
  fun w => let (a, w') := m w in k a w'.

Notation "'let*' x ':=' m 'in' k" := (bind m (fun x => k))
  (at level 10, x name, m at level 100, k at level 200, only parsing).
Notation "m1 '>>' m2" := (bind m1 (fun _ => m2))
  (at level 60, right associativity, only parsing).

(** Go's [error]: [None] is [nil]. *)
Definition error : Type := option string.

Definition Errorf (prefix : string) (e : string) : string :=
  (prefix ++ e)%string.

(** [for _, x := range xs { body }] *)
Fixpoint for_each {A : Type} (xs : list A) (body : A -> M unit) : M unit :=
  match xs with
  | [] => ret tt
  | x :: xs' => body x >> for_each xs' body
  end.

Definition time_Now (env : Env) : M Time :=
  fun w => (now_at env (tick w), step w).
Definition uuid_New (env : Env) : M string :=
  fun w => (uuid_at env (tick w), step w).

(** [rand.Read(make([]byte, n))]: an error, or [n] fresh bytes. *)
Definition rand_Read (env : Env) (n : nat) : M (string + list byte) :=
  fun w =>
    match rand_at env (tick w) with
    | None => (inl "rand: read failed"%string, step w)
    | Some f => (inr (map f (seq 0 n)), step w)
    end.

(** *** supabase/client.go *)

(** [doRequest]: one HTTP request to the REST API. It fails when transport
    fails or when the store answers with a status of 400 or more; otherwise
    the store has applied the request and the body is returned. Transport
    can fail before the request reaches the store, or after the store has
    applied it, when the reply is lost: the caller is given an error in both
    cases. *)
Definition doRequest {A : Type} (env : Env) (op : StoreOp)
    (sem : Store -> string + Store * A) : M (string + A) :=
  fun w =>
    if net_fails env (tick w) then
      if reply_lost env (tick w) then
        match sem (store w) with
        | inr (st, _) =>
            (inl "failed to read response body"%string,
             step (emit (StoreCall op false) (set_store st w)))
        | inl _ =>
            (inl "failed to read response body"%string,
             step (emit (StoreCall op false) w))
        end
      else (inl "request failed"%string, step (emit (StoreCall op false) w))
    else
      match sem (store w) with
      | inl e => (inl e, step (emit (StoreCall op false) w))
      | inr (st, a) => (inr a, step (emit (StoreCall op true) (set_store st w)))
      end.

(** The calls that filter by an id build the query with
    [fmt.Sprintf("...?id=eq.%s...", id)]: the id is pasted into the URL as
    it is. An id made only of the characters that RFC 3986 leaves unreserved
    reaches the store unchanged, as the value of the filter, and the calls
    below give the request as the store reads it then; with '#', '&', '%'
    and the like in the id, the store is asked something else. *)
Definition unreserved (c : ascii) : bool :=
  let n := nat_of_ascii c in
  ((48 <=? n) && (n <=? 57) || (65 <=? n) && (n <=? 90)
   || (97 <=? n) && (n <=? 122)
   || (n =? 45) || (n =? 46) || (n =? 95) || (n =? 126))%nat.

Definition plain_id (id : string) : bool :=
  forallb unreserved (list_ascii_of_string id).

Definition as_error {A : Type} (r : string + A) : error :=
  match r with inl e => Some e | inr _ => None end.

Definition sem_CreateRoom (room : Room) (st : Store) : string + Store * unit :=
  if existsb (room_has_id (Room_ID room)) (rooms st)
  then inl "supabase error (status 409)"%string
  else inr (mkStore (rooms st ++ [room]) (participants st), tt).

Definition Client_CreateRoom (env : Env) (room : Room) : M error :=
  let* r := doRequest env (OpCreateRoom room) (sem_CreateRoom room) in
  ret (as_error r).

Definition sem_select_rooms (f : Room -> bool) (st : Store)
    : string + Store * list Room :=
  inr (st, List.filter f (rooms st)).

Definition sem_select_participants (f : Participant -> bool) (st : Store)
    : string + Store * list Participant :=
  inr (st, List.filter f (participants st)).

Definition Client_GetRoom (env : Env) (id : string) : M (string + Room) :=
  let* r := doRequest env (OpGetRoom id) (sem_select_rooms (room_has_id id)) in
  match r with
  | inl e => ret (inl e)
  | inr [] => ret (inl "room not found"%string)
  | inr (room :: _) => ret (inr room)
  end.

Definition touch_room (now : Time) (r : Room) : Room :=
  mkRoom (Room_ID r) (Room_Name r) (Room_EncryptionKey r) (Room_CreatedAt r) now.

Definition sem_UpdateRoomActivity (roomID : string) (now : Time) (st : Store)
    : string + Store * unit :=
  inr (mkStore
         (map (fun r => if room_has_id roomID r then touch_room now r else r)
              (rooms st))
         (participants st), tt).

Definition Client_UpdateRoomActivity (env : Env) (roomID : string) : M error :=
  let* now := time_Now env in
  let* r := doRequest env (OpUpdateRoomActivity roomID)
                      (sem_UpdateRoomActivity roomID now) in
  ret (as_error r).

(** DELETE on [rooms]; the participants of a deleted room go with it. *)
Definition sem_DeleteRoom (id : string) (st : Store) : string + Store * unit :=
  let kept := List.filter (fun r => negb (room_has_id id r)) (rooms st) in
  match List.filter (room_has_id id) (rooms st) with
  | [] => inr (mkStore kept (participants st), tt)
  | _ :: _ =>
      inr (mkStore kept
             (List.filter (fun p => negb (participant_in_room id p))
                          (participants st)), tt)
  end.

Definition Client_DeleteRoom (env : Env) (id : string) : M error :=
  let* r := doRequest env (OpDeleteRoom id) (sem_DeleteRoom id) in
  ret (as_error r).

Definition sem_AddParticipant (p : Participant) (st : Store)
    : string + Store * unit :=
  if existsb (participant_has_id (Participant_ID p)) (participants st)
  then inl "supabase error (status 409)"%string
  else if existsb (room_has_id (Participant_RoomID p)) (rooms st)
  then inr (mkStore (rooms st) (participants st ++ [p]), tt)
  else inl "supabase error (status 409)"%string.

Definition Client_AddParticipant (env : Env) (p : Participant) : M error :=
  let* r := doRequest env (OpAddParticipant p) (sem_AddParticipant p) in
  ret (as_error r).

Definition Client_GetParticipants (env : Env) (roomID : string)
    : M (string + list Participant) :=
  doRequest env (OpGetParticipants roomID)
            (sem_select_participants (participant_in_room roomID)).

Definition Client_GetParticipant (env : Env) (participantID : string)
    : M (string + Participant) :=
  let* r := doRequest env (OpGetParticipant participantID)
              (sem_select_participants (participant_has_id participantID)) in
  match r with
  | inl e => ret (inl e)
  | inr [] => ret (inl ("participant not found: " ++ participantID)%string)
  | inr (p :: _) => ret (inr p)
  end.

(** DELETE with an [id=eq.] filter: deleting no row is not an error. *)
Definition sem_RemoveParticipant (participantID : string) (st : Store)
    : string + Store * unit :=
  inr (mkStore (rooms st)
         (List.filter (fun p => negb (participant_has_id participantID p))
                      (participants st)), tt).

Definition Client_RemoveParticipant (env : Env) (participantID : string)
    : M error :=
  let* r := doRequest env (OpRemoveParticipant participantID)
                      (sem_RemoveParticipant participantID) in
  ret (as_error r).

Definition Client_CountParticipants (env : Env) (roomID : string)
    : M (string + nat) :=
  let* r := Client_GetParticipants env roomID in
  match r with
  | inl e => ret (inl e)
  | inr ps => ret (inr (length ps))
  end.

Definition Client_GetInactiveRooms (env : Env) (threshold : Time)
    : M (string + list Room) :=
  doRequest env (OpGetInactiveRooms threshold)
    (sem_select_rooms
       (fun r => Before (Room_LastActiveAt r) (FormatRFC3339 threshold))).

Definition touch_participant (now : Time) (p : Participant) : Participant :=
  mkParticipant (Participant_ID p) (Participant_RoomID p)
    (Participant_Username p) (Participant_Avatar p) (Participant_JoinedAt p) now.

Definition sem_UpdateParticipantActivity (participantID : string) (now : Time)
    (st : Store) : string + Store * unit :=
  inr (mkStore (rooms st)
         (map (fun p => if participant_has_id participantID p
                        then touch_participant now p else p)
              (participants st)), tt).

Definition Client_UpdateParticipantActivity (env : Env) (participantID : string)
    : M error :=
  let* now := time_Now env in
  let* r := doRequest env (OpUpdateParticipantActivity participantID)
                      (sem_UpdateParticipantActivity participantID now) in
  ret (as_error r).

(** POST to the realtime broadcast endpoint, topic [room:<roomID>], event
    [participant]. *)
Definition BroadcastParticipantEvent (env : Env) (roomID action : string)
    (participant : Participant) : M error :=
  fun w =>
    if realtime_fails env (tick w) then
      (Some "broadcast request failed"%string,
       step (emit (BroadcastParticipant roomID action participant false) w))
    else
      (None, step (emit (BroadcastParticipant roomID action participant true) w)).

(** POST to the realtime broadcast endpoint, topic [rooms:lobby], event
    [room]. *)
Definition BroadcastRoomEvent (env : Env) (action : string) (room : Room)
    : M error :=
  fun w =>
    if realtime_fails env (tick w) then
      (Some "room broadcast request failed"%string,
       step (emit (BroadcastRoom action room false) w))
    else
      (None, step (emit (BroadcastRoom action room true) w)).

Definition Client_GetInactiveParticipants (env : Env) (threshold : Time)
    : M (string + list Participant) :=
  doRequest env (OpGetInactiveParticipants threshold)
    (sem_select_participants
       (fun p => Before (Participant_LastActiveAt p) (FormatRFC3339 threshold))).

(** *** services/room.go

    The calls to [log.Printf] and [fmt.Printf] are left out: they write to
    the process log only. Where the code logs an error and goes on, the
    error value is dropped here. *)

(** [hex.EncodeToString]: two lower-case hexadecimal digits per byte. *)
Definition hextable : string := "0123456789abcdef".

Definition hex_EncodeToString (src : list byte) : string :=
  string_of_list_ascii
    (flat_map (fun v => [char_at hextable (Z.shiftr (byte_val v) 4);
                         char_at hextable (Z.land (byte_val v) 15)]) src).

Definition generateRoomID (env : Env) : M (string + string) :=
  let* r := rand_Read env 4 in
  match r with
  | inl err => ret (inl err)
  | inr bytes => ret (inr (hex_EncodeToString bytes))
  end.

Definition generateEncryptionKey (env : Env) : M (string + string) :=
  let* r := rand_Read env 32 in
  match r with
  | inl err => ret (inl err)
  | inr bytes => ret (inr (base64Encode bytes))
  end.

Definition CreateRoom (env : Env) (name : string) : M (string + Room) :=
  let* r := generateRoomID env in
  match r with
  | inl err => ret (inl (Errorf "failed to generate room ID: " err))
  | inr roomID =>
      let* k := generateEncryptionKey env in
      match k with
      | inl err => ret (inl (Errorf "failed to generate encryption key: " err))
      | inr encryptionKey =>
          let name := if String.eqb name "" then "Untitled Room"%string else name in
          let* now := time_Now env in
          let room := mkRoom roomID name encryptionKey now now in
          let* err := Client_CreateRoom env room in
          match err with
          | Some e => ret (inl (Errorf "failed to create room: " e))
          | None => ret (inr room)
          end
      end
  end.

Definition JoinRoom (env : Env) (roomID username avatar : string)
    : M (string + Participant * Room * list Participant) :=
  let* r := Client_GetRoom env roomID in
  match r with
  | inl err => ret (inl (Errorf "room not found: " err))
  | inr room =>
      let* now := time_Now env in
      let* id := uuid_New env in
      let participant := mkParticipant id roomID username avatar now now in
      let* err := Client_AddParticipant env participant in
      match err with
      | Some e => ret (inl (Errorf "failed to join room: " e))
      | None =>
          (* a failed broadcast is logged *)
          let* _ := BroadcastParticipantEvent env roomID "join" participant in
          (* a failed activity update is logged *)
          let* _ := Client_UpdateRoomActivity env roomID in
          let* ps := Client_GetParticipants env roomID in
          match ps with
          | inl e => ret (inl e)
          | inr participants => ret (inr (participant, room, participants))
          end
      end
  end.

Definition LeaveRoom (env : Env) (roomID participantID : string) : M error :=
  let* r := Client_GetParticipant env participantID in
  (* on error the participant pointer stays nil and the error is logged *)
  let participant := match r with inl _ => None | inr p => Some p end in
  let* err := Client_RemoveParticipant env participantID in
  match err with
  | Some e => ret (Some (Errorf "failed to leave room: " e))
  | None =>
      let* _ := match participant with
                | Some p => BroadcastParticipantEvent env roomID "leave" p
                | None => ret None
                end in
      let* c := Client_CountParticipants env roomID in
      match c with
      | inl e => ret (Some (Errorf "failed to check participant count: " e))
      | inr count =>
          if (count =? 0)%nat then
            let* err := Client_DeleteRoom env roomID in
            match err with
            | Some e => ret (Some (Errorf "failed to delete empty room: " e))
            | None => ret None
            end
          else ret None
      end
  end.

Definition UpdateHeartbeat (env : Env) (roomID participantID : string)
    : M error :=
  let* err := Client_UpdateRoomActivity env roomID in
  match err with
  | Some e => ret (Some e)
  | None =>
      if negb (String.eqb participantID "") then
        Client_UpdateParticipantActivity env participantID
      else ret None
  end.

(** *** services/cleanup.go *)

Record CleanupService : Type := mkCleanupService {
  interval : Time;
  timeout : Time
}.

(** A loop that threads a local variable through its iterations. *)
Fixpoint fold_each {A S : Type} (xs : list A) (s : S) (body : S -> A -> M S)
    : M S :=
  match xs with
  | [] => ret s
  | x :: xs' => let* s' := body s x in fold_each xs' s' body
  end.

Definition cleanupParticipants (env : Env) (threshold : Time) : M unit :=
  let* r := Client_GetInactiveParticipants env threshold in
  match r with
  | inl _ => ret tt
  | inr participants =>
      if (length participants =? 0)%nat then ret tt
      else
        let* roomsToCheck :=
          fold_each participants (∅ : gset string)
            (fun roomsToCheck p =>
               let* err := Client_RemoveParticipant env (Participant_ID p) in
               match err with
               | Some _ => ret roomsToCheck
               | None =>
                   let* _ := BroadcastParticipantEvent env
                               (Participant_RoomID p) "leave" p in
                   ret ({[Participant_RoomID p]} ∪ roomsToCheck)
               end) in
        for_each (range_keys env roomsToCheck)
          (fun roomID =>
             let* c := Client_CountParticipants env roomID in
             match c with
             | inl _ => ret tt
             | inr count =>
                 if (count =? 0)%nat then
                   let* _ := Client_DeleteRoom env roomID in ret tt
                 else ret tt
             end)
  end.

Definition cleanupRooms (env : Env) (threshold : Time) : M unit :=
  let* r := Client_GetInactiveRooms env threshold in
  match r with
  | inl _ => ret tt
  | inr rooms =>
      if (length rooms =? 0)%nat then ret tt
      else
        for_each rooms
          (fun room => let* _ := Client_DeleteRoom env (Room_ID room) in ret tt)
  end.

(** [-s.timeout] on an [int64]: the least value is its own negation. *)
Definition neg64 (d : Z) : Z := if d =? - 2 ^ 63 then d else - d.

Definition cleanup (env : Env) (s : CleanupService) : M unit :=
  let* now := time_Now env in
  let threshold := now + neg64 (timeout s) in
  cleanupParticipants env threshold >> cleanupRooms env threshold.

(** What the [select] of [Start] receives, in order. *)
Inductive SelectEvent : Type :=
| TickerC
| StopChan.

(** [Start]: the ticker is created, then the loop serves what [select]
    receives; the list is the finite prefix of receptions observed. *)
Fixpoint Start (env : Env) (s : CleanupService) (events : list SelectEvent)
    : M unit :=
  match events with
  | [] => ret tt
  | TickerC :: rest => cleanup env s >> Start env s rest
  | StopChan :: _ => ret tt
  end.

(** *** services/message.go *)

Definition SendMessage (env : Env) (roomID : string) (req : SendMessageRequest)
    : M Message :=
  let* id := uuid_New env in
  let* now := time_Now env in
  let msg := mkMessage id roomID (Req_ParticipantID req) (Req_Content req)
               (Req_Username req) (Req_Avatar req) now (Req_ReplyTo req) in
  fun w =>
    (msg, set_messages
            (<[roomID := default [] (messages w !! roomID) ++ [msg]]> (messages w))
            w).

(** The filtering loop of [GetMessages]: [filtered = append(filtered, msg)]. *)
Definition filter_after (afterTime : Time) (roomMessages : list Message)
    : list Message :=
  fold_left
    (fun filtered msg =>
       if After (Message_Timestamp msg) afterTime then filtered ++ [msg]
       else filtered)
    roomMessages [].

Definition GetMessages (msgs : gmap string (list Message)) (roomID : string)
    (afterTime : Time) : list Message :=
  match msgs !! roomID with
  | None => []
  | Some roomMessages =>
      if IsZero afterTime then roomMessages
      else filter_after afterTime roomMessages
  end.

Definition DeleteRoomMessages (roomID : string) : M unit :=
  fun w => (tt, set_messages (delete roomID (messages w)) w).

Definition GetMessageCount (msgs : gmap string (list Message)) (roomID : string)
    : nat :=
  length (default [] (msgs !! roomID)).

(** *** websocket/hub.go *)

(** A hub operation either returns or panics (Go panics on a send to, or a
    second close of, a closed channel). *)
Inductive outcome : Type :=
| Returned
| Panicked (why : string).

Record BroadcastMessage : Type := mkBroadcastMessage {
  Msg_RoomID : string;
  Msg_Message : list byte;
  Msg_Sender : option addr
}.

Definition set_send (c : Client) (ch : Chan) : Client :=
  mkClient ch (Client_RoomID c) (Client_ParticipantID c) (Client_Username c)
           (Client_Avatar c).

(** [close(client.send)] *)
Definition close_send (client : addr) : M outcome :=
  fun w =>
    match heap w !! client with
    | None => (Panicked "nil pointer dereference", w)
    | Some c =>
        if chan_closed (Client_send c) then (Panicked "close of closed channel", w)
        else
          let ch := mkChan (chan_buf (Client_send c)) (chan_cap (Client_send c)) true in
          (Returned, set_heap (<[client := set_send c ch]> (heap w)) w)
    end.

Definition registerClient (client : addr) : M outcome :=
  fun w =>
    match heap w !! client with
    | None => (Panicked "nil pointer dereference", w)
    | Some c =>
        let clients := default ∅ (hub_rooms w !! Client_RoomID c) in
        (Returned,
         set_hub_rooms (<[Client_RoomID c := {[client]} ∪ clients]> (hub_rooms w)) w)
    end.

Definition unregisterClient (client : addr) : M outcome :=
  fun w =>
    match heap w !! client with
    | None => (Panicked "nil pointer dereference", w)
    | Some c =>
        match hub_rooms w !! Client_RoomID c with
        | None => (Returned, w)
        | Some clients =>
            if decide (client ∈ clients) then
              let clients' := clients ∖ {[client]} in
              let w1 := set_hub_rooms (<[Client_RoomID c := clients']> (hub_rooms w)) w in
              match close_send client w1 with
              | (Panicked why, w2) => (Panicked why, w2)
              | (Returned, w2) =>
                  if (size clients' =? 0)%nat then
                    (Returned,
                     set_hub_rooms (delete (Client_RoomID c) (hub_rooms w2)) w2)
                  else (Returned, w2)
              end
            else (Returned, w)
        end
    end.

Definition storeMessageIfApplicable (env : Env) (roomID : string)
    (rawMessage : list byte) : M unit :=
  fun w =>
    if negb (hub_messageService w) then (tt, w)
    else
      match json_ws env rawMessage with
      | None => (tt, w)
      | Some (type, payload) =>
          if negb (String.eqb type "message") then (tt, w)
          else
            match json_payload env payload with
            | None => (tt, w)
            | Some pl =>
                let req := mkSendMessageRequest (Payload_ParticipantID pl)
                             (Payload_Content pl) (Payload_Username pl)
                             (Payload_Avatar pl) (Payload_ReplyTo pl) in
                (let* _ := SendMessage env roomID req in ret tt) w
            end
      end.

(** One iteration of the fan-out loop: the [select] with a [default]. *)
Definition send_or_drop (msg : BroadcastMessage) (client : addr) : M outcome :=
  fun w =>
    if decide (Msg_Sender msg = Some client) then (Returned, w)
    else
      match heap w !! client with
      | None => (Panicked "nil pointer dereference", w)
      | Some c =>
          let ch := Client_send c in
          if chan_closed ch then (Panicked "send on closed channel", w)
          else if (length (chan_buf ch) <? chan_cap ch)%nat then
            let ch' := mkChan (chan_buf ch ++ [Msg_Message msg]) (chan_cap ch) false in
            (Returned, set_heap (<[client := set_send c ch']> (heap w)) w)
          else
            match hub_rooms w !! Msg_RoomID msg with
            | None => (Returned, w)
            | Some clients =>
                close_send client
                  (set_hub_rooms
                     (<[Msg_RoomID msg := clients ∖ {[client]}]> (hub_rooms w)) w)
            end
      end.

Fixpoint fan_out (msg : BroadcastMessage) (clients : list addr) : M outcome :=
  match clients with
  | [] => ret Returned
  | client :: rest =>
      let* o := send_or_drop msg client in
      match o with
      | Panicked why => ret (Panicked why)
      | Returned => fan_out msg rest
      end
  end.

Definition broadcastToRoom (env : Env) (msg : BroadcastMessage) : M outcome :=
  fun w =>
    let clients := default ∅ (hub_rooms w !! Msg_RoomID msg) in
    (storeMessageIfApplicable env (Msg_RoomID msg) (Msg_Message msg)
     >> fan_out msg (range_clients env clients)) w.

Definition GetRoomClientCount (w : World) (roomID : string) : nat :=
  size (default ∅ (hub_rooms w !! roomID)).

(** *** The rest of the services, the hub loop and the HTTP handlers *)

(** *** services/room.go: GetRoom *)

Definition GetRoom (env : Env) (roomID : string)
    : M (string + Room * list Participant) :=
  let* r := Client_GetRoom env roomID in
  match r with
  | inl err => ret (inl err)
  | inr room =>
      let* ps := Client_GetParticipants env roomID in
      match ps with
      | inl err => ret (inl err)
      | inr participants => ret (inr (room, participants))
      end
  end.

(** *** websocket/hub.go: the event loop, and websocket/handler.go: ServeWS *)

(** What the [select] of [Run] receives. *)
Inductive HubEvent : Type :=
| RegisterEv (client : addr)
| UnregisterEv (client : addr)
| BroadcastEv (msg : BroadcastMessage).

(** [Run]: the loop serves one reception after the other; the list is the
    finite prefix of receptions observed. A panic ends the loop. *)
Fixpoint Run (env : Env) (evs : list HubEvent) : M outcome :=
  match evs with
  | [] => ret Returned
  | ev :: rest =>
      let* o := match ev with
                | RegisterEv client => registerClient client
                | UnregisterEv client => unregisterClient client
                | BroadcastEv msg => broadcastToRoom env msg
                end in
      match o with
      | Panicked why => ret (Panicked why)
      | Returned => Run env rest
      end
  end.

(** *** handlers/room.go and handlers/message.go

    A handler receives the URL parameter [id] and the outcome of decoding
    the JSON body ([None] when decoding failed), and answers with a status
    and a body. *)
Inductive ResponseBody : Type :=
| ErrorText (text : string)
| CreateRoomResponse (room_id : string)
| RoomInfoResponse (room : Room) (ps : list Participant)
| JoinRoomResponse (participant_id : string) (room : Room) (ps : list Participant)
| NoBody
| MessageResponse (msg : Message)
| GetMessagesResponse (msgs : list Message).

Record Response : Type := mkResponse {
  status : nat;
  body : ResponseBody
}.

Definition StatusOK : nat := 200.
Definition StatusCreated : nat := 201.
Definition StatusNoContent : nat := 204.
Definition StatusBadRequest : nat := 400.
Definition StatusNotFound : nat := 404.
Definition StatusInternalServerError : nat := 500.

(** [http.Error(w, text, code)] *)
Definition http_Error (text : string) (code : nat) : Response :=
  mkResponse code (ErrorText text).

(** [writeJSON(w, status, data)] *)
Definition writeJSON (code : nat) (data : ResponseBody) : Response :=
  mkResponse code data.

Definition Handler_CreateRoom (env : Env) (decoded : option string) : M Response :=
  let name := match decoded with Some name => name | None => ""%string end in
  let* r := CreateRoom env name in
  match r with
  | inl err => ret (http_Error err StatusInternalServerError)
  | inr room => ret (writeJSON StatusCreated (CreateRoomResponse (Room_ID room)))
  end.

Definition Handler_GetRoom (env : Env) (roomID : string) : M Response :=
  if String.eqb roomID "" then
    ret (http_Error "room ID is required" StatusBadRequest)
  else
    let* r := GetRoom env roomID in
    match r with
    | inl _ => ret (http_Error "room not found" StatusNotFound)
    | inr (room, participants) =>
        ret (writeJSON StatusOK (RoomInfoResponse room participants))
    end.

(** The decoded [JoinRoomRequest] is the pair of [username] and [avatar]. *)
Definition Handler_JoinRoom (env : Env) (roomID : string)
    (decoded : option (string * string)) : M Response :=
  if String.eqb roomID "" then
    ret (http_Error "room ID is required" StatusBadRequest)
  else
    match decoded with
    | None => ret (http_Error "invalid request body" StatusBadRequest)
    | Some (username, avatar) =>
        if String.eqb username "" then
          ret (http_Error "username is required" StatusBadRequest)
        else
          let* r := JoinRoom env roomID username avatar in
          match r with
          | inl err => ret (http_Error err StatusInternalServerError)
          | inr (participant, room, participants) =>
              ret (writeJSON StatusOK
                     (JoinRoomResponse (Participant_ID participant) room
                                       participants))
          end
    end.

(** The decoded [LeaveRoomRequest] is its [participant_id]. *)
Definition Handler_LeaveRoom (env : Env) (roomID : string)
    (decoded : option string) : M Response :=
  if String.eqb roomID "" then
    ret (http_Error "room ID is required" StatusBadRequest)
  else
    match decoded with
    | None => ret (http_Error "invalid request body" StatusBadRequest)
    | Some participantID =>
        if String.eqb participantID "" then
          ret (http_Error "participant ID is required" StatusBadRequest)
        else
          let* err := LeaveRoom env roomID participantID in
          match err with
          | Some e => ret (http_Error e StatusInternalServerError)
          | None => ret (mkResponse StatusNoContent NoBody)
          end
    end.

(** The error of decoding the body is ignored: [participantID] is the value
    of the field after decoding, empty when the body gave none. *)
Definition Handler_Heartbeat (env : Env) (roomID : string)
    (participantID : string) : M Response :=
  if String.eqb roomID "" then
    ret (http_Error "room ID is required" StatusBadRequest)
  else
    let* err := UpdateHeartbeat env roomID participantID in
    match err with
    | Some e => ret (http_Error e StatusInternalServerError)
    | None => ret (mkResponse StatusNoContent NoBody)
    end.

Definition Handler_SendMessage (env : Env) (roomID : string)
    (decoded : option SendMessageRequest) : M Response :=
  if String.eqb roomID "" then
    ret (http_Error "room ID is required" StatusBadRequest)
  else
    match decoded with
    | None => ret (http_Error "invalid request body" StatusBadRequest)
    | Some req =>
        if String.eqb (Req_Content req) "" then
          ret (http_Error "content is required" StatusBadRequest)
        else
          let* msg := SendMessage env roomID req in
          ret (writeJSON StatusCreated (MessageResponse msg))
    end.

(** [time_Parse] stands for [time.Parse(time.RFC3339Nano, _)]. *)
Definition Handler_GetMessages (time_Parse : string -> option Time)
    (roomID : string) (afterParam : string) : M Response :=
  if String.eqb roomID "" then
    ret (http_Error "room ID is required" StatusBadRequest)
  else
    let parsed :=
      if negb (String.eqb afterParam "") then
        match time_Parse afterParam with
        | None => inl tt
        | Some t => inr t
        end
      else inr 0 in
    match parsed with
    | inl _ => ret (http_Error "invalid 'after' timestamp format" StatusBadRequest)
    | inr afterTime =>
        fun w =>
          (writeJSON StatusOK
             (GetMessagesResponse (GetMessages (messages w) roomID afterTime)), w)
    end.

(** [NewClient]: a connection with an empty outbound queue of 256 slots. *)
Definition NewClient (roomID participantID username avatar : string) : Client :=
  mkClient (mkChan [] 256 false) roomID participantID username avatar.

(** *** Sample environment and worlds, for evaluating the model *)

(** No transport failure; the clock advances by one second per reading from
    an arbitrary positive instant; [range] visits keys in stdpp's order. *)
Definition quiet_env : Env :=
  mkEnv (fun _ => false) (fun _ => false) (fun _ => false)
        (fun k => 1000000000000 + 1000000000 * Z.of_nat k)
        (fun k => String (ascii_of_nat (97 + k)) EmptyString)
        (fun _ => Some (fun i => match Byte.of_N (N.of_nat i) with
                                 | Some b => b
                                 | None => x00
                                 end))
        elements elements
        (fun _ => None) (fun _ => None).

Definition empty_world : World :=
  mkWorld (mkStore [] []) ∅ ∅ true ∅ [] O.

Definition standup : Room := mkRoom "a1b2c3d4" "Standup" "key" 5 5.
Definition ann : Participant := mkParticipant "ann" "a1b2c3d4" "Ann" "fox" 6 6.
Definition ben : Participant := mkParticipant "ben" "a1b2c3d4" "Ben" "owl" 7 7.

(** One room, holding Ann only; one message stored for the room. *)
Definition hello : Message :=
  mkMessage "m1" "a1b2c3d4" "ann" "ciphertext" "Ann" "fox" 8 None.

Definition world_ann : World :=
  mkWorld (mkStore [standup] [ann]) {["a1b2c3d4"%string := [hello]]} ∅ true ∅ [] O.

Definition every_minute : CleanupService :=
  mkCleanupService 60000000000 300000000000.

(** A hub room with three connections; the queue of connection 1 is full. *)
Definition saturated_client : Client :=
  mkClient (mkChan (replicate 256 []) 256 false) "a1b2c3d4" "ann" "Ann" "fox".

Definition hub_world : World :=
  mkWorld (mkStore [standup] [ann; ben]) ∅
    {["a1b2c3d4"%string := ({[1%nat; 2%nat; 3%nat]} : gset addr)]} true
    {[1%nat := saturated_client;
      2%nat := NewClient "a1b2c3d4" "ben" "Ben" "owl";
      3%nat := NewClient "a1b2c3d4" "cat" "Cat" "cat"]}
    [] O.

Definition typing_from (sender : option addr) : BroadcastMessage :=
  mkBroadcastMessage "a1b2c3d4" [x68; x69] sender.

(** ** Part II. Vocabulary of the properties *)

(** *** Executions and traces *)

(** The events an execution of [m] from [w] adds to the trace. *)
Definition events {A : Type} (m : M A) (w : World) : list Event :=
  drop (length (trace w)) (trace (snd (m w))).

(** The events added since [w0] satisfy [P]. *)
Definition appended (w0 : World) (P : list Event -> Prop) (w' : World) : Prop :=
  exists evs, trace w' = trace w0 ++ evs /\ P evs.

(** Trace properties that hold of the empty trace and of a concatenation
    when they hold of its two parts can be carried through loops. *)
Definition segmental (P : list Event -> Prop) : Prop :=
  P [] /\ forall e1 e2, P e1 -> P e2 -> P (e1 ++ e2).

(** Weakest precondition of a computation in [M]. *)
Definition wp {A : Type} (m : M A) (Q : A -> World -> Prop) (w : World) : Prop :=
  Q (fst (m w)) (snd (m w)).

(** The world after one request. *)
Definition after_call (e : Event) (w : World) : World := step (emit e w).

Definition is_room_event (e : Event) : bool :=
  match e with
  | BroadcastRoom _ _ _ => true
  | _ => false
  end.

Definition is_presence_event (e : Event) : bool :=
  match e with
  | BroadcastParticipant _ _ _ _ => true
  | _ => false
  end.

Definition no_room_event (e : Event) : Prop := is_room_event e = false.

Definition no_presence_event (e : Event) : Prop := is_presence_event e = false.

Definition presence_count (evs : list Event) : nat :=
  length (List.filter is_presence_event evs).

(** *** The Session Store *)

Definition participantCount (roomID : string) (st : Store) : nat :=
  length (List.filter (participant_in_room roomID) (participants st)).

Definition room_exists (roomID : string) (st : Store) : bool :=
  existsb (room_has_id roomID) (rooms st).

Definition participant_exists (participantID : string) (st : Store) : bool :=
  existsb (participant_has_id participantID) (participants st).

(** The invariant of the specification, for one room: no participants, no
    room. *)
Definition settled (roomID : string) (st : Store) : Prop :=
  participantCount roomID st = O -> room_exists roomID st = false.

(** The store after a successful DELETE of room [id]. *)
Definition store_without_room (id : string) (st : Store) : Store :=
  match sem_DeleteRoom id st with
  | inr (st', _) => st'
  | inl _ => st
  end.

(** The participants that [GetInactiveParticipants(threshold)] selects. *)
Definition stale (threshold : Time) (p : Participant) : bool :=
  Before (Participant_LastActiveAt p) (FormatRFC3339 threshold).

(** *** Persist, then broadcast *)






(** *** The message log *)

(** [since] in the words of the specification: the messages of the room with
    a timestamp strictly after [t], in append order; the whole buffer when
    [t] is the zero value. *)
Definition since (msgs : gmap string (list Message)) (roomID : string)
    (t : Time) : list Message :=
  let buffer := default [] (msgs !! roomID) in
  if IsZero t then buffer
  else List.filter (fun m => t <? Message_Timestamp m) buffer.

(** *** Backpressure in the hub *)

(** A connection after the payload [m] was queued for it. *)
Definition delivered (m : list byte) (c : Client) : Client :=
  set_send c (mkChan (chan_buf (Client_send c) ++ [m])
                     (chan_cap (Client_send c)) false).

(** A connection after its queue was closed. *)
Definition closed_off (c : Client) : Client :=
  set_send c (mkChan (chan_buf (Client_send c)) (chan_cap (Client_send c)) true).

Definition queue_full (c : Client) : bool :=
  negb (length (chan_buf (Client_send c)) <? chan_cap (Client_send c))%nat.

(** The room [roomID] has the connection set [R]; every connection in it
    is live with an open queue, and [slow] is the one whose queue is full. *)
Definition one_saturated (w : World) (roomID : string) (R : gset addr)
    (slow : addr) : Prop :=
  hub_rooms w !! roomID = Some R
  /\ slow ∈ R
  /\ forall a, a ∈ R ->
       exists c, heap w !! a = Some c
                 /\ chan_closed (Client_send c) = false
                 /\ (queue_full c = true <-> a = slow).

(** The outcome the specification describes: the broadcast returns, the
    saturated connection is out of the room's set with its queue closed,
    every other connection but the sender has the payload at the end of its
    queue, and the sender is left as it was. *)
Definition backpressure_outcome (env : Env) (msg : BroadcastMessage)
    (w : World) (R : gset addr) (slow : addr) : Prop :=
  let r := broadcastToRoom env msg w in
  fst r = Returned
  /\ hub_rooms (snd r) !! Msg_RoomID msg = Some (R ∖ {[slow]})
  /\ (exists c, heap w !! slow = Some c
                /\ heap (snd r) !! slow = Some (closed_off c))
  /\ (forall a, a ∈ R -> a <> slow -> Msg_Sender msg <> Some a ->
        exists c, heap w !! a = Some c
                  /\ heap (snd r) !! a = Some (delivered (Msg_Message msg) c))
  /\ (forall a, Msg_Sender msg = Some a -> heap (snd r) !! a = heap w !! a).

(** What the fan-out loop needs of the connections it is about to visit. *)
Definition ready (msg : BroadcastMessage) (slow : addr) (w : World)
    (l : list addr) : Prop :=
  forall a, In a l -> Msg_Sender msg <> Some a ->
    exists c, heap w !! a = Some c
              /\ chan_closed (Client_send c) = false
              /\ (queue_full c = true <-> a = slow).

(** *** base64 *)

(** Enumeration of the 256 byte values, used to settle facts about the bit
    operations of [base64Encode] by evaluation. *)
Definition all_bytes : list byte :=
  map (fun n => match Byte.of_N (N.of_nat n) with Some b => b | None => x00 end)
      (seq 0 256).

(** One sextet of the 24-bit word [x], and its character. *)
Definition six (x m : Z) : Z := and32 (shr32 x m) 63.

Definition sx (w m : Z) : ascii := char_at base64Chars (and32 (shr32 w m) 63).

(** The list-recursive reading of the loop of [base64Encode]: one group of up
    to three bytes per step. *)
Fixpoint groups (data : list byte) : list ascii :=
  match data with
  | [] => []
  | [b0] =>
      let b := shl32 (byte_val b0) 16 in
      [sx b 18; sx b 12; "="%char; "="%char]
  | [b0; b1] =>
      let b := or32 (shl32 (byte_val b0) 16) (shl32 (byte_val b1) 8) in
      [sx b 18; sx b 12; sx b 6; "="%char]
  | b0 :: b1 :: b2 :: rest =>
      let b := or32 (or32 (shl32 (byte_val b0) 16) (shl32 (byte_val b1) 8))
                    (byte_val b2) in
      [sx b 18; sx b 12; sx b 6; char_at base64Chars (and32 b 63)] ++ groups rest
  end.

Abbreviation bit b k := (Z.testbit (byte_val b) k).

(** The RFC reading, as a list of characters. *)
Definition rfc_sextet_chars (data : list byte) : list ascii :=
  map rfc4648_char (sextets (length (bit_stream data)) (bit_stream data)).

Definition rfc_pad (n : nat) : nat := ((4 - n mod 4) mod 4)%nat.

(** *** Vocabulary for the further properties *)

(** The rooms that [GetInactiveRooms(threshold)] selects. *)
Definition stale_room (threshold : Time) (r : Room) : bool :=
  Before (Room_LastActiveAt r) (FormatRFC3339 threshold).

(** The threshold a sweep started in world [w] computes. *)
Definition sweep_threshold (env : Env) (s : CleanupService) (w : World) : Time :=
  now_at env (tick w) - timeout s.

Definition is_broadcast (e : Event) : bool :=
  is_presence_event e || is_room_event e.

(** The state that protects participant [p] from a sweep with threshold
    [th]: it is in the store, and no room row with its room id is stale. *)
Definition protected (th : Time) (p : Participant) (st : Store) : Prop :=
  In p (participants st)
  /\ forall r, In r (rooms st) -> Room_ID r = Participant_RoomID p ->
               stale_room th r = false.

(** A room that is active at the instants of [quiet_env], holding an active
    participant (Ann) and a stale one (Ben). *)
Definition live_standup : Room :=
  mkRoom "a1b2c3d4" "Standup" "key" 5 900000000000.
Definition live_ann : Participant :=
  mkParticipant "ann" "a1b2c3d4" "Ann" "fox" 6 900000000000.

Definition world_mixed : World :=
  mkWorld (mkStore [live_standup] [live_ann; ben]) ∅ ∅ true ∅ [] O.

(** The first request of a sweep. *)
Definition is_sweep_start (e : Event) : bool :=
  match e with
  | StoreCall (OpGetInactiveParticipants _) _ => true
  | _ => false
  end.

Definition sweep_count (evs : list Event) : nat :=
  length (List.filter is_sweep_start evs).

(** The ticks that [Start] receives before it is told to stop. *)
Fixpoint ticks_before_stop (received : list SelectEvent) : nat :=
  match received with
  | TickerC :: rest => S (ticks_before_stop rest)
  | _ => O
  end.

(** *** The hub *)

(** Connection [a] is in the set of some room. *)
Definition registered (w : World) (a : addr) : Prop :=
  exists roomID R, hub_rooms w !! roomID = Some R /\ a ∈ R.

(** The consistency of the hub: every connection in the set of a room is
    live, bound to that room, and has an open queue. *)
Definition hub_ok (w : World) : Prop :=
  forall roomID R a,
    hub_rooms w !! roomID = Some R -> a ∈ R ->
    exists c, heap w !! a = Some c
              /\ chan_closed (Client_send c) = false
              /\ Client_RoomID c = roomID.

(** What a broadcast does to one connection it serves. *)
Definition served (m : list byte) (c : Client) : Client :=
  if queue_full c then closed_off c else delivered m c.

(** The connections that [RegisterEv] and [UnregisterEv] name. *)
Fixpoint registrations (evs : list HubEvent) : list addr :=
  match evs with
  | [] => []
  | RegisterEv a :: rest => a :: registrations rest
  | _ :: rest => registrations rest
  end.

Fixpoint unregistrations (evs : list HubEvent) : list addr :=
  match evs with
  | [] => []
  | UnregisterEv a :: rest => a :: unregistrations rest
  | _ :: rest => unregistrations rest
  end.

(** The frame of a hub operation: it keeps every connection allocated, and
    it neither registers nor touches a connection that was not registered. *)
Definition hub_frame (w w' : World) (except : option addr) : Prop :=
  (forall a, is_Some (heap w !! a) -> is_Some (heap w' !! a))
  /\ forall b, ~ registered w b -> except <> Some b ->
       ~ registered w' b /\ heap w' !! b = heap w !! b.

(** The hub keeps no entry for a room without connections. *)
Definition no_empty_room (w : World) : Prop :=
  forall roomID R, hub_rooms w !! roomID = Some R -> R <> ∅.

(** *** The message log *)

(** The buffer of room [roomID] in the log of [MessageService]. *)
Definition log_of (w : World) (roomID : string) : list Message :=
  default [] (messages w !! roomID).

(** The chat payload that [storeMessageIfApplicable] reads in a frame: the
    frame parses, its type is ["message"], and its payload parses. *)
Definition chat_payload (env : Env) (raw : list byte) : option MessagePayload :=
  match json_ws env raw with
  | Some (type, payload) =>
      if String.eqb type "message" then json_payload env payload else None
  | None => None
  end.

(** Calls of [SendMessage], one after the other. *)
Fixpoint send_each (env : Env) (reqs : list (string * SendMessageRequest))
    : M (list Message) :=
  match reqs with
  | [] => ret []
  | (roomID, req) :: rest =>
      let* m := SendMessage env roomID req in
      let* ms := send_each env rest in
      ret (m :: ms)
  end.

Definition in_room (roomID : string) (m : Message) : bool :=
  String.eqb (Message_RoomID m) roomID.

(** The timestamps of a buffer never go back. *)
Fixpoint chronological (l : list Message) : bool :=
  match l with
  | [] => true
  | m :: rest =>
      forallb (fun m' => Message_Timestamp m <=? Message_Timestamp m') rest
      && chronological rest
  end.

(** The clock of the environment never goes back. *)
Definition monotone_clock (env : Env) : Prop :=
  forall i j : nat, (i <= j)%nat -> now_at env i <= now_at env j.

(** *** Room identifiers *)

Definition is_hex_digit (c : ascii) : bool :=
  existsb (Ascii.eqb c) (list_ascii_of_string hextable).

(** The name [CreateRoom] gives a room. *)
Definition room_name_for (name : string) : string :=
  if String.eqb name "" then "Untitled Room"%string else name.

(** *** The threshold of a sweep *)

(** The threshold that [cleanup] computes when started in world [w]. *)
Definition cleanup_threshold (env : Env) (s : CleanupService) (w : World)
    : Time :=
  now_at env (tick w) + neg64 (timeout s).

(** *** Leaving while the sweep runs *)



(** *** What a heartbeat keeps *)

(** Two rows that differ at most in their last-active time. *)
Definition same_room_but_activity (r r' : Room) : Prop :=
  Room_ID r' = Room_ID r /\ Room_Name r' = Room_Name r
  /\ Room_EncryptionKey r' = Room_EncryptionKey r
  /\ Room_CreatedAt r' = Room_CreatedAt r.

Definition same_participant_but_activity (p p' : Participant) : Prop :=
  Participant_ID p' = Participant_ID p
  /\ Participant_RoomID p' = Participant_RoomID p
  /\ Participant_Username p' = Participant_Username p
  /\ Participant_Avatar p' = Participant_Avatar p
  /\ Participant_JoinedAt p' = Participant_JoinedAt p.

(** The environment of [quiet_env], except that the request to the Session
    Store made at step [n] is applied by the store and its reply is lost. *)
Definition losing_reply_at (n : nat) : Env :=
  mkEnv (fun k => Nat.eqb k n) (fun k => Nat.eqb k n) (realtime_fails quiet_env)
        (now_at quiet_env)
        (uuid_at quiet_env) (rand_at quiet_env) (range_keys quiet_env)
        (range_clients quiet_env) (json_ws quiet_env) (json_payload quiet_env).

(** The environment of [quiet_env] with its clock half a second later. *)
Definition offbeat_env : Env :=
  mkEnv (net_fails quiet_env) (reply_lost quiet_env) (realtime_fails quiet_env)
        (fun k => now_at quiet_env k + 500000000)
        (uuid_at quiet_env) (rand_at quiet_env) (range_keys quiet_env)
        (range_clients quiet_env) (json_ws quiet_env) (json_payload quiet_env).

(** ** Part III. Properties *)

(** *** base64Encode against RFC 4648 *)

Example base64_foobar :
  base64Encode [x66; x6f; x6f; x62; x61] = "Zm9vYmE="%string
  /\ rfc4648_encode [x66; x6f; x6f; x62; x61] = "Zm9vYmE="%string.
Proof. split; reflexivity. Qed.

Lemma all_bytes_complete (b : byte) : In b all_bytes.
Proof.
  assert (H : existsb (Byte.eqb b) all_bytes = true)
    by (destruct b; vm_compute; reflexivity).
  apply existsb_exists in H. destruct H as [x [Hin Heq]].
  apply Byte.byte_dec_bl in Heq. now subst.
Qed.

Lemma forall_bytes (P : byte -> bool) :
  forallb P all_bytes = true -> forall a, P a = true.
Proof.
  intros H a. rewrite forallb_forall in H. apply H, all_bytes_complete.
Qed.

Lemma forall2_bytes (P : byte -> byte -> bool) :
  forallb (fun a => forallb (P a) all_bytes) all_bytes = true ->
  forall a b, P a b = true.
Proof.
  intros H a b. rewrite forallb_forall in H.
  specialize (H a (all_bytes_complete a)).
  rewrite forallb_forall in H. apply H, all_bytes_complete.
Qed.

Lemma drop_byte_at (data : list byte) (i : nat) :
  (i < length data)%nat -> drop i data = byte_at data i :: drop (S i) data.
Proof.
  intros H. unfold byte_at.
  destruct (lookup_lt_is_Some_2 data i H) as [b Hb].
  rewrite Hb. now apply drop_S.
Qed.

Lemma base64_loop_groups (fuel : nat) :
  forall (data : list byte) (i : nat) (result : list ascii),
    (length data - i <= 3 * fuel)%nat ->
    base64_loop fuel data i result = result ++ groups (drop i data).
Proof.
  induction fuel as [|fuel IH]; intros data i result Hfuel.
  - assert (Hge : (length data <= i)%nat) by lia.
    rewrite (drop_ge _ _ Hge). simpl. now rewrite app_nil_r.
  - cbn [base64_loop].
    destruct (Nat.ltb_spec i (length data)) as [Hlt|Hge].
    2:{ rewrite (drop_ge _ _ Hge). simpl. now rewrite app_nil_r. }
    rewrite (drop_byte_at data i Hlt).
    destruct (Nat.leb_spec 3 (length data - i)) as [H3|H3].
    + rewrite (drop_byte_at data (S i)) by lia.
      rewrite (drop_byte_at data (S (S i))) by lia.
      rewrite IH by lia.
      replace (i + 1)%nat with (S i) by lia.
      replace (i + 2)%nat with (S (S i)) by lia.
      replace (i + 3)%nat with (S (S (S i))) by lia.
      cbn [groups]. unfold sx. now rewrite <- app_assoc.
    + destruct (Nat.eqb_spec (length data - i) 2) as [H2|H2].
      * rewrite (drop_byte_at data (S i)) by lia.
        rewrite (drop_ge data (S (S i))) by lia.
        rewrite IH by lia. rewrite (drop_ge data (i + 3)) by lia.
        replace (i + 1)%nat with (S i) by lia.
        cbn [groups]. unfold sx. now rewrite app_nil_r.
      * rewrite (drop_ge data (S i)) by lia.
        rewrite IH by lia. rewrite (drop_ge data (i + 3)) by lia.
        cbn [groups]. unfold sx. now rewrite app_nil_r.
Qed.

Lemma six_or (x y m : Z) : six (or32 x y) m = Z.lor (six x m) (six y m).
Proof.
  unfold six, and32, shr32, or32.
  now rewrite Z.shiftr_lor, Z.land_lor_distr_l.
Qed.

Lemma six_0 (x : Z) : and32 x 63 = six x 0.
Proof. unfold six, shr32. now rewrite Z.shiftr_0_r. Qed.

Ltac by_bytes1 :=
  let a := fresh "a" in
  intros a;
  first [apply Z.eqb_eq | apply Ascii.eqb_eq];
  revert a;
  apply forall_bytes; vm_compute; reflexivity.

Ltac by_bytes2 :=
  let a := fresh "a" in
  let b := fresh "b" in
  intros a b;
  first [apply Z.eqb_eq | apply Ascii.eqb_eq];
  revert a b;
  apply forall2_bytes; vm_compute; reflexivity.

Lemma six_hi8_18 : forall b, six (shl32 (byte_val b) 8) 18 = 0.
Proof. by_bytes1. Qed.
Lemma six_lo_18 : forall b, six (byte_val b) 18 = 0.
Proof. by_bytes1. Qed.
Lemma six_lo_12 : forall b, six (byte_val b) 12 = 0.
Proof. by_bytes1. Qed.
Lemma six_hi16_6 : forall b, six (shl32 (byte_val b) 16) 6 = 0.
Proof. by_bytes1. Qed.
Lemma six_hi16_0 : forall b, six (shl32 (byte_val b) 16) 0 = 0.
Proof. by_bytes1. Qed.
Lemma six_hi8_0 : forall b, six (shl32 (byte_val b) 8) 0 = 0.
Proof. by_bytes1. Qed.

Lemma sextet_a : forall b0,
  char_at base64Chars (six (shl32 (byte_val b0) 16) 18)
  = rfc4648_char [bit b0 7; bit b0 6; bit b0 5; bit b0 4; bit b0 3; bit b0 2].
Proof. by_bytes1. Qed.

Lemma sextet_b : forall b0 b1,
  char_at base64Chars
    (Z.lor (six (shl32 (byte_val b0) 16) 12) (six (shl32 (byte_val b1) 8) 12))
  = rfc4648_char [bit b0 1; bit b0 0; bit b1 7; bit b1 6; bit b1 5; bit b1 4].
Proof. by_bytes2. Qed.

Lemma sextet_c : forall b1 b2,
  char_at base64Chars
    (Z.lor (six (shl32 (byte_val b1) 8) 6) (six (byte_val b2) 6))
  = rfc4648_char [bit b1 3; bit b1 2; bit b1 1; bit b1 0; bit b2 7; bit b2 6].
Proof. by_bytes2. Qed.

Lemma sextet_d : forall b2,
  char_at base64Chars (six (byte_val b2) 0)
  = rfc4648_char [bit b2 5; bit b2 4; bit b2 3; bit b2 2; bit b2 1; bit b2 0].
Proof. by_bytes1. Qed.

Lemma sextet_b_last : forall b0,
  char_at base64Chars (six (shl32 (byte_val b0) 16) 12)
  = rfc4648_char [bit b0 1; bit b0 0; false; false; false; false].
Proof. by_bytes1. Qed.

Lemma sextet_c_last : forall b1,
  char_at base64Chars (six (shl32 (byte_val b1) 8) 6)
  = rfc4648_char [bit b1 3; bit b1 2; bit b1 1; bit b1 0; false; false].
Proof. by_bytes1. Qed.

Lemma rfc4648_encode_unfold (data : list byte) :
  rfc4648_encode data
  = string_of_list_ascii
      (rfc_sextet_chars data
       ++ replicate (rfc_pad (length (rfc_sextet_chars data))) "="%char).
Proof. reflexivity. Qed.

Lemma sextets_fuel (f1 : nat) :
  forall (f2 : nat) (bs : list bool),
    (length bs <= 6 * f1)%nat -> (length bs <= 6 * f2)%nat ->
    sextets f1 bs = sextets f2 bs.
Proof.
  induction f1 as [|f1 IH]; intros f2 bs H1 H2.
  - destruct bs; [now destruct f2 | simpl in H1; lia].
  - destruct bs as [|b bs]; [now destruct f2|].
    destruct f2 as [|f2]; [simpl in H2; lia|].
    cbn [sextets]. f_equal.
    apply IH; rewrite length_drop; lia.
Qed.

Lemma rfc_pad_add4 (n : nat) : rfc_pad (4 + n) = rfc_pad n.
Proof.
  unfold rfc_pad. replace (4 + n)%nat with (n + 1 * 4)%nat by lia.
  now rewrite Nat.Div0.mod_add.
Qed.

Lemma rfc_sextet_chars_3 (b0 b1 b2 : byte) (rest : list byte) :
  rfc_sextet_chars (b0 :: b1 :: b2 :: rest)
  = [rfc4648_char [bit b0 7; bit b0 6; bit b0 5; bit b0 4; bit b0 3; bit b0 2];
     rfc4648_char [bit b0 1; bit b0 0; bit b1 7; bit b1 6; bit b1 5; bit b1 4];
     rfc4648_char [bit b1 3; bit b1 2; bit b1 1; bit b1 0; bit b2 7; bit b2 6];
     rfc4648_char [bit b2 5; bit b2 4; bit b2 3; bit b2 2; bit b2 1; bit b2 0]]
    ++ rfc_sextet_chars rest.
Proof.
  unfold rfc_sextet_chars.
  set (tl := bit_stream rest).
  assert (Hbs : bit_stream (b0 :: b1 :: b2 :: rest)
                = octet_bits b0 ++ octet_bits b1 ++ octet_bits b2 ++ tl)
    by reflexivity.
  rewrite Hbs.
  rewrite (sextets_fuel _ (4 + length tl))
    by (rewrite ?length_app; cbn [octet_bits map length]; lia).
  reflexivity.
Qed.

Lemma list_ind3 {A : Type} (P : list A -> Prop) :
  P [] -> (forall a, P [a]) -> (forall a b, P [a; b]) ->
  (forall a b c l, P l -> P (a :: b :: c :: l)) ->
  forall l, P l.
Proof.
  intros H0 H1 H2 H3.
  fix IH 1. intros [|a [|b [|c l]]].
  - exact H0.
  - apply H1.
  - apply H2.
  - apply H3, IH.
Qed.

Ltac fold_six :=
  unfold sx;
  repeat match goal with
         | |- context [and32 (shr32 ?w ?m) 63] => fold (six w m)
         end.

(** Each character of a group, as the RFC character of six input bits. *)
Lemma groups_one (a : byte) :
  groups [a]
  = [rfc4648_char [bit a 7; bit a 6; bit a 5; bit a 4; bit a 3; bit a 2];
     rfc4648_char [bit a 1; bit a 0; false; false; false; false];
     "="%char; "="%char].
Proof.
  cbn [groups]. fold_six. now rewrite sextet_a, sextet_b_last.
Qed.

Lemma groups_two (a b : byte) :
  groups [a; b]
  = [rfc4648_char [bit a 7; bit a 6; bit a 5; bit a 4; bit a 3; bit a 2];
     rfc4648_char [bit a 1; bit a 0; bit b 7; bit b 6; bit b 5; bit b 4];
     rfc4648_char [bit b 3; bit b 2; bit b 1; bit b 0; false; false];
     "="%char].
Proof.
  cbn [groups]. fold_six.
  rewrite !six_or, six_hi8_18, six_hi16_6, Z.lor_0_r, Z.lor_0_l.
  now rewrite sextet_a, sextet_b, sextet_c_last.
Qed.

Lemma groups_three (a b c : byte) (l : list byte) :
  groups (a :: b :: c :: l)
  = [rfc4648_char [bit a 7; bit a 6; bit a 5; bit a 4; bit a 3; bit a 2];
     rfc4648_char [bit a 1; bit a 0; bit b 7; bit b 6; bit b 5; bit b 4];
     rfc4648_char [bit b 3; bit b 2; bit b 1; bit b 0; bit c 7; bit c 6];
     rfc4648_char [bit c 5; bit c 4; bit c 3; bit c 2; bit c 1; bit c 0]]
    ++ groups l.
Proof.
  cbn [groups]. fold_six. rewrite six_0, !six_or.
  rewrite six_hi8_18, six_lo_18, six_lo_12, six_hi16_6, six_hi16_0, six_hi8_0.
  rewrite !Z.lor_0_r, !Z.lor_0_l.
  now rewrite sextet_a, sextet_b, sextet_c, sextet_d.
Qed.

Lemma groups_rfc (data : list byte) :
  groups data
  = rfc_sextet_chars data
    ++ replicate (rfc_pad (length (rfc_sextet_chars data))) "="%char.
Proof.
  induction data as [|a|a b|a b c l IH] using list_ind3.
  - reflexivity.
  - now rewrite groups_one.
  - now rewrite groups_two.
  - rewrite groups_three, rfc_sextet_chars_3, IH.
    rewrite length_app. cbn [length]. rewrite rfc_pad_add4.
    now rewrite <- app_assoc.
Qed.

Lemma base64Encode_groups (data : list byte) :
  base64Encode data = string_of_list_ascii (groups data).
Proof.
  unfold base64Encode. rewrite base64_loop_groups by lia.
  now rewrite drop_0.
Qed.


(** The length of the encoding. *)
Lemma length_string_of_list_ascii (l : list ascii) :
  String.length (string_of_list_ascii l) = length l.
Proof. induction l as [|c l IH]; [reflexivity | cbn; now rewrite IH]. Qed.

Lemma length_groups (data : list byte) :
  length (groups data) = (4 * ((length data + 2) / 3))%nat.
Proof.
  induction data as [|a|a b|a b c l IH] using list_ind3; try reflexivity.
  cbn [groups length app]. rewrite IH.
  replace (S (S (S (length l))) + 2)%nat with ((length l + 2) + 1 * 3)%nat by lia.
  rewrite Nat.div_add by lia. lia.
Qed.

Lemma length_base64Encode (data : list byte) :
  String.length (base64Encode data) = (4 * ((length data + 2) / 3))%nat.
Proof.
  rewrite base64Encode_groups, length_string_of_list_ascii.
  apply length_groups.
Qed.

(** Decoding what [base64Encode] produced. *)
Lemma alphabet_index_char (b1 b2 b3 b4 b5 b6 : bool) :
  alphabet_index (rfc4648_char [b1; b2; b3; b4; b5; b6]) rfc4648_alphabet 0
  = Some (bits_value [b1; b2; b3; b4; b5; b6]).
Proof. destruct b1, b2, b3, b4, b5, b6; reflexivity. Qed.

Lemma sextet_bits_value (b1 b2 b3 b4 b5 b6 : bool) :
  sextet_bits (bits_value [b1; b2; b3; b4; b5; b6]) = [b1; b2; b3; b4; b5; b6].
Proof. destruct b1, b2, b3, b4, b5, b6; reflexivity. Qed.

Lemma char_is_not_padding (b1 b2 b3 b4 b5 b6 : bool) :
  Ascii.eqb (rfc4648_char [b1; b2; b3; b4; b5; b6]) "=" = false.
Proof. destruct b1, b2, b3, b4, b5, b6; reflexivity. Qed.

Lemma octet_of_octet_bits : forall b,
  octet_of_bits [bit b 7; bit b 6; bit b 5; bit b 4;
                 bit b 3; bit b 2; bit b 1; bit b 0] = b.
Proof.
  intros b. apply Byte.byte_dec_bl. revert b.
  apply forall_bytes. vm_compute. reflexivity.
Qed.

Lemma strip_padding_cons (c : ascii) (l : list ascii) :
  Ascii.eqb c "=" = false -> strip_padding (c :: l) = c :: strip_padding l.
Proof.
  intros H. cbn [strip_padding]. rewrite H. now destruct (strip_padding l).
Qed.

Lemma octets_fuel (f1 : nat) :
  forall (f2 : nat) (bs : list bool),
    (length bs <= 8 * f1)%nat -> (length bs <= 8 * f2)%nat ->
    octets f1 bs = octets f2 bs.
Proof.
  induction f1 as [|f1 IH]; intros f2 bs H1 H2.
  - destruct bs; [|simpl in H1; lia]. now destruct f2.
  - destruct f2 as [|f2].
    + destruct bs; [reflexivity | simpl in H2; lia].
    + cbn [octets]. destruct (8 <=? length bs)%nat; [|reflexivity].
      f_equal. apply IH; rewrite length_drop; lia.
Qed.

Ltac decode_four :=
  rewrite ?strip_padding_cons by apply char_is_not_padding;
  cbn [decode_chars]; rewrite ?alphabet_index_char.

Lemma decode_list_groups (data : list byte) :
  decode_list (groups data) = Some data.
Proof.
  unfold decode_list.
  induction data as [|a|a b|a b c l IH] using list_ind3.
  - reflexivity.
  - rewrite groups_one. decode_four.
    cbn [strip_padding Ascii.eqb Bool.eqb andb decode_chars flat_map app].
    rewrite !sextet_bits_value. cbn [app length octets Nat.leb take drop].
    now rewrite octet_of_octet_bits.
  - rewrite groups_two. decode_four.
    cbn [strip_padding Ascii.eqb Bool.eqb andb decode_chars flat_map app].
    rewrite !sextet_bits_value. cbn [app length octets Nat.leb take drop].
    now rewrite !octet_of_octet_bits.
  - rewrite groups_three. cbn [app]. decode_four.
    destruct (decode_chars (strip_padding (groups l))) as [ns|]; [|discriminate IH].
    injection IH as IH.
    cbn [flat_map]. rewrite !sextet_bits_value. cbn [app].
    set (tl := flat_map sextet_bits ns) in *.
    rewrite (octets_fuel _ (3 + length tl)) by (cbn [length]; lia).
    cbn [Nat.add octets length Nat.leb take drop].
    rewrite !octet_of_octet_bits, drop_0. now rewrite IH.
Qed.

Lemma strip_padding_groups (data : list byte) :
  (length (groups data) - length (strip_padding (groups data)) <= 2)%nat.
Proof.
  induction data as [|a|a b|a b c l IH] using list_ind3.
  - cbn. lia.
  - rewrite groups_one.
    rewrite !strip_padding_cons by apply char_is_not_padding. cbn. lia.
  - rewrite groups_two.
    rewrite !strip_padding_cons by apply char_is_not_padding. cbn. lia.
  - rewrite groups_three. cbn [app].
    rewrite !strip_padding_cons by apply char_is_not_padding.
    cbn [length]. lia.
Qed.

(** A decoder for RFC 4648 recovers the bytes that [base64Encode] was given;
    in particular the 32 bytes of a room key. *)
Lemma rfc4648_decode_base64Encode (data : list byte) :
  rfc4648_decode (base64Encode data) = Some data.
Proof.
  rewrite base64Encode_groups. unfold rfc4648_decode.
  rewrite list_ascii_of_string_of_list_ascii.
  rewrite length_groups.
  replace (4 * ((length data + 2) / 3))%nat
    with (((length data + 2) / 3) * 4)%nat by lia.
  rewrite Nat.Div0.mod_mul. cbn [Nat.eqb negb].
  rewrite <- (Nat.mul_comm 4), <- length_groups.
  pose proof (strip_padding_groups data) as Hpad.
  destruct (Nat.ltb_spec 2 (length (groups data)
                            - length (strip_padding (groups data)))) as [H|_];
    [lia|].
  apply decode_list_groups.
Qed.

(** C10. For every byte slice, [base64Encode] returns exactly the RFC 4648
    base64 encoding, '=' padding included; hence an RFC 4648 decoder recovers
    the bytes it was given, in particular the 32 bytes of a room key. *)
Theorem base64Encode_is_rfc4648 (data : list byte) :
  base64Encode data = rfc4648_encode data
  /\ rfc4648_decode (base64Encode data) = Some data.
Proof.
  split.
  - rewrite base64Encode_groups, rfc4648_encode_unfold.
    f_equal. apply groups_rfc.
  - apply rfc4648_decode_base64Encode.
Qed.

(** *** Reasoning about executions: weakest preconditions *)

Lemma wp_ret {A : Type} (a : A) (Q : A -> World -> Prop) (w : World) :
  Q a w -> wp (ret a) Q w.
Proof. exact (fun H => H). Qed.

Lemma wp_bind {A B : Type} (m : M A) (k : A -> M B) (Q : B -> World -> Prop)
    (w : World) :
  wp m (fun a w' => wp (k a) Q w') w -> wp (bind m k) Q w.
Proof. unfold wp, bind. now destruct (m w). Qed.

Lemma wp_mono {A : Type} (m : M A) (Q Q' : A -> World -> Prop) (w : World) :
  wp m Q w -> (forall a w', Q a w' -> Q' a w') -> wp m Q' w.
Proof. unfold wp. auto. Qed.

Lemma wp_run {A : Type} (m : M A) (Q : A -> World -> Prop) (w : World) :
  wp m Q w -> Q (fst (m w)) (snd (m w)).
Proof. exact (fun H => H). Qed.

Lemma wp_doRequest {A : Type} (env : Env) (op : StoreOp)
    (sem : Store -> string + Store * A) (Q : string + A -> World -> Prop)
    (w : World) :
  (forall e, net_fails env (tick w) = true ->
   Q (inl e) (after_call (StoreCall op false) w)) ->
  (forall e, net_fails env (tick w) = false -> sem (store w) = inl e ->
   Q (inl e) (after_call (StoreCall op false) w)) ->
  (forall st a, net_fails env (tick w) = false -> sem (store w) = inr (st, a) ->
   Q (inr a) (after_call (StoreCall op true) (set_store st w))) ->
  (forall e st a, net_fails env (tick w) = true ->
   reply_lost env (tick w) = true -> sem (store w) = inr (st, a) ->
   Q (inl e) (after_call (StoreCall op false) (set_store st w))) ->
  wp (doRequest env op sem) Q w.
Proof.
  intros Hfail Herr Hok Hlost. unfold wp, doRequest, after_call.
  destruct (net_fails env (tick w)).
  - destruct (reply_lost env (tick w)); [|now apply Hfail].
    destruct (sem (store w)) as [e|[st a]];
      [now apply Hfail | now apply (Hlost _ st a)].
  - destruct (sem (store w)) as [e|[st a]]; [now apply Herr | now apply Hok].
Qed.

Lemma wp_BroadcastParticipantEvent (env : Env) (roomID action : string)
    (p : Participant) (Q : error -> World -> Prop) (w : World) :
  (forall ok err,
     Q err (after_call (BroadcastParticipant roomID action p ok) w)) ->
  wp (BroadcastParticipantEvent env roomID action p) Q w.
Proof.
  intros H. unfold wp, BroadcastParticipantEvent.
  destruct (realtime_fails env (tick w)); apply H.
Qed.

Lemma wp_time_Now (env : Env) (Q : Time -> World -> Prop) (w : World) :
  Q (now_at env (tick w)) (step w) -> wp (time_Now env) Q w.
Proof. exact (fun H => H). Qed.

Lemma wp_uuid_New (env : Env) (Q : string -> World -> Prop) (w : World) :
  Q (uuid_at env (tick w)) (step w) -> wp (uuid_New env) Q w.
Proof. exact (fun H => H). Qed.

Lemma wp_rand_Read (env : Env) (n : nat) (Q : string + list byte -> World -> Prop)
    (w : World) :
  (forall e, Q (inl e) (step w)) ->
  (forall bytes, length bytes = n -> Q (inr bytes) (step w)) ->
  wp (rand_Read env n) Q w.
Proof.
  intros He Hb. unfold wp, rand_Read.
  destruct (rand_at env (tick w)); [|apply He].
  apply Hb. now rewrite length_map, length_seq.
Qed.

(** Specifications of the client calls. *)
Lemma wp_Client_GetParticipant (env : Env) (id : string)
    (Q : string + Participant -> World -> Prop) (w : World) :
  (forall e, net_fails env (tick w) = true ->
     Q (inl e) (after_call (StoreCall (OpGetParticipant id) false) w)) ->
  (forall e, net_fails env (tick w) = false ->
     List.filter (participant_has_id id) (participants (store w)) = [] ->
     Q (inl e) (after_call (StoreCall (OpGetParticipant id) true) w)) ->
  (forall p ps, net_fails env (tick w) = false ->
     List.filter (participant_has_id id) (participants (store w)) = p :: ps ->
     Q (inr p) (after_call (StoreCall (OpGetParticipant id) true) w)) ->
  wp (Client_GetParticipant env id) Q w.
Proof.
  intros Hfail Hnone Hsome. unfold Client_GetParticipant.
  apply wp_bind, wp_doRequest.
  - intros e Hf. apply wp_ret. now apply Hfail.
  - intros e _ He. discriminate He.
  - intros st a Hf Hsem. injection Hsem as <- <-.
    replace (set_store (store w) w) with w by now destruct w.
    destruct (List.filter _ _) as [|p ps] eqn:E; apply wp_ret.
    + now apply Hnone.
    + now apply (Hsome p ps).
  - intros e st a Hf _ Hsem. injection Hsem as <- <-.
    replace (set_store (store w) w) with w by now destruct w.
    apply wp_ret. now apply Hfail.
Qed.

Lemma wp_Client_RemoveParticipant (env : Env) (id : string)
    (Q : error -> World -> Prop) (w : World) :
  (forall e, net_fails env (tick w) = true ->
     Q (Some e) (after_call (StoreCall (OpRemoveParticipant id) false) w)) ->
  (net_fails env (tick w) = false ->
   Q None (after_call (StoreCall (OpRemoveParticipant id) true)
             (set_store
                (mkStore (rooms (store w))
                   (List.filter (fun p => negb (participant_has_id id p))
                                (participants (store w)))) w))) ->
  (forall e, net_fails env (tick w) = true -> reply_lost env (tick w) = true ->
     Q (Some e) (after_call (StoreCall (OpRemoveParticipant id) false)
                   (set_store
                      (mkStore (rooms (store w))
                         (List.filter (fun p => negb (participant_has_id id p))
                                      (participants (store w)))) w))) ->
  wp (Client_RemoveParticipant env id) Q w.
Proof.
  intros Hfail Hok Hlost. unfold Client_RemoveParticipant.
  apply wp_bind, wp_doRequest.
  - intros e Hf. apply wp_ret. now apply Hfail.
  - intros e _ He. discriminate He.
  - intros st a Hf Hsem. injection Hsem as <- <-. apply wp_ret. now apply Hok.
  - intros e st a Hf Hl Hsem. injection Hsem as <- <-. apply wp_ret.
    now apply Hlost.
Qed.

Lemma wp_Client_CountParticipants (env : Env) (roomID : string)
    (Q : string + nat -> World -> Prop) (w : World) :
  (forall e, net_fails env (tick w) = true ->
     Q (inl e) (after_call (StoreCall (OpGetParticipants roomID) false) w)) ->
  (net_fails env (tick w) = false ->
   Q (inr (length (List.filter (participant_in_room roomID)
                               (participants (store w)))))
     (after_call (StoreCall (OpGetParticipants roomID) true) w)) ->
  wp (Client_CountParticipants env roomID) Q w.
Proof.
  intros Hfail Hok. unfold Client_CountParticipants, Client_GetParticipants.
  apply wp_bind, wp_doRequest.
  - intros e Hf. apply wp_ret. now apply Hfail.
  - intros e _ He. discriminate He.
  - intros st a Hf Hsem. injection Hsem as <- <-.
    replace (set_store (store w) w) with w by now destruct w.
    apply wp_ret. now apply Hok.
  - intros e st a Hf _ Hsem. injection Hsem as <- <-.
    replace (set_store (store w) w) with w by now destruct w.
    apply wp_ret. now apply Hfail.
Qed.

Lemma wp_Client_DeleteRoom (env : Env) (id : string)
    (Q : error -> World -> Prop) (w : World) :
  (forall e, net_fails env (tick w) = true ->
     Q (Some e) (after_call (StoreCall (OpDeleteRoom id) false) w)) ->
  (net_fails env (tick w) = false ->
   Q None (after_call (StoreCall (OpDeleteRoom id) true)
             (set_store (store_without_room id (store w)) w))) ->
  (forall e, net_fails env (tick w) = true -> reply_lost env (tick w) = true ->
     Q (Some e) (after_call (StoreCall (OpDeleteRoom id) false)
                   (set_store (store_without_room id (store w)) w))) ->
  wp (Client_DeleteRoom env id) Q w.
Proof.
  intros Hfail Hok Hlost. unfold Client_DeleteRoom.
  apply wp_bind, wp_doRequest.
  - intros e Hf. apply wp_ret. now apply Hfail.
  - intros e _ He. unfold sem_DeleteRoom in He.
    destruct (List.filter (room_has_id id) (rooms (store w))); discriminate He.
  - intros st a Hf Hsem. apply wp_ret.
    specialize (Hok Hf). unfold store_without_room in Hok.
    rewrite Hsem in Hok. exact Hok.
  - intros e st a Hf Hl Hsem. apply wp_ret.
    specialize (Hlost e Hf Hl). unfold store_without_room in Hlost.
    rewrite Hsem in Hlost. exact Hlost.
Qed.

(** The same, telling a request that did not reach the store from one whose
    reply was lost. *)
Lemma wp_Client_RemoveParticipant_cases (env : Env) (id : string)
    (Q : error -> World -> Prop) (w : World) :
  (forall e, net_fails env (tick w) = true -> reply_lost env (tick w) = false ->
     Q (Some e) (after_call (StoreCall (OpRemoveParticipant id) false) w)) ->
  (net_fails env (tick w) = false ->
   Q None (after_call (StoreCall (OpRemoveParticipant id) true)
             (set_store
                (mkStore (rooms (store w))
                   (List.filter (fun p => negb (participant_has_id id p))
                                (participants (store w)))) w))) ->
  (forall e, net_fails env (tick w) = true -> reply_lost env (tick w) = true ->
     Q (Some e) (after_call (StoreCall (OpRemoveParticipant id) false)
                   (set_store
                      (mkStore (rooms (store w))
                         (List.filter (fun p => negb (participant_has_id id p))
                                      (participants (store w)))) w))) ->
  wp (Client_RemoveParticipant env id) Q w.
Proof.
  intros Hfail Hok Hlost.
  unfold wp, Client_RemoveParticipant, bind, doRequest, sem_RemoveParticipant,
    after_call in *.
  destruct (net_fails env (tick w)); [destruct (reply_lost env (tick w))|]; cbn.
  - now apply Hlost.
  - now apply Hfail.
  - now apply Hok.
Qed.

(** *** Empty rooms are deleted *)

Lemma existsb_filter_neg {A : Type} (f : A -> bool) (l : list A) :
  existsb f (List.filter (fun x => negb (f x)) l) = false.
Proof.
  induction l as [|x l IH]; [reflexivity|].
  simpl. destruct (f x) eqn:E; simpl; [exact IH|]. now rewrite E.
Qed.

Lemma room_gone_after_delete (id : string) (st : Store) :
  room_exists id (store_without_room id st) = false.
Proof.
  unfold room_exists, store_without_room, sem_DeleteRoom.
  destruct (List.filter (room_has_id id) (rooms st));
    apply existsb_filter_neg.
Qed.

Lemma filter_filter_other {A : Type} (f g : A -> bool) (l : list A) :
  (forall x, f x = true -> g x = true) ->
  List.filter f (List.filter g l) = List.filter f l.
Proof.
  intros H. induction l as [|x l IH]; [reflexivity|].
  simpl. destruct (g x) eqn:Eg; simpl.
  - destruct (f x); now rewrite IH.
  - destruct (f x) eqn:Ef; [|exact IH].
    apply H in Ef. congruence.
Qed.

Lemma existsb_filter_other {A : Type} (f g : A -> bool) (l : list A) :
  (forall x, f x = true -> g x = true) ->
  existsb f (List.filter g l) = existsb f l.
Proof.
  intros H. induction l as [|x l IH]; [reflexivity|].
  simpl. destruct (g x) eqn:Eg; simpl.
  - now rewrite IH.
  - destruct (f x) eqn:Ef; [|exact IH].
    apply H in Ef. congruence.
Qed.

Lemma other_room (x y : string) (r : Room) :
  x <> y -> room_has_id y r = true -> negb (room_has_id x r) = true.
Proof.
  unfold room_has_id. intros Hne Hy. apply String.eqb_eq in Hy.
  destruct (String.eqb_spec (Room_ID r) x); [congruence | reflexivity].
Qed.

Lemma other_room_participant (x y : string) (p : Participant) :
  x <> y -> participant_in_room y p = true ->
  negb (participant_in_room x p) = true.
Proof.
  unfold participant_in_room. intros Hne Hy. apply String.eqb_eq in Hy.
  destruct (String.eqb_spec (Participant_RoomID p) x); [congruence | reflexivity].
Qed.

(** Deleting any room keeps every room settled, and settles the deleted
    one. *)
Lemma settled_after_delete (x y : string) (st : Store) :
  (x = y \/ settled y st) -> settled y (store_without_room x st).
Proof.
  intros H. destruct (String.eqb_spec x y) as [->|Hne].
  - intros _. apply room_gone_after_delete.
  - destruct H as [H|H]; [contradiction|].
    unfold settled, participantCount, room_exists in *.
    unfold store_without_room, sem_DeleteRoom.
    destruct (List.filter (room_has_id x) (rooms st)); cbn [rooms participants].
    + rewrite existsb_filter_other by (intros ?; apply other_room, Hne).
      exact H.
    + rewrite existsb_filter_other by (intros ?; apply other_room, Hne).
      rewrite filter_filter_other
        by (intros ?; apply other_room_participant, Hne).
      exact H.
Qed.

Lemma LeaveRoom_settles (env : Env) (roomID participantID : string) (w : World) :
  wp (LeaveRoom env roomID participantID)
     (fun err w' => err = None -> settled roomID (store w')) w.
Proof.
  unfold LeaveRoom.
  apply wp_bind.
  eapply wp_mono with (Q := fun _ _ => True).
  { apply wp_Client_GetParticipant; intros; exact I. }
  intros r w1 _.
  apply wp_bind, wp_Client_RemoveParticipant;
    [intros e _; apply wp_ret; discriminate | |
     intros e _ _; apply wp_ret; discriminate].
  intros _. apply wp_bind.
  eapply wp_mono with (Q := fun _ _ => True).
  { destruct r; [apply wp_ret; exact I|].
    apply wp_BroadcastParticipantEvent. intros; exact I. }
  intros ? w2 _.
  apply wp_bind, wp_Client_CountParticipants.
  { intros e _. apply wp_ret. discriminate. }
  intros _.
  destruct (Nat.eqb_spec (length (List.filter (participant_in_room roomID)
                                    (participants (store w2)))) 0) as [H0|Hn].
  - apply wp_bind, wp_Client_DeleteRoom;
      [intros e _; apply wp_ret; discriminate | |
       intros e _ _; apply wp_ret; discriminate].
    intros _. apply wp_ret. intros _.
    cbn. apply settled_after_delete. now left.
  - apply wp_ret. intros _ Hc. cbn in Hc. unfold participantCount in Hc.
    contradiction.
Qed.

(** Loop rules. *)
Lemma wp_for_each {A : Type} (I : World -> Prop) (xs : list A)
    (body : A -> M unit) :
  (forall x w, In x xs -> I w -> wp (body x) (fun _ w' => I w') w) ->
  forall w, I w -> wp (for_each xs body) (fun _ w' => I w') w.
Proof.
  induction xs as [|x xs IH]; intros Hbody w HI.
  - now apply wp_ret.
  - cbn [for_each]. apply wp_bind.
    eapply wp_mono; [apply Hbody; [now left | exact HI]|].
    intros ? w' HI'. apply IH; [|exact HI'].
    intros y w0 Hy. apply Hbody. now right.
Qed.

Lemma wp_for_each_visit {A : Type} (S : A -> World -> Prop) (xs : list A)
    (body : A -> M unit) :
  (forall x y w, x = y \/ S y w -> wp (body x) (fun _ w' => S y w') w) ->
  forall w, wp (for_each xs body) (fun _ w' => forall x, In x xs -> S x w') w.
Proof.
  intros Hbody.
  assert (Hgen : forall ys w, (forall y, In y ys -> S y w) ->
            wp (for_each xs body)
               (fun _ w' => forall x, In x (ys ++ xs) -> S x w') w).
  { induction xs as [|x xs IH]; intros ys w Hys.
    - apply wp_ret. intros y Hy. rewrite app_nil_r in Hy. auto.
    - cbn [for_each]. apply wp_bind.
      eapply wp_mono with (Q := fun _ w' => forall y, In y (ys ++ [x]) -> S y w').
      + unfold wp. intros y Hy. apply in_app_or in Hy.
        destruct Hy as [Hy|[<-|[]]].
        * apply (Hbody x y w). right. auto.
        * apply (Hbody x x w). now left.
      + intros ? w' H'. eapply wp_mono; [apply (IH (ys ++ [x]) w' H')|].
        intros ? w'' H'' y Hy. apply H''.
        rewrite <- app_assoc. exact Hy. }
  intros w. apply (Hgen [] w). intros y [].
Qed.

Lemma wp_fold_each {A S : Type} (I : list A -> S -> World -> Prop)
    (body : S -> A -> M S) (xs : list A) :
  (forall done x s w, I done s w ->
     wp (body s x) (fun s' w' => I (done ++ [x]) s' w') w) ->
  forall done s w, I done s w ->
    wp (fold_each xs s body) (fun s' w' => I (done ++ xs) s' w') w.
Proof.
  intros Hbody. induction xs as [|x xs IH]; intros done s w HI.
  - apply wp_ret. now rewrite app_nil_r.
  - cbn [fold_each]. apply wp_bind.
    eapply wp_mono; [apply Hbody, HI|].
    intros s' w' HI'. eapply wp_mono; [apply (IH _ _ _ HI')|].
    intros s'' w'' H''. now rewrite <- app_assoc in H''.
Qed.

(** The recount-and-delete step of the sweep settles the room it visits and
    keeps the others settled, whatever the outcome of its requests. *)
Lemma recount_step_settles (env : Env) (x y : string) (w : World) :
  net_fails env (tick w) = false -> net_fails env (S (tick w)) = false ->
  x = y \/ settled y (store w) ->
  wp (let* c := Client_CountParticipants env x in
      match c with
      | inl _ => ret tt
      | inr count =>
          if (count =? 0)%nat then
            let* _ := Client_DeleteRoom env x in ret tt
          else ret tt
      end)
     (fun _ w' => settled y (store w')) w.
Proof.
  intros Hf1 Hf2 H. apply wp_bind, wp_Client_CountParticipants.
  { intros e Hf. congruence. }
  intros _.
  destruct (Nat.eqb_spec (length (List.filter (participant_in_room x)
                                    (participants (store w)))) 0) as [H0|Hn].
  - apply wp_bind, wp_Client_DeleteRoom;
      [intros e Hf; cbn in Hf; congruence | |
       intros e Hf _; cbn in Hf; congruence].
    intros _. apply wp_ret. cbn. now apply settled_after_delete.
  - apply wp_ret. cbn. destruct H as [<-|H]; [|exact H].
    intros Hc. unfold participantCount in Hc. contradiction.
Qed.

(** The inactive-room pass keeps every room settled, under any failures. *)
Lemma cleanupRooms_keeps_settled (env : Env) (threshold : Time) (y : string)
    (w : World) :
  settled y (store w) ->
  wp (cleanupRooms env threshold) (fun _ w' => settled y (store w')) w.
Proof.
  intros H. unfold cleanupRooms, Client_GetInactiveRooms.
  apply wp_bind, wp_doRequest.
  - intros e _. now apply wp_ret.
  - intros e _ He. discriminate He.
  - intros st rs _ Hsem. injection Hsem as <- <-.
    destruct (length _ =? 0)%nat; [now apply wp_ret|].
    apply (wp_for_each (fun w' => settled y (store w'))); [|exact H].
    intros r w' _ H'. apply wp_bind, wp_Client_DeleteRoom.
    + intros e _. now apply wp_ret.
    + intros _. apply wp_ret. cbn. apply settled_after_delete. now right.
    + intros e _ _. apply wp_ret. cbn. apply settled_after_delete. now right.
  - intros e st rs _ _ Hsem. injection Hsem as <- <-. now apply wp_ret.
Qed.

Lemma cleanupParticipants_settles (env : Env) (threshold : Time) (w : World) :
  Env_ok env -> (forall k, net_fails env k = false) ->
  wp (cleanupParticipants env threshold)
     (fun _ w' =>
        forall p, In p (List.filter (stale threshold) (participants (store w))) ->
                  settled (Participant_RoomID p) (store w')) w.
Proof.
  intros [Hrange _] Hnf. unfold cleanupParticipants, Client_GetInactiveParticipants.
  apply wp_bind, wp_doRequest;
    [intros e Hf; rewrite Hnf in Hf; discriminate Hf
    |intros e _ He; discriminate He
    |
    |intros e st ps Hf; rewrite Hnf in Hf; discriminate Hf].
  - intros st ps _ Hsem. injection Hsem as <- <-.
    fold (stale threshold).
    set (ps := List.filter (stale threshold) (participants (store w))).
    destruct (Nat.eqb_spec (length ps) 0) as [H0|_].
    { apply wp_ret. destruct ps; [intros p []|discriminate H0]. }
    apply wp_bind.
    eapply wp_mono.
    { apply (wp_fold_each
               (fun done (s : gset string) (_ : World) =>
                  forall p, In p done -> Participant_RoomID p ∈ s)
               _ ps) with (done := []).
      - intros done x s w0 Hdone.
        apply wp_bind, wp_Client_RemoveParticipant;
          [intros e Hf; rewrite Hnf in Hf; discriminate Hf | |
           intros e Hf; rewrite Hnf in Hf; discriminate Hf].
        + intros _. apply wp_bind, wp_BroadcastParticipantEvent.
          intros ok err. apply wp_ret.
          intros p Hp. apply in_app_or in Hp.
          destruct Hp as [Hp|[<-|[]]]; [|set_solver].
          apply Hdone in Hp. set_solver.
      - intros p []. }
    cbn beta. intros s w1 Hs.
    eapply wp_mono.
    { apply (wp_for_each_visit (fun R w' => settled R (store w'))).
      intros x y w0 Hxy. apply recount_step_settles; auto. }
    cbn beta. intros ? w2 Hall p Hp.
    apply Hall. apply list_elem_of_In. rewrite Hrange.
    apply elem_of_elements. apply Hs. exact Hp.
Qed.

Lemma quiet_env_ok : Env_ok quiet_env.
Proof. split; intros s; reflexivity. Qed.

(** C1, at the failing input. Ann is the only participant of room
    "a1b2c3d4". A leave that names another room, "ffffffff", with Ann's id
    returns without error (the handler answers 204) with every request to
    the store succeeding: Ann is deleted, her leave is broadcast to
    "ffffffff", and the recount and the DELETE are made for "ffffffff". Room
    "a1b2c3d4" has lost its last participant and is still in the store when
    the operation returns. *)
Theorem leave_naming_another_room_keeps_empty_room :
  let r := LeaveRoom quiet_env "ffffffff" "ann" world_ann in
  fst r = None
  /\ status (fst (Handler_LeaveRoom quiet_env "ffffffff" (Some "ann"%string)
                    world_ann)) = StatusNoContent
  /\ events (LeaveRoom quiet_env "ffffffff" "ann") world_ann
     = [StoreCall (OpGetParticipant "ann") true;
        StoreCall (OpRemoveParticipant "ann") true;
        BroadcastParticipant "ffffffff" "leave" ann true;
        StoreCall (OpGetParticipants "ffffffff") true;
        StoreCall (OpDeleteRoom "ffffffff") true]
  /\ participant_exists "ann" (store (snd r)) = false
  /\ participantCount "a1b2c3d4" (store (snd r)) = O
  /\ room_exists "a1b2c3d4" (store (snd r)) = true.
Proof. vm_compute. repeat split; reflexivity. Qed.

(** *** Persist, then broadcast (C2) *)





Lemma events_intro {A : Type} (m : M A) (w : World) (evs : list Event) :
  trace (snd (m w)) = trace w ++ evs -> events m w = evs.
Proof. intros H. unfold events. rewrite H. apply drop_app_length. Qed.

Lemma appended_events {A : Type} (m : M A) (P : list Event -> Prop) (w : World) :
  appended w P (snd (m w)) -> P (events m w).
Proof.
  intros [evs [Htr HP]]. now rewrite (events_intro m w evs Htr).
Qed.

Lemma appended_seq (w0 w1 w2 : World) (P Q R : list Event -> Prop) :
  appended w0 P w1 -> appended w1 Q w2 ->
  (forall e1 e2, P e1 -> Q e2 -> R (e1 ++ e2)) ->
  appended w0 R w2.
Proof.
  intros [e1 [H1 HP]] [e2 [H2 HQ]] HR.
  exists (e1 ++ e2). split; [|now apply HR].
  now rewrite H2, H1, app_assoc.
Qed.

(** Symbolic execution of straight-line service code. *)
Ltac wp_client_unfold :=
  unfold Client_GetParticipants,
    Client_AddParticipant, Client_CreateRoom, Client_GetRoom,
    Client_UpdateRoomActivity, Client_UpdateParticipantActivity,
    Client_GetInactiveParticipants, Client_GetInactiveRooms,
    generateRoomID, generateEncryptionKey.

Ltac wp_step :=
  first
    [ progress cbn [as_error]
    | lazymatch goal with
      | |- wp (ret _) _ _ => apply wp_ret
      | |- wp (bind _ _) _ _ => apply wp_bind
      | |- wp (doRequest _ _ _) _ _ => apply wp_doRequest; intros
      | |- wp (Client_GetParticipant _ _) _ _ =>
          apply wp_Client_GetParticipant; intros
      | |- wp (Client_RemoveParticipant _ _) _ _ =>
          apply wp_Client_RemoveParticipant; intros
      | |- wp (Client_CountParticipants _ _) _ _ =>
          apply wp_Client_CountParticipants; intros
      | |- wp (Client_DeleteRoom _ _) _ _ =>
          apply wp_Client_DeleteRoom; intros
      | |- wp (BroadcastParticipantEvent _ _ _ _) _ _ =>
          apply wp_BroadcastParticipantEvent; intros
      | |- wp (time_Now _) _ _ => apply wp_time_Now
      | |- wp (uuid_New _) _ _ => apply wp_uuid_New
      | |- wp (rand_Read _ _) _ _ => apply wp_rand_Read; intros
      | |- wp (match ?x with _ => _ end) _ _ =>
          first [ is_var x; destruct x
                | let E := fresh "E" in destruct x eqn:E ]
      | |- wp (if ?x then _ else _) _ _ =>
          let E := fresh "E" in destruct x eqn:E
      end ].

Ltac wp_exec := wp_client_unfold; repeat wp_step.

(** Close a goal [appended w P w'] whose world is the result of a symbolic
    execution. *)
Ltac appended_explicit :=
  unfold appended, after_call;
  cbn [trace step emit set_store set_messages];
  rewrite <- ?app_assoc; cbn [app];
  eexists; split; [first [reflexivity | symmetry; apply app_nil_r]|].

Lemma filter_head {A : Type} (f : A -> bool) (l : list A) (x : A) (xs : list A) :
  List.filter f l = x :: xs -> f x = true.
Proof.
  intros H. assert (Hin : In x (List.filter f l)) by (rewrite H; now left).
  apply filter_In in Hin. apply Hin.
Qed.




Lemma segmental_Forall (F : Event -> Prop) : segmental (Forall F).
Proof.
  split; [constructor | intros e1 e2 H1 H2].
  apply Forall_app. now split.
Qed.

Lemma wp_events {A : Type} (m : M A) (P : list Event -> Prop) (w : World) :
  wp m (fun _ w' => appended w P w') w -> P (events m w).
Proof. intros H. apply appended_events. exact H. Qed.

Lemma appended_refl (P : list Event -> Prop) (w : World) :
  P [] -> appended w P w.
Proof. intros H. exists []. split; [now rewrite app_nil_r | exact H]. Qed.

Lemma wp_bind_appended {A B : Type} (P : list Event -> Prop) (m : M A)
    (k : A -> M B) (w : World) :
  segmental P ->
  wp m (fun _ w1 => appended w P w1) w ->
  (forall a w1, wp (k a) (fun _ w2 => appended w1 P w2) w1) ->
  wp (bind m k) (fun _ w2 => appended w P w2) w.
Proof.
  intros [_ Happ] Hm Hk. apply wp_bind.
  eapply wp_mono; [exact Hm|]. cbn beta. intros a w1 H1.
  eapply wp_mono; [apply Hk|]. cbn beta. intros b w2 H2.
  eapply appended_seq; eauto.
Qed.

Lemma wp_for_each_appended {A : Type} (P : list Event -> Prop) (xs : list A)
    (body : A -> M unit) :
  segmental P ->
  (forall x w, wp (body x) (fun _ w' => appended w P w') w) ->
  forall w, wp (for_each xs body) (fun _ w' => appended w P w') w.
Proof.
  intros HP Hbody. induction xs as [|x xs IH]; intros w.
  - apply wp_ret, appended_refl, HP.
  - cbn [for_each]. apply wp_bind_appended; auto.
Qed.

Lemma wp_fold_each_appended {A S : Type} (P : list Event -> Prop) (xs : list A)
    (body : S -> A -> M S) :
  segmental P ->
  (forall s x w, wp (body s x) (fun _ w' => appended w P w') w) ->
  forall s w, wp (fold_each xs s body) (fun _ w' => appended w P w') w.
Proof.
  intros HP Hbody. induction xs as [|x xs IH]; intros s w.
  - apply wp_ret, appended_refl, HP.
  - cbn [fold_each]. apply wp_bind_appended; auto.
Qed.









(** *** The message log (C7) *)

Lemma filter_after_acc (afterTime : Time) (roomMessages : list Message) :
  forall acc,
    fold_left
      (fun filtered msg =>
         if After (Message_Timestamp msg) afterTime then filtered ++ [msg]
         else filtered)
      roomMessages acc
    = acc ++ List.filter (fun m => afterTime <? Message_Timestamp m) roomMessages.
Proof.
  induction roomMessages as [|m ms IH]; intros acc; cbn [fold_left List.filter].
  - now rewrite app_nil_r.
  - rewrite IH. unfold After.
    destruct (afterTime <? Message_Timestamp m); [|reflexivity].
    now rewrite <- app_assoc.
Qed.

(** C7. [GetMessages(roomId, t)] returns exactly the stored messages of the
    room whose timestamp is strictly after [t], in append order, and the
    whole buffer of the room, in append order, when [t] is the zero value. *)
Theorem GetMessages_since (msgs : gmap string (list Message)) (roomID : string)
    (t : Time) :
  GetMessages msgs roomID t = since msgs roomID t.
Proof.
  unfold GetMessages, since.
  destruct (msgs !! roomID) as [roomMessages|]; cbn [default].
  - destruct (IsZero t); [reflexivity|].
    unfold filter_after. now rewrite filter_after_acc.
  - now destruct (IsZero t).
Qed.

(** Append order: [SendMessage] puts the new message last in the buffer of
    its room and leaves the other rooms alone. *)
Lemma SendMessage_appends (env : Env) (roomID : string)
    (req : SendMessageRequest) (w : World) :
  let r := SendMessage env roomID req w in
  default [] (messages (snd r) !! roomID)
  = default [] (messages w !! roomID) ++ [fst r]
  /\ forall other, other <> roomID ->
       messages (snd r) !! other = messages w !! other.
Proof.
  cbn. split.
  - now rewrite lookup_insert_eq.
  - intros other Hne. now rewrite lookup_insert_ne.
Qed.

Example since_scenario :
  let m1 := mkMessage "m1" "r" "ann" "c1" "Ann" "fox" 10 None in
  let m2 := mkMessage "m2" "r" "ben" "c2" "Ben" "owl" 20 None in
  let msgs : gmap string (list Message) := {["r"%string := [m1; m2]]} in
  GetMessages msgs "r" 10 = [m2]
  /\ GetMessages msgs "r" 0 = [m1; m2]
  /\ GetMessages msgs "r" 20 = []
  /\ GetMessages msgs "q" 0 = [].
Proof. vm_compute. repeat split. Qed.

(** *** Lobby events, start-up sweep, message buffers: the code at the
    inputs where it departs from its documentation *)

(** No path of the room service or of the cleanup service reaches
    [BroadcastRoomEvent]. *)
Lemma services_emit_no_room_event (env : Env) :
  (forall name w, Forall no_room_event (events (CreateRoom env name) w))
  /\ (forall roomID participantID w,
        Forall no_room_event (events (LeaveRoom env roomID participantID) w))
  /\ (forall s w, Forall no_room_event (events (cleanup env s) w)).
Proof.
  assert (HP := segmental_Forall no_room_event).
  split; [|split].
  - intros name w. apply wp_events.
    unfold CreateRoom. wp_exec.
    all: appended_explicit; repeat constructor.
  - intros roomID participantID w. apply wp_events.
    unfold LeaveRoom. wp_exec.
    all: appended_explicit; repeat constructor.
  - intros s w. apply wp_events.
    unfold cleanup.
    apply wp_bind_appended; [exact HP| |].
    { wp_exec. appended_explicit. constructor. }
    intros now w1. apply wp_bind_appended; [exact HP| |].
    + unfold cleanupParticipants.
      apply wp_bind_appended; [exact HP| |].
      { wp_exec; appended_explicit; repeat constructor. }
      intros [e|ps] w2; [apply wp_ret, appended_refl; constructor|].
      destruct (length ps =? 0)%nat; [apply wp_ret, appended_refl; constructor|].
      apply wp_bind_appended; [exact HP| |].
      * apply wp_fold_each_appended; [exact HP|].
        intros s0 p w3. wp_exec; appended_explicit; repeat constructor.
      * intros s0 w3. apply wp_for_each_appended; [exact HP|].
        intros roomID w4. wp_exec; appended_explicit; repeat constructor.
    + intros _ w2. unfold cleanupRooms.
      apply wp_bind_appended; [exact HP| |].
      { wp_exec; appended_explicit; repeat constructor. }
      intros [e|rs] w3; [apply wp_ret, appended_refl; constructor|].
      destruct (length rs =? 0)%nat; [apply wp_ret, appended_refl; constructor|].
      apply wp_for_each_appended; [exact HP|].
      intros room w4. wp_exec; appended_explicit; repeat constructor.
Qed.

(** C3, at the failing input. Ann, the only participant of room a1b2c3d4,
    leaves and every call succeeds: the room is deleted from the store, and
    the execution ends with the successful DELETE; no "room deleted" event
    follows. The sweep that expires Ann deletes the room after its recount
    and emits no room event either. *)
Theorem room_deleted_without_lobby_event :
  events (LeaveRoom quiet_env "a1b2c3d4" "ann") world_ann
  = [StoreCall (OpGetParticipant "ann") true;
     StoreCall (OpRemoveParticipant "ann") true;
     BroadcastParticipant "a1b2c3d4" "leave" ann true;
     StoreCall (OpGetParticipants "a1b2c3d4") true;
     StoreCall (OpDeleteRoom "a1b2c3d4") true]
  /\ rooms (store (snd (LeaveRoom quiet_env "a1b2c3d4" "ann" world_ann))) = []
  /\ events (cleanup quiet_env every_minute) world_ann
     = [StoreCall (OpGetInactiveParticipants 700000000000) true;
        StoreCall (OpRemoveParticipant "ann") true;
        BroadcastParticipant "a1b2c3d4" "leave" ann true;
        StoreCall (OpGetParticipants "a1b2c3d4") true;
        StoreCall (OpDeleteRoom "a1b2c3d4") true;
        StoreCall (OpGetInactiveRooms 700000000000) true]
  /\ rooms (store (snd (cleanup quiet_env every_minute world_ann))) = [].
Proof. vm_compute. repeat split. Qed.

(** C4, at the failing input. Creating room "Standup" on an empty store with
    every call succeeding returns a room with an 8-character id, the base64
    form of a 32-byte key and both timestamps equal to the clock reading,
    and persists it; the only effect of the execution is the INSERT: no
    "room created" event is emitted on the lobby channel. *)
Theorem room_created_without_lobby_event :
  let room := mkRoom "00010203" "Standup"
                "AAECAwQFBgcICQoLDA0ODxAREhMUFRYXGBkaGxwdHh8="
                1002000000000 1002000000000 in
  CreateRoom quiet_env "Standup" empty_world
  = (inr room,
     mkWorld (mkStore [room] []) ∅ ∅ true ∅ [StoreCall (OpCreateRoom room) true] 4)
  /\ existsb is_room_event (events (CreateRoom quiet_env "Standup") empty_world)
     = false.
Proof. vm_compute. split; reflexivity. Qed.

(** The parts of createRoom that the code does implement. *)
Lemma length_hex_EncodeToString (src : list byte) :
  String.length (hex_EncodeToString src) = (2 * length src)%nat.
Proof.
  unfold hex_EncodeToString. rewrite length_string_of_list_ascii.
  induction src as [|b src IH]; [reflexivity|].
  cbn [flat_map app length]. rewrite IH. lia.
Qed.

(** C5, at the failing input. [Start] serves the ticker and the stop
    channel only: until the first tick is received it has run no sweep, so
    a participant that is already stale when the process starts stays in the
    store; one sweep runs per tick received. *)
Theorem no_sweep_before_first_tick (env : Env) (s : CleanupService) (w : World) :
  Start env s [] w = (tt, w)
  /\ Start env s [StopChan] w = (tt, w)
  /\ snd (Start env s [TickerC] w) = snd (cleanup env s w)
  /\ participants (store (snd (Start quiet_env every_minute [] world_ann))) = [ann]
  /\ participants (store (snd (Start quiet_env every_minute [TickerC] world_ann))) = [].
Proof.
  repeat split.
  cbn [Start]. unfold bind, ret. now destruct (cleanup env s w).
Qed.

(** *** The message log is not cleared (C8) *)

Lemma wp_for_each_messages {A : Type} (xs : list A) (body : A -> M unit)
    (m0 : gmap string (list Message)) :
  (forall x w, messages w = m0 -> wp (body x) (fun _ w' => messages w' = m0) w) ->
  forall w, messages w = m0 ->
    wp (for_each xs body) (fun _ w' => messages w' = m0) w.
Proof.
  intros Hbody w Hw.
  apply (wp_for_each (fun w' => messages w' = m0)); [|exact Hw].
  intros x w' _. apply Hbody.
Qed.

(** [LeaveRoom] and the cleanup sweep never touch the message log. *)
Lemma destruction_paths_keep_messages (env : Env) :
  (forall roomID participantID w,
     messages (snd (LeaveRoom env roomID participantID w)) = messages w)
  /\ (forall s w, messages (snd (cleanup env s w)) = messages w).
Proof.
  split.
  - intros roomID participantID w.
    apply (wp_run (LeaveRoom env roomID participantID)
                  (fun _ w' => messages w' = messages w)).
    unfold LeaveRoom. wp_exec. all: reflexivity.
  - intros s w.
    apply (wp_run (cleanup env s) (fun _ w' => messages w' = messages w)).
    unfold cleanup. apply wp_bind, wp_time_Now. apply wp_bind.
    apply wp_mono with (Q := fun _ w' => messages w' = messages w).
    + unfold cleanupParticipants. apply wp_bind.
      apply wp_mono with (Q := fun _ w' => messages w' = messages w).
      { wp_exec; reflexivity. }
      intros [e|ps] w1 H1; [now apply wp_ret|].
      destruct (length ps =? 0)%nat; [now apply wp_ret|].
      apply wp_bind.
      apply wp_mono with (Q := fun _ w' => messages w' = messages w).
      * apply (wp_fold_each (fun _ _ w' => messages w' = messages w)
                 _ ps) with (done := []); [|exact H1].
        intros done p s0 w2 H2. wp_exec; exact H2.
      * intros s0 w2 H2. apply wp_for_each_messages; [|exact H2].
        intros roomID w3 H3. wp_exec; exact H3.
    + intros ? w1 H1. unfold cleanupRooms. apply wp_bind.
      apply wp_mono with (Q := fun _ w' => messages w' = messages w).
      { wp_exec; exact H1. }
      intros [e|rs] w2 H2; [now apply wp_ret|].
      destruct (length rs =? 0)%nat; [now apply wp_ret|].
      apply wp_for_each_messages; [|exact H2].
      intros room w3 H3. wp_exec; exact H3.
Qed.

(** [DeleteRoomMessages] itself does drop the buffer of the room. *)
Lemma DeleteRoomMessages_clears (roomID : string) (w : World) (t : Time) :
  GetMessages (messages (snd (DeleteRoomMessages roomID w))) roomID t = [].
Proof.
  cbn. unfold GetMessages. now rewrite lookup_delete_eq.
Qed.

(** C8, at the failing input. Room a1b2c3d4 holds Ann and one stored
    message. After Ann leaves, and likewise after the sweep that expires her,
    the room is gone from the Session Store and its message is still served
    by [GetMessages]. *)
Theorem destroyed_room_keeps_its_messages :
  let w1 := snd (LeaveRoom quiet_env "a1b2c3d4" "ann" world_ann) in
  let w2 := snd (cleanup quiet_env every_minute world_ann) in
  room_exists "a1b2c3d4" (store w1) = false
  /\ GetMessages (messages w1) "a1b2c3d4" 0 = [hello]
  /\ room_exists "a1b2c3d4" (store w2) = false
  /\ GetMessages (messages w2) "a1b2c3d4" 0 = [hello].
Proof. vm_compute. repeat split. Qed.

(** *** Leaving twice *)

Lemma filter_cons_exists {A : Type} (f : A -> bool) (l : list A) (x : A)
    (xs : list A) :
  List.filter f l = x :: xs -> existsb f l = true.
Proof.
  intros H. apply existsb_exists. exists x.
  assert (Hin : In x (List.filter f l)) by (rewrite H; now left).
  now apply filter_In in Hin.
Qed.

Lemma filter_nil_exists {A : Type} (f : A -> bool) (l : list A) :
  List.filter f l = [] -> existsb f l = false.
Proof.
  induction l as [|x l IH]; [reflexivity|].
  cbn. destruct (f x); [discriminate | exact IH].
Qed.

Lemma existsb_filter_false {A : Type} (f g : A -> bool) (l : list A) :
  existsb f l = false -> existsb f (List.filter g l) = false.
Proof.
  induction l as [|x l IH]; [reflexivity|].
  cbn. intros H. apply orb_false_elim in H. destruct H as [Hx Hl].
  destruct (g x); cbn; [rewrite Hx|]; auto.
Qed.

Lemma participant_gone_after_delete_room (id roomID : string) (st : Store) :
  participant_exists id st = false ->
  participant_exists id (store_without_room roomID st) = false.
Proof.
  unfold participant_exists, store_without_room, sem_DeleteRoom.
  intros H. destruct (List.filter (room_has_id roomID) (rooms st));
    cbn [participants]; [exact H | now apply existsb_filter_false].
Qed.

Ltac no_failure Hnf :=
  try match goal with
      | H : net_fails _ _ = true |- _ => rewrite Hnf in H; discriminate H
      end.

Lemma LeaveRoom_absent_quiet (env : Env) (roomID participantID : string)
    (w : World) :
  participant_exists participantID (store w) = false ->
  wp (LeaveRoom env roomID participantID)
     (fun _ w' => appended w (Forall no_presence_event) w') w.
Proof.
  intros Habs. unfold LeaveRoom. wp_exec.
  all: try match goal with
         | H : List.filter (participant_has_id _) _ = _ :: _ |- _ =>
             apply filter_cons_exists in H; unfold participant_exists in Habs;
             congruence
         end.
  all: appended_explicit; repeat constructor.
Qed.

Lemma LeaveRoom_no_error (env : Env) (roomID participantID : string) (w : World) :
  (forall k, net_fails env k = false) ->
  wp (LeaveRoom env roomID participantID) (fun err _ => err = None) w.
Proof.
  intros Hnf. unfold LeaveRoom. wp_exec.
  all: no_failure Hnf.
  all: reflexivity.
Qed.

Lemma LeaveRoom_removes (env : Env) (roomID participantID : string) (w : World) :
  wp (LeaveRoom env roomID participantID)
     (fun err w' =>
        err = None -> participant_exists participantID (store w') = false) w.
Proof.
  unfold LeaveRoom. wp_exec.
  all: intros Herr; try discriminate Herr.
  all: cbn [store after_call step emit set_store].
  all: try apply participant_gone_after_delete_room.
  all: apply existsb_filter_neg.
Qed.

(** One call emits at most one presence event, and exactly one when the
    participant is in the store and no request fails. *)
Lemma LeaveRoom_presence_count (env : Env) (roomID participantID : string)
    (w : World) :
  wp (LeaveRoom env roomID participantID)
     (fun _ w' =>
        appended w
          (fun evs =>
             (presence_count evs <= 1)%nat
             /\ ((forall k, net_fails env k = false) ->
                 participant_exists participantID (store w) = true ->
                 presence_count evs = 1%nat)) w') w.
Proof.
  unfold LeaveRoom. wp_exec.
  all: appended_explicit.
  all: cbn [presence_count List.filter is_presence_event length].
  all: split; [lia|intros Hnf Hex].
  all: no_failure Hnf.
  all: try reflexivity.
  all: match goal with
       | H : List.filter (participant_has_id _) _ = [] |- _ =>
           apply filter_nil_exists in H; unfold participant_exists in Hex;
           congruence
       end.
Qed.

(** *** Hub fan-out under backpressure (C9) *)

Lemma storeMessageIfApplicable_hub (env : Env) (roomID : string)
    (raw : list byte) (w : World) :
  hub_rooms (snd (storeMessageIfApplicable env roomID raw w)) = hub_rooms w
  /\ heap (snd (storeMessageIfApplicable env roomID raw w)) = heap w.
Proof.
  unfold storeMessageIfApplicable.
  destruct (negb (hub_messageService w)); [now split|].
  destruct (json_ws env raw) as [[type payload]|]; [|now split].
  destruct (negb (String.eqb type "message")); [now split|].
  destruct (json_payload env payload); now split.
Qed.

Section FanOut.
Variable msg : BroadcastMessage.
Variable slow : addr.

Lemma send_or_drop_sender (a : addr) (w : World) :
  Msg_Sender msg = Some a -> send_or_drop msg a w = (Returned, w).
Proof.
  intros H. unfold send_or_drop. now rewrite decide_True.
Qed.

Lemma send_or_drop_delivers (a : addr) (c : Client) (w : World) :
  Msg_Sender msg <> Some a -> heap w !! a = Some c ->
  chan_closed (Client_send c) = false -> queue_full c = false ->
  send_or_drop msg a w
  = (Returned, set_heap (<[a := delivered (Msg_Message msg) c]> (heap w)) w).
Proof.
  intros Hs Hc Hopen Hfull. unfold send_or_drop.
  rewrite decide_False by exact Hs. rewrite Hc, Hopen.
  unfold queue_full in Hfull. apply negb_false_iff in Hfull.
  now rewrite Hfull.
Qed.

Lemma send_or_drop_drops (a : addr) (c : Client) (R : gset addr) (w : World) :
  Msg_Sender msg <> Some a -> heap w !! a = Some c ->
  chan_closed (Client_send c) = false -> queue_full c = true ->
  hub_rooms w !! Msg_RoomID msg = Some R ->
  send_or_drop msg a w
  = (Returned,
     set_heap (<[a := closed_off c]> (heap w))
       (set_hub_rooms (<[Msg_RoomID msg := R ∖ {[a]}]> (hub_rooms w)) w)).
Proof.
  intros Hs Hc Hopen Hfull HR. unfold send_or_drop.
  rewrite decide_False by exact Hs. rewrite Hc, Hopen.
  unfold queue_full in Hfull. apply negb_true_iff in Hfull.
  rewrite Hfull, HR. unfold close_send.
  cbn [heap set_hub_rooms]. now rewrite Hc, Hopen.
Qed.

Lemma fan_out_spec (l : list addr) :
  forall (w : World) (R : gset addr),
    NoDup l -> ready msg slow w l -> hub_rooms w !! Msg_RoomID msg = Some R ->
    let r := fan_out msg l w in
    fst r = Returned
    /\ (forall a, ~ In a l \/ Msg_Sender msg = Some a ->
          heap (snd r) !! a = heap w !! a)
    /\ (forall a c, In a l -> Msg_Sender msg <> Some a -> a <> slow ->
          heap w !! a = Some c ->
          heap (snd r) !! a = Some (delivered (Msg_Message msg) c))
    /\ (forall c, In slow l -> Msg_Sender msg <> Some slow ->
          heap w !! slow = Some c ->
          heap (snd r) !! slow = Some (closed_off c)
          /\ hub_rooms (snd r) !! Msg_RoomID msg = Some (R ∖ {[slow]}))
    /\ (~ In slow l \/ Msg_Sender msg = Some slow ->
          hub_rooms (snd r) !! Msg_RoomID msg = Some R).
Proof.
  induction l as [|a l IH]; intros w R Hnd Hready HR.
  - cbn. split; [reflexivity|]. split; [reflexivity|].
    split; [intros ? ? []|]. split; [intros ? []|intros _; exact HR].
  - apply NoDup_cons in Hnd. destruct Hnd as [Hnotin Hnd].
    rewrite list_elem_of_In in Hnotin.
    cbn [fan_out]. unfold bind.
    destruct (decide (Msg_Sender msg = Some a)) as [Hs|Hs].
    { rewrite (send_or_drop_sender a w Hs).
      assert (Hready' : ready msg slow w l)
        by (intros b Hb; apply Hready; now right).
      destruct (IH w R Hnd Hready' HR) as (H0 & H1 & H2 & H3 & H4).
      split; [exact H0|]. split; [|split; [|split]].
      - intros b [Hb|Hb]; apply H1; [left; intros Hin; apply Hb; now right
                                     | now right].
      - intros b c [->|Hb] Hsb; [contradiction|]. now apply H2.
      - intros c [<-|Hin] Hss; [contradiction|]. now apply H3.
      - intros [Hn|Hss]; apply H4; [left; intros Hin; apply Hn; now right
                                    | now right]. }
    destruct (Hready a (or_introl eq_refl) Hs) as (c & Hc & Hopen & Hfull).
    destruct (queue_full c) eqn:Eq.
    + assert (Ha : a = slow) by now apply Hfull. subst a.
      rewrite (send_or_drop_drops slow c R w Hs Hc Hopen Eq HR).
      set (w1 := set_heap _ _).
      assert (Hready' : ready msg slow w1 l).
      { intros b Hb Hsb. destruct (Hready b (or_intror Hb) Hsb) as (cb & Hcb & Hb').
        exists cb. split; [|exact Hb'].
        subst w1. cbn. rewrite lookup_insert_ne; [exact Hcb|].
        intros ->. contradiction. }
      assert (HR1 : hub_rooms w1 !! Msg_RoomID msg = Some (R ∖ {[slow]}))
        by (subst w1; cbn; apply lookup_insert_eq).
      destruct (IH w1 _ Hnd Hready' HR1) as (H0 & H1 & H2 & H3 & H4).
      assert (Hheap1 : forall b, b <> slow -> heap w1 !! b = heap w !! b)
        by (intros b Hb; subst w1; cbn; now rewrite lookup_insert_ne).
      split; [exact H0|]. split; [|split; [|split]].
      * intros b [Hb|Hb].
        -- rewrite H1 by (left; intros Hin; apply Hb; now right).
           apply Hheap1. intros ->. apply Hb. now left.
        -- rewrite H1 by now right. apply Hheap1. intros ->. contradiction.
      * intros b cb [->|Hb] Hsb Hne Hcb; [contradiction|].
        apply H2; auto. now rewrite Hheap1.
      * intros c0 _ _ Hc0. rewrite Hc in Hc0. injection Hc0 as <-.
        split.
        -- rewrite H1 by now left. subst w1. cbn. apply lookup_insert_eq.
        -- apply H4. now left.
      * intros [Hn|Hss]; [exfalso; apply Hn; now left | contradiction].
    + assert (Ha : a <> slow).
      { intros ->. destruct Hfull as [_ Hfull].
        specialize (Hfull eq_refl). discriminate Hfull. }
      rewrite (send_or_drop_delivers a c w Hs Hc Hopen Eq).
      set (w1 := set_heap _ _).
      assert (Hheap1 : forall b, b <> a -> heap w1 !! b = heap w !! b)
        by (intros b Hb; subst w1; cbn; now rewrite lookup_insert_ne).
      assert (Hready' : ready msg slow w1 l).
      { intros b Hb Hsb. destruct (Hready b (or_intror Hb) Hsb) as (cb & Hcb & Hb').
        exists cb. split; [|exact Hb'].
        rewrite Hheap1; [exact Hcb|]. intros ->. contradiction. }
      assert (HR1 : hub_rooms w1 !! Msg_RoomID msg = Some R) by exact HR.
      destruct (IH w1 _ Hnd Hready' HR1) as (H0 & H1 & H2 & H3 & H4).
      split; [exact H0|]. split; [|split; [|split]].
      * intros b [Hb|Hb].
        -- rewrite H1 by (left; intros Hin; apply Hb; now right).
           apply Hheap1. intros ->. apply Hb. now left.
        -- rewrite H1 by now right. apply Hheap1. intros ->. contradiction.
      * intros b cb [<-|Hb] Hsb Hne Hcb.
        -- rewrite H1 by now left. subst w1. cbn.
           rewrite Hc in Hcb. injection Hcb as <-. apply lookup_insert_eq.
        -- apply H2; auto. rewrite Hheap1; [exact Hcb|].
           intros ->. contradiction.
      * intros c0 [->|Hin] Hss Hc0; [contradiction|].
        apply H3; auto. rewrite Hheap1; [exact Hc0|]. congruence.
      * intros [Hn|Hss]; apply H4; [left; intros Hin; apply Hn; now right
                                    | now right].
Qed.
End FanOut.

(** C9, as the code has it. When a room has exactly one connection with a
    full outbound queue and that connection is not the sender of the
    broadcast, [broadcastToRoom] returns, the payload is at the end of the
    queue of every other connection except the sender, and the saturated
    connection is out of the room's set with its queue closed. The order in
    which [range] visits the connections does not matter. *)
Theorem backpressure_drops_slow_client (env : Env) (msg : BroadcastMessage)
    (w : World) (R : gset addr) (slow : addr) :
  Env_ok env ->
  one_saturated w (Msg_RoomID msg) R slow ->
  Msg_Sender msg <> Some slow ->
  backpressure_outcome env msg w R slow.
Proof.
  intros [_ Hrange] (HR & Hslow & Hall) Hsender.
  unfold backpressure_outcome, broadcastToRoom. rewrite HR. cbn [default].
  unfold bind.
  pose proof (storeMessageIfApplicable_hub env (Msg_RoomID msg) (Msg_Message msg) w)
    as [Hrooms0 Hheap0].
  destruct (storeMessageIfApplicable env (Msg_RoomID msg) (Msg_Message msg) w)
    as [u w0]. cbn [snd] in Hrooms0, Hheap0.
  set (l := range_clients env R).
  assert (Hin : forall a, In a l <-> a ∈ R).
  { intros a. rewrite <- list_elem_of_In. subst l. rewrite Hrange.
    apply elem_of_elements. }
  assert (Hnd : NoDup l) by (subst l; rewrite Hrange; apply NoDup_elements).
  assert (Hready : ready msg slow w0 l).
  { intros a Ha _. rewrite Hheap0. apply Hall. now apply Hin. }
  assert (HR0 : hub_rooms w0 !! Msg_RoomID msg = Some R) by now rewrite Hrooms0.
  destruct (fan_out_spec msg slow l w0 R Hnd Hready HR0) as (H0 & H1 & H2 & H3 & H4).
  destruct (Hall slow Hslow) as (cs & Hcs & _).
  assert (Hslow_in : In slow l) by now apply Hin.
  rewrite <- Hheap0 in Hcs.
  destruct (H3 cs Hslow_in Hsender Hcs) as [Hclosed Hset].
  split; [exact H0|]. split; [exact Hset|]. split; [|split].
  - exists cs. rewrite <- Hheap0. now split.
  - intros a Ha Hne Hsa. destruct (Hall a Ha) as (c & Hc & _).
    exists c. split; [exact Hc|].
    apply H2; auto; [now apply Hin | now rewrite Hheap0].
  - intros a Ha. rewrite <- Hheap0. apply H1. now right.
Qed.

Lemma hub_world_one_saturated :
  one_saturated hub_world "a1b2c3d4" {[1%nat; 2%nat; 3%nat]} 1%nat.
Proof.
  split; [reflexivity|].
  split; [rewrite !elem_of_union, !elem_of_singleton; tauto|].
  intros a Ha.
  assert (Hcases : a = 1%nat \/ a = 2%nat \/ a = 3%nat)
    by (rewrite !elem_of_union, !elem_of_singleton in Ha; tauto).
  destruct Hcases as [-> | [-> | ->]].
  - exists saturated_client. repeat split; auto.
  - exists (NewClient "a1b2c3d4" "ben" "Ben" "owl").
    repeat split; auto; intros H; discriminate H.
  - exists (NewClient "a1b2c3d4" "cat" "Cat" "cat").
    repeat split; auto; intros H; discriminate H.
Qed.

Lemma backpressure_drops_slow_client_witness :
  backpressure_outcome quiet_env (typing_from (Some 2%nat)) hub_world
    {[1%nat; 2%nat; 3%nat]} 1%nat.
Proof.
  apply backpressure_drops_slow_client.
  - exact quiet_env_ok.
  - exact hub_world_one_saturated.
  - discriminate.
Defined.

(** C9, as stated, fails when the saturated connection is the sender of the
    broadcast: the loop skips the sender before it looks at its queue, so
    connection 1 stays in the room's set with its queue open. *)
Lemma saturated_sender_is_not_dropped :
  one_saturated hub_world "a1b2c3d4" {[1%nat; 2%nat; 3%nat]} 1%nat
  /\ ~ backpressure_outcome quiet_env (typing_from (Some 1%nat)) hub_world
         {[1%nat; 2%nat; 3%nat]} 1%nat.
Proof.
  split; [exact hub_world_one_saturated|].
  intros (_ & _ & (c & Hc & Hclosed) & _ & _).
  assert (Hc' : c = saturated_client).
  { vm_compute in Hc. injection Hc as <-. reflexivity. }
  subst c.
  assert (Hstay : heap (snd (broadcastToRoom quiet_env (typing_from (Some 1%nat))
                               hub_world)) !! 1%nat = Some saturated_client)
    by (vm_compute; reflexivity).
  pose proof (eq_trans (eq_sym Hstay) Hclosed) as Hbad.
  apply (f_equal (fun o => match o with
                           | Some c => chan_closed (Client_send c)
                           | None => false
                           end)) in Hbad.
  discriminate Hbad.
Qed.

(** ** Part IV. Further properties of the code *)

(** *** Joining a room *)

Ltac sem_inv :=
  repeat match goal with
         | H : sem_select_rooms _ _ = inr _ |- _ =>
             unfold sem_select_rooms in H; injection H; clear H; intros; subst
         | H : sem_select_participants _ _ = inr _ |- _ =>
             unfold sem_select_participants in H; injection H; clear H; intros; subst
         | H : sem_AddParticipant _ _ = inr _ |- _ =>
             unfold sem_AddParticipant in H;
             let E1 := fresh "Efresh" in
             let E2 := fresh "Eroom" in
             destruct (existsb (participant_has_id _) _) eqn:E1;
             [discriminate H|];
             destruct (existsb (room_has_id _) _) eqn:E2;
             [injection H; clear H; intros; subst | discriminate H]
         | H : sem_UpdateRoomActivity _ _ _ = inr _ |- _ =>
             unfold sem_UpdateRoomActivity in H; injection H; clear H; intros; subst
         | H : sem_UpdateParticipantActivity _ _ _ = inr _ |- _ =>
             unfold sem_UpdateParticipantActivity in H; injection H; clear H; intros; subst
         | H : sem_CreateRoom _ _ = inr _ |- _ =>
             unfold sem_CreateRoom in H;
             let E1 := fresh "Efresh" in
             destruct (existsb (room_has_id _) _) eqn:E1;
             [discriminate H | injection H; clear H; intros; subst]
         | H : sem_select_rooms _ _ = inl _ |- _ => discriminate H
         | H : sem_select_participants _ _ = inl _ |- _ => discriminate H
         | H : sem_UpdateRoomActivity _ _ _ = inl _ |- _ => discriminate H
         | H : sem_UpdateParticipantActivity _ _ _ = inl _ |- _ => discriminate H
         end.

Ltac world_simpl :=
  cbn [store trace tick messages hub_rooms heap hub_messageService
       after_call step emit set_store set_messages rooms participants] in *.

Lemma filter_app_in_room (roomID : string) (ps : list Participant)
    (p : Participant) :
  Participant_RoomID p = roomID ->
  In p (List.filter (participant_in_room roomID) (ps ++ [p])).
Proof.
  intros H. apply filter_In. split.
  - apply in_or_app. right. now left.
  - unfold participant_in_room. now apply String.eqb_eq.
Qed.

Lemma JoinRoom_success_wp (env : Env) (roomID username avatar : string)
    (w : World) :
  wp (JoinRoom env roomID username avatar)
     (fun r w' =>
        match r with
        | inl _ => True
        | inr (p, room, ps) =>
            Participant_RoomID p = roomID
            /\ Participant_Username p = username
            /\ Participant_Avatar p = avatar
            /\ Participant_JoinedAt p = Participant_LastActiveAt p
            /\ Room_ID room = roomID
            /\ participant_exists (Participant_ID p) (store w) = false
            /\ participants (store w') = participants (store w) ++ [p]
            /\ ps = List.filter (participant_in_room roomID) (participants (store w'))
            /\ In p ps
        end) w.
Proof.
  unfold JoinRoom. wp_exec. all: try exact I.
  all: sem_inv; world_simpl.
  all: repeat split; auto.
  all: try (apply filter_app_in_room; reflexivity).
  all: match goal with
       | H : List.filter (room_has_id _) _ = _ :: _ |- _ =>
           apply filter_head in H; now apply String.eqb_eq in H
       end.
Qed.

(** X1. When [JoinRoom] returns without error, the participant it returns
    carries the requested room id, name and avatar, with join time equal to
    last-active time; its id was not in the store before; it is the last row
    of the participants table, and it is in the returned list, which is the
    list of the room's participants in the store. *)
Theorem JoinRoom_returns_persisted_participant (env : Env)
    (roomID username avatar : string) (w : World)
    (p : Participant) (room : Room) (ps : list Participant) :
  fst (JoinRoom env roomID username avatar w) = inr (p, room, ps) ->
  Participant_RoomID p = roomID
  /\ Participant_Username p = username
  /\ Participant_Avatar p = avatar
  /\ Participant_JoinedAt p = Participant_LastActiveAt p
  /\ Room_ID room = roomID
  /\ participant_exists (Participant_ID p) (store w) = false
  /\ participants (store (snd (JoinRoom env roomID username avatar w)))
     = participants (store w) ++ [p]
  /\ ps = List.filter (participant_in_room roomID)
            (participants (store (snd (JoinRoom env roomID username avatar w))))
  /\ In p ps.
Proof.
  intros H.
  pose proof (wp_run _ _ _ (JoinRoom_success_wp env roomID username avatar w)) as Hwp.
  cbn beta in Hwp. rewrite H in Hwp. exact Hwp.
Qed.

Lemma JoinRoom_returns_persisted_participant_witness :
  let ben' := mkParticipant "c" "a1b2c3d4" "Ben" "owl"
                1001000000000 1001000000000 in
  participants (store (snd (JoinRoom quiet_env "a1b2c3d4" "Ben" "owl" world_ann)))
  = [ann; ben']
  /\ In ben' [ann; ben'].
Proof.
  intros ben'.
  destruct (JoinRoom_returns_persisted_participant quiet_env "a1b2c3d4" "Ben" "owl"
              world_ann ben' standup [ann; ben'])
    as (_ & _ & _ & _ & _ & _ & Hstore & _ & Hin).
  - vm_compute. reflexivity.
  - split; [exact Hstore | exact Hin].
Defined.

(** X2. [JoinRoom] on a room id that the URL carries unchanged and that is
    not in the store returns an error and leaves the store as it was: its
    only effect is the GET of the room, so that no participant is inserted
    and no presence event is emitted, whatever fails. *)
Theorem JoinRoom_unknown_room (env : Env) (roomID username avatar : string)
    (w : World) :
  plain_id roomID = true ->
  room_exists roomID (store w) = false ->
  (exists e, fst (JoinRoom env roomID username avatar w) = inl e)
  /\ store (snd (JoinRoom env roomID username avatar w)) = store w
  /\ events (JoinRoom env roomID username avatar) w
     = [StoreCall (OpGetRoom roomID)
          (negb (net_fails env (tick w)))].
Proof.
  intros _ Hno.
  apply (wp_run (JoinRoom env roomID username avatar)
           (fun r w' => (exists e, r = inl e) /\ store w' = store w
                        /\ drop (length (trace w)) (trace w')
                           = [StoreCall (OpGetRoom roomID)
                                (negb (net_fails env (tick w)))])).
  unfold JoinRoom, Client_GetRoom.
  apply wp_bind, wp_bind, wp_doRequest.
  - intros e Hf. rewrite Hf. apply wp_ret, wp_ret. world_simpl.
    split; [eauto|]. split; [reflexivity|]. apply drop_app_length.
  - intros e _ He. discriminate He.
  - intros st a Hf Hsem. rewrite Hf. sem_inv.
    unfold room_exists in Hno.
    destruct (List.filter (room_has_id roomID) (rooms (store w))) eqn:E.
    + apply wp_ret, wp_ret. world_simpl.
      split; [eauto|]. split; [reflexivity|]. apply drop_app_length.
    + apply filter_cons_exists in E. congruence.
  - intros e st a Hf _ Hsem. rewrite Hf. sem_inv.
    apply wp_ret, wp_ret. world_simpl.
    split; [eauto|]. split; [reflexivity|]. apply drop_app_length.
Qed.

Lemma JoinRoom_unknown_room_witness :
  (exists e, fst (JoinRoom quiet_env "0badc0de" "Ben" "owl" world_ann) = inl e)
  /\ store (snd (JoinRoom quiet_env "0badc0de" "Ben" "owl" world_ann))
     = store world_ann
  /\ events (JoinRoom quiet_env "0badc0de" "Ben" "owl") world_ann
     = [StoreCall (OpGetRoom "0badc0de") true].
Proof.
  apply (JoinRoom_unknown_room quiet_env "0badc0de" "Ben" "owl" world_ann).
  - vm_compute. reflexivity.
  - vm_compute. reflexivity.
Defined.

(** *** Leaving a room: a failed delete *)

(** X9. When the DELETE of the participant fails, [LeaveRoom] returns an
    error and emits no presence event; no room is touched and no participant
    is added. When the request had not reached the store, the store is as it
    was; when the store had applied it and the reply was lost, the
    participant is gone without any "participant left" event and without a
    recount of the room. *)
Theorem LeaveRoom_failed_delete (env : Env) (roomID participantID : string)
    (w : World) :
  In (StoreCall (OpRemoveParticipant participantID) false)
     (events (LeaveRoom env roomID participantID) w) ->
  let w' := snd (LeaveRoom env roomID participantID w) in
  fst (LeaveRoom env roomID participantID w) <> None
  /\ presence_count (events (LeaveRoom env roomID participantID) w) = O
  /\ events (LeaveRoom env roomID participantID) w
     = [StoreCall (OpGetParticipant participantID)
          (negb (net_fails env (tick w)));
        StoreCall (OpRemoveParticipant participantID) false]
  /\ rooms (store w') = rooms (store w)
  /\ (forall p, In p (participants (store w')) -> In p (participants (store w)))
  /\ (reply_lost env (S (tick w)) = false -> store w' = store w)
  /\ (reply_lost env (S (tick w)) = true ->
      participant_exists participantID (store w') = false).
Proof.
  cbn zeta.
  apply (wp_run (LeaveRoom env roomID participantID)
           (fun r w' =>
              In (StoreCall (OpRemoveParticipant participantID) false)
                 (drop (length (trace w)) (trace w')) ->
              r <> None
              /\ presence_count (drop (length (trace w)) (trace w')) = O
              /\ drop (length (trace w)) (trace w')
                 = [StoreCall (OpGetParticipant participantID)
                      (negb (net_fails env (tick w)));
                    StoreCall (OpRemoveParticipant participantID) false]
              /\ rooms (store w') = rooms (store w)
              /\ (forall p, In p (participants (store w')) ->
                            In p (participants (store w)))
              /\ (reply_lost env (S (tick w)) = false -> store w' = store w)
              /\ (reply_lost env (S (tick w)) = true ->
                  participant_exists participantID (store w') = false))).
  unfold LeaveRoom.
  apply wp_bind, wp_Client_GetParticipant; intros.
  all: apply wp_bind, wp_Client_RemoveParticipant_cases; intros.
  all: wp_exec.
  all: unfold after_call in *; world_simpl.
  all: rewrite <- ?app_assoc, drop_app_length; cbn [app].
  all: intros Hin.
  all: try (exfalso; cbn [In] in Hin;
            repeat match goal with
              | H : _ \/ _ |- _ => destruct H as [H | H]
              | H : False |- _ => destruct H
              | H : _ = StoreCall _ _ |- _ => discriminate H
              end; fail).
  all: repeat match goal with
         | H : net_fails _ _ = _ |- _ => rewrite H
         end; cbn [negb].
  all: split; [discriminate|]. 
  all: split; [reflexivity|].
  all: split; [reflexivity|].
  all: split; [reflexivity|].
  all: cbn [participants].
  all: split; [intros ? Hp; try apply filter_In in Hp; tauto|].
  all: split; [intros Hl; try congruence; reflexivity|].
  all: intros Hl; try congruence.
  all: apply existsb_filter_neg.
Qed.

Lemma LeaveRoom_failed_delete_witness :
  let w' := snd (LeaveRoom (losing_reply_at 1) "a1b2c3d4" "ann" world_ann) in
  fst (LeaveRoom (losing_reply_at 1) "a1b2c3d4" "ann" world_ann) <> None
  /\ presence_count
       (events (LeaveRoom (losing_reply_at 1) "a1b2c3d4" "ann") world_ann) = O
  /\ events (LeaveRoom (losing_reply_at 1) "a1b2c3d4" "ann") world_ann
     = [StoreCall (OpGetParticipant "ann") true;
        StoreCall (OpRemoveParticipant "ann") false]
  /\ rooms (store w') = [standup]
  /\ (forall p, In p (participants (store w')) -> In p [ann])
  /\ (reply_lost (losing_reply_at 1) 1 = false -> store w' = store world_ann)
  /\ (reply_lost (losing_reply_at 1) 1 = true ->
      participant_exists "ann" (store w') = false).
Proof.
  apply (LeaveRoom_failed_delete (losing_reply_at 1) "a1b2c3d4" "ann" world_ann).
  vm_compute. right. left. reflexivity.
Defined.

(** *** Heartbeats *)

Lemma map_touch_room_ids (roomID : string) (now : Time) (rs : list Room) :
  map Room_ID (map (fun r => if room_has_id roomID r then touch_room now r else r) rs)
  = map Room_ID rs.
Proof.
  induction rs as [|r rs IH]; [reflexivity|].
  cbn [map]. rewrite IH. now destruct (room_has_id roomID r).
Qed.

Lemma map_touch_participant_ids (id : string) (now : Time) (ps : list Participant) :
  map Participant_ID
      (map (fun p => if participant_has_id id p then touch_participant now p else p) ps)
  = map Participant_ID ps.
Proof.
  induction ps as [|p ps IH]; [reflexivity|].
  cbn [map]. rewrite IH. now destruct (participant_has_id id p).
Qed.

Lemma rooms_same_refl (rs : list Room) : Forall2 same_room_but_activity rs rs.
Proof. induction rs; constructor; [now repeat split | assumption]. Qed.

Lemma participants_same_refl (ps : list Participant) :
  Forall2 same_participant_but_activity ps ps.
Proof. induction ps; constructor; [now repeat split | assumption]. Qed.

Lemma rooms_touched_same (roomID : string) (now : Time) (rs : list Room) :
  Forall2 same_room_but_activity rs
    (map (fun r => if room_has_id roomID r then touch_room now r else r) rs).
Proof.
  induction rs as [|r rs IH]; cbn [map]; constructor; [|exact IH].
  destruct (room_has_id roomID r); now repeat split.
Qed.

Lemma participants_touched_same (id : string) (now : Time)
    (ps : list Participant) :
  Forall2 same_participant_but_activity ps
    (map (fun p => if participant_has_id id p then touch_participant now p else p)
         ps).
Proof.
  induction ps as [|p ps IH]; cbn [map]; constructor; [|exact IH].
  destruct (participant_has_id id p); now repeat split.
Qed.

(** X3. [UpdateHeartbeat] is silent and changes last-active times only,
    whatever fails: it emits no presence or room event; the rooms table
    after it has the same rows in the same order, each with its id, name,
    key and creation time as before; the participants table has the same
    rows in the same order, each with its id, room, user name, avatar and
    join time as before; and with an empty participant id the participants
    table is left as it was. *)
Theorem UpdateHeartbeat_is_silent (env : Env) (roomID participantID : string)
    (w : World) :
  let w' := snd (UpdateHeartbeat env roomID participantID w) in
  existsb is_broadcast (events (UpdateHeartbeat env roomID participantID) w) = false
  /\ Forall2 same_room_but_activity (rooms (store w)) (rooms (store w'))
  /\ Forall2 same_participant_but_activity
       (participants (store w)) (participants (store w'))
  /\ map Room_ID (rooms (store w')) = map Room_ID (rooms (store w))
  /\ map Participant_ID (participants (store w'))
     = map Participant_ID (participants (store w))
  /\ (participantID = ""%string -> participants (store w') = participants (store w)).
Proof.
  apply (wp_run (UpdateHeartbeat env roomID participantID)
           (fun _ w' =>
              existsb is_broadcast (drop (length (trace w)) (trace w')) = false
              /\ Forall2 same_room_but_activity (rooms (store w)) (rooms (store w'))
              /\ Forall2 same_participant_but_activity
                   (participants (store w)) (participants (store w'))
              /\ map Room_ID (rooms (store w')) = map Room_ID (rooms (store w))
              /\ map Participant_ID (participants (store w'))
                 = map Participant_ID (participants (store w))
              /\ (participantID = ""%string ->
                  participants (store w') = participants (store w)))).
  unfold UpdateHeartbeat. wp_exec.
  all: sem_inv; world_simpl.
  all: rewrite <- ?app_assoc, ?drop_app_length.
  all: rewrite ?map_touch_room_ids, ?map_touch_participant_ids.
  all: split; [reflexivity|].
  all: split; [first [apply rooms_same_refl | apply rooms_touched_same]|].
  all: split;
    [first [apply participants_same_refl | apply participants_touched_same]|].
  all: repeat split; try reflexivity.
  all: intros ->; discriminate.
Qed.

Lemma touched_room_time (roomID : string) (now : Time) (rs : list Room) (r : Room) :
  In r (map (fun r => if room_has_id roomID r then touch_room now r else r) rs) ->
  Room_ID r = roomID -> Room_LastActiveAt r = now.
Proof.
  intros Hin Hid. apply in_map_iff in Hin. destruct Hin as [r0 [Hr0 _]].
  destruct (room_has_id roomID r0) eqn:E; subst r; [reflexivity|].
  unfold room_has_id in E. apply String.eqb_neq in E. contradiction.
Qed.

Lemma touched_participant_time (id : string) (now : Time)
    (ps : list Participant) (p : Participant) :
  In p (map (fun p => if participant_has_id id p then touch_participant now p else p) ps) ->
  Participant_ID p = id -> Participant_LastActiveAt p = now.
Proof.
  intros Hin Hid. apply in_map_iff in Hin. destruct Hin as [p0 [Hp0 _]].
  destruct (participant_has_id id p0) eqn:E; subst p; [reflexivity|].
  unfold participant_has_id in E. apply String.eqb_neq in E. contradiction.
Qed.

Lemma UpdateHeartbeat_refreshes_wp (env : Env) (roomID participantID : string)
    (w : World) :
  wp (UpdateHeartbeat env roomID participantID)
     (fun err w' =>
        err = None ->
        (forall r, In r (rooms (store w')) -> Room_ID r = roomID ->
                   Room_LastActiveAt r = now_at env (tick w))
        /\ (participantID <> ""%string ->
            forall p, In p (participants (store w')) ->
                      Participant_ID p = participantID ->
                      Participant_LastActiveAt p = now_at env (2 + tick w))) w.
Proof.
  unfold UpdateHeartbeat. wp_exec.
  all: intros Herr; try discriminate Herr.
  all: sem_inv; world_simpl.
  - split.
    + intros r. apply touched_room_time.
    + intros _ p. apply touched_participant_time.
  - split.
    + intros r. apply touched_room_time.
    + intros Hne. apply negb_false_iff, String.eqb_eq in E. contradiction.
Qed.

(** X4. When [UpdateHeartbeat] returns without error, every room row with
    the given id has the clock reading taken for the room as its last-active
    time, and, when a participant id was given, every participant row with
    that id has the clock reading taken for the participant. *)
Theorem UpdateHeartbeat_refreshes (env : Env) (roomID participantID : string)
    (w : World) :
  fst (UpdateHeartbeat env roomID participantID w) = None ->
  let w' := snd (UpdateHeartbeat env roomID participantID w) in
  (forall r, In r (rooms (store w')) -> Room_ID r = roomID ->
             Room_LastActiveAt r = now_at env (tick w))
  /\ (participantID <> ""%string ->
      forall p, In p (participants (store w')) ->
                Participant_ID p = participantID ->
                Participant_LastActiveAt p = now_at env (2 + tick w)).
Proof.
  intros H.
  exact (wp_run _ _ _ (UpdateHeartbeat_refreshes_wp env roomID participantID w) H).
Qed.

Lemma UpdateHeartbeat_refreshes_witness :
  let w' := snd (UpdateHeartbeat quiet_env "a1b2c3d4" "ann" world_ann) in
  (forall r, In r (rooms (store w')) -> Room_ID r = "a1b2c3d4"%string ->
             Room_LastActiveAt r = 1000000000000)
  /\ ("ann"%string <> ""%string ->
      forall p, In p (participants (store w')) ->
                Participant_ID p = "ann"%string ->
                Participant_LastActiveAt p = 1002000000000).
Proof.
  apply (UpdateHeartbeat_refreshes quiet_env "a1b2c3d4" "ann" world_ann).
  vm_compute. reflexivity.
Defined.

(** *** What the sweep removes and what it spares *)

Lemma wp_fold_each_in {A S : Type} (I : World -> Prop) (xs : list A)
    (body : S -> A -> M S) :
  (forall s x w, In x xs -> I w -> wp (body s x) (fun _ w' => I w') w) ->
  forall s w, I w -> wp (fold_each xs s body) (fun _ w' => I w') w.
Proof.
  induction xs as [|x xs IH]; intros Hbody s w HI.
  - now apply wp_ret.
  - cbn [fold_each]. apply wp_bind.
    eapply wp_mono; [apply Hbody; [now left | exact HI]|].
    cbn beta. intros s' w' HI'. apply IH; [|exact HI'].
    intros s0 y w0 Hy. apply Hbody. now right.
Qed.

Lemma participants_after_delete_room (id : string) (st : Store) (p : Participant) :
  In p (participants (store_without_room id st)) -> In p (participants st).
Proof.
  unfold store_without_room, sem_DeleteRoom.
  destruct (List.filter (room_has_id id) (rooms st)); cbn [participants];
    [auto|]. intros H. now apply filter_In in H.
Qed.

Lemma rooms_after_delete_room (id : string) (st : Store) (r : Room) :
  In r (rooms (store_without_room id st)) ->
  In r (rooms st) /\ Room_ID r <> id.
Proof.
  unfold store_without_room, sem_DeleteRoom.
  destruct (List.filter (room_has_id id) (rooms st)); cbn [rooms];
    intros H; apply filter_In in H; destruct H as [Hin Hid];
    (split; [exact Hin|]); apply negb_true_iff in Hid;
    now apply String.eqb_neq in Hid.
Qed.

Lemma participant_kept_by_delete_room (id : string) (st : Store) (p : Participant) :
  In p (participants st) -> Participant_RoomID p <> id ->
  In p (participants (store_without_room id st)).
Proof.
  intros Hin Hne. unfold store_without_room, sem_DeleteRoom.
  destruct (List.filter (room_has_id id) (rooms st)); cbn [participants];
    [exact Hin|]. apply filter_In. split; [exact Hin|].
  apply negb_true_iff. now apply String.eqb_neq.
Qed.

Lemma participant_kept_by_remove (id : string) (ps : list Participant)
    (p : Participant) :
  In p ps -> Participant_ID p <> id ->
  In p (List.filter (fun q => negb (participant_has_id id q)) ps).
Proof.
  intros Hin Hne. apply filter_In. split; [exact Hin|].
  apply negb_true_iff. now apply String.eqb_neq.
Qed.

Lemma protected_after_delete_room (th : Time) (p : Participant) (id : string)
    (st : Store) :
  protected th p st -> Participant_RoomID p <> id ->
  protected th p (store_without_room id st).
Proof.
  intros [Hin Hrooms] Hne. split.
  - now apply participant_kept_by_delete_room.
  - intros r Hr. apply rooms_after_delete_room in Hr. now apply Hrooms.
Qed.

Lemma cleanupParticipants_spares (env : Env) (th : Time) (p : Participant)
    (w : World) :
  (forall q, In q (participants (store w)) ->
             Participant_ID q = Participant_ID p -> stale th q = false) ->
  protected th p (store w) ->
  wp (cleanupParticipants env th) (fun _ w' => protected th p (store w')) w.
Proof.
  intros Hid Hp. unfold cleanupParticipants, Client_GetInactiveParticipants.
  apply wp_bind, wp_doRequest;
    [intros e _; now apply wp_ret
    |intros e _ He; discriminate He
    |
    |intros e st ps _ _ Hsem; unfold sem_select_participants in Hsem;
     injection Hsem as <- <-; now apply wp_ret].
  - intros st ps _ Hsem. unfold sem_select_participants in Hsem.
    injection Hsem as <- <-.
    replace (set_store (store w) w) with w by now destruct w.
    destruct (length _ =? 0)%nat; [now apply wp_ret|].
    apply wp_bind.
    apply wp_mono with (Q := fun _ w' => protected th p (store w')).
    + apply wp_fold_each_in; [|exact Hp].
      intros s q w0 Hq Hp0. apply filter_In in Hq. destruct Hq as [Hq Hstale].
      assert (Hkept : protected th p
                        (mkStore (rooms (store w0))
                           (List.filter
                              (fun x => negb (participant_has_id (Participant_ID q) x))
                              (participants (store w0))))).
      { destruct Hp0 as [Hin Hrooms]. split; [|exact Hrooms].
        cbn [participants]. apply participant_kept_by_remove; [exact Hin|].
        intros Heq. symmetry in Heq. pose proof (Hid q Hq Heq) as Hf.
        unfold stale in Hf. congruence. }
      apply wp_bind, wp_Client_RemoveParticipant.
      * intros e _. now apply wp_ret.
      * intros _. apply wp_bind, wp_BroadcastParticipantEvent.
        intros ok err. apply wp_ret. world_simpl. exact Hkept.
      * intros e _ _. apply wp_ret. world_simpl. exact Hkept.
    + cbn beta. intros s w1 Hp1.
      apply (wp_for_each (fun w' => protected th p (store w'))); [|exact Hp1].
      intros roomID w2 _ Hp2.
      apply wp_bind, wp_Client_CountParticipants.
      * intros e _. now apply wp_ret.
      * intros _.
        destruct (Nat.eqb_spec (length (List.filter (participant_in_room roomID)
                                          (participants (store w2)))) 0)
          as [H0|_]; [|now apply wp_ret].
        assert (Hkept : protected th p (store_without_room roomID (store w2))).
        { apply protected_after_delete_room; [exact Hp2|].
          intros Heq. destruct Hp2 as [Hin _].
          assert (Hin' : In p (List.filter (participant_in_room roomID)
                                 (participants (store w2)))).
          { apply filter_In. split; [exact Hin|].
            unfold participant_in_room. now apply String.eqb_eq. }
          destruct (List.filter _ _); [destruct Hin' | discriminate H0]. }
        apply wp_bind, wp_Client_DeleteRoom.
        -- intros e _. now apply wp_ret.
        -- intros _. apply wp_ret. world_simpl. exact Hkept.
        -- intros e _ _. apply wp_ret. world_simpl. exact Hkept.
Qed.

Lemma cleanupRooms_spares (env : Env) (th : Time) (p : Participant) (w : World) :
  protected th p (store w) ->
  wp (cleanupRooms env th) (fun _ w' => protected th p (store w')) w.
Proof.
  intros Hp. unfold cleanupRooms, Client_GetInactiveRooms.
  apply wp_bind, wp_doRequest;
    [intros e _; now apply wp_ret
    |intros e _ He; discriminate He
    |
    |intros e st rs _ _ Hsem; unfold sem_select_rooms in Hsem;
     injection Hsem as <- <-; now apply wp_ret].
  - intros st rs _ Hsem. unfold sem_select_rooms in Hsem.
    injection Hsem as <- <-.
    replace (set_store (store w) w) with w by now destruct w.
    destruct (length _ =? 0)%nat; [now apply wp_ret|].
    (* every room of the list is stale, and the rooms of the store only
       shrink while the list is being served *)
    apply wp_mono
      with (Q := fun _ w' => protected th p (store w')
                             /\ forall r, In r (rooms (store w')) ->
                                          In r (rooms (store w))).
    + apply (wp_for_each
               (fun w' => protected th p (store w')
                          /\ forall r, In r (rooms (store w')) ->
                                       In r (rooms (store w))));
        [|split; [exact Hp | auto]].
      intros room w1 Hroom [Hp1 Hsub].
      apply filter_In in Hroom. destruct Hroom as [Hroom Hstale].
      assert (Hkept : protected th p (store_without_room (Room_ID room) (store w1))
                      /\ forall r, In r (rooms (store_without_room (Room_ID room)
                                                   (store w1))) ->
                                   In r (rooms (store w))).
      { split.
        - apply protected_after_delete_room; [exact Hp1|].
          intros Heq. destruct Hp as [_ Hfresh].
          pose proof (Hfresh room Hroom (eq_sym Heq)) as Hf.
          unfold stale_room in Hf. congruence.
        - intros r Hr. apply rooms_after_delete_room in Hr. apply Hsub, Hr. }
      apply wp_bind, wp_Client_DeleteRoom.
      * intros e _. apply wp_ret. now split.
      * intros _. apply wp_ret. world_simpl. exact Hkept.
      * intros e _ _. apply wp_ret. world_simpl. exact Hkept.
    + cbn beta. intros _ w' [H _]. exact H.
Qed.

(** The threshold the code computes is never after [now - timeout]: the two
    differ only when the timeout is the least [int64]. *)
Lemma neg64_le (d : Z) : neg64 d <= - d.
Proof. unfold neg64. destruct (Z.eqb_spec d (- 2 ^ 63)); lia. Qed.

Lemma cleanup_threshold_le (env : Env) (s : CleanupService) (w : World) :
  cleanup_threshold env s w <= sweep_threshold env s w.
Proof.
  unfold cleanup_threshold, sweep_threshold.
  pose proof (neg64_le (timeout s)). lia.
Qed.

Lemma FormatRFC3339_mono (t u : Time) :
  t <= u -> FormatRFC3339 t <= FormatRFC3339 u.
Proof.
  intros H. unfold FormatRFC3339.
  apply Z.mul_le_mono_nonneg_r; [lia|]. apply Z.div_le_mono; lia.
Qed.

Lemma stale_mono (t u : Time) (q : Participant) :
  t <= u -> stale u q = false -> stale t q = false.
Proof.
  unfold stale, Before. intros H Hu. apply Z.ltb_ge. apply Z.ltb_ge in Hu.
  pose proof (FormatRFC3339_mono t u H). lia.
Qed.

Lemma stale_room_mono (t u : Time) (r : Room) :
  t <= u -> stale_room u r = false -> stale_room t r = false.
Proof.
  unfold stale_room, Before. intros H Hu. apply Z.ltb_ge. apply Z.ltb_ge in Hu.
  pose proof (FormatRFC3339_mono t u H). lia.
Qed.

Lemma protected_mono (t u : Time) (p : Participant) (st : Store) :
  t <= u -> protected u p st -> protected t p st.
Proof.
  intros H [Hin Hrooms]. split; [exact Hin|].
  intros r Hr Hid. apply (stale_room_mono t u r H). now apply Hrooms.
Qed.

Lemma cleanup_spares_wp (env : Env) (s : CleanupService) (p : Participant)
    (w : World) :
  (forall q, In q (participants (store w)) ->
             Participant_ID q = Participant_ID p ->
             stale (sweep_threshold env s w) q = false) ->
  protected (sweep_threshold env s w) p (store w) ->
  wp (cleanup env s)
     (fun _ w' => protected (cleanup_threshold env s w) p (store w')) w.
Proof.
  intros Hid Hp. unfold cleanup. apply wp_bind, wp_time_Now.
  fold (cleanup_threshold env s w). apply wp_bind.
  pose proof (cleanup_threshold_le env s w) as Hle.
  eapply wp_mono;
    [apply cleanupParticipants_spares;
       [intros q Hq Hq'; apply (stale_mono _ _ q Hle); exact (Hid q Hq Hq')
       |exact (protected_mono _ _ p (store w) Hle Hp)]|].
  cbn beta. intros ? w1 Hp1. now apply cleanupRooms_spares.
Qed.

(** X5. A sweep never removes an active participant of an active room: if no
    participant row with the id of [p] and no room row with the id of its
    room is older than the threshold of the sweep, then [p] is still in the
    store when the sweep returns, whatever fails and whatever else is
    swept. *)
Theorem sweep_spares_active (env : Env) (s : CleanupService) (w : World)
    (p : Participant) :
  In p (participants (store w)) ->
  (forall q, In q (participants (store w)) ->
             Participant_ID q = Participant_ID p ->
             stale (sweep_threshold env s w) q = false) ->
  (forall r, In r (rooms (store w)) -> Room_ID r = Participant_RoomID p ->
             stale_room (sweep_threshold env s w) r = false) ->
  In p (participants (store (snd (cleanup env s w)))).
Proof.
  intros Hin Hid Hroom.
  apply (wp_run (cleanup env s)
           (fun _ w' => protected (cleanup_threshold env s w) p (store w'))).
  apply cleanup_spares_wp; [exact Hid | now split].
Qed.

Lemma sweep_spares_active_witness :
  In live_ann (participants (store (snd (cleanup quiet_env every_minute world_mixed)))).
Proof.
  apply sweep_spares_active.
  - left. reflexivity.
  - intros q [<- | [<- | []]] H; [reflexivity | discriminate H].
  - intros r [<- | []] _. reflexivity.
Defined.

(** After the first loop of the sweep, when no store request fails: what is
    left of the participants table was there before, and shares no id with
    the participants served so far. *)
Lemma stale_participants_removed (env : Env) (th : Time) (w : World) :
  (forall k, net_fails env k = false) ->
  wp (cleanupParticipants env th)
     (fun _ w' =>
        (forall q, In q (participants (store w')) -> stale th q = false)
        /\ (forall r, In r (rooms (store w')) -> In r (rooms (store w)))) w.
Proof.
  intros Hnf. unfold cleanupParticipants, Client_GetInactiveParticipants.
  apply wp_bind, wp_doRequest;
    [intros e Hf; rewrite Hnf in Hf; discriminate Hf
    |intros e _ He; discriminate He
    |
    |intros e st ps Hf; rewrite Hnf in Hf; discriminate Hf].
  - intros st ps _ Hsem. unfold sem_select_participants in Hsem.
    injection Hsem as <- <-.
    replace (set_store (store w) w) with w by now destruct w.
    fold (stale th).
    set (ps := List.filter (stale th) (participants (store w))).
    assert (Hps : forall q, In q (participants (store w)) -> stale th q = true ->
                            In q ps)
      by (intros q Hq Hs; apply filter_In; now split).
    destruct (Nat.eqb_spec (length ps) 0) as [H0|_].
    { apply wp_ret. split; [|auto]. intros q Hq.
      destruct (stale th q) eqn:E; [|reflexivity].
      apply Hps in Hq; [|exact E]. destruct ps; [destruct Hq | discriminate H0]. }
    apply wp_bind.
    apply wp_mono
      with (Q := fun _ w' =>
                   (forall q, In q (participants (store w')) ->
                              In q (participants (store w))
                              /\ forall d, In d ps ->
                                   Participant_ID q <> Participant_ID d)
                   /\ rooms (store w') = rooms (store w)).
    + apply (wp_fold_each
               (fun done (_ : gset string) w' =>
                  (forall q, In q (participants (store w')) ->
                             In q (participants (store w))
                             /\ forall d, In d done ->
                                  Participant_ID q <> Participant_ID d)
                  /\ rooms (store w') = rooms (store w))
               _ ps) with (done := []).
      * intros done x s0 w0 [Hinv Hrooms].
        apply wp_bind, wp_Client_RemoveParticipant;
          [intros e Hf; rewrite Hnf in Hf; discriminate Hf | |
           intros e Hf; rewrite Hnf in Hf; discriminate Hf].
        intros _. apply wp_bind, wp_BroadcastParticipantEvent.
        intros ok err. apply wp_ret. world_simpl. split; [|exact Hrooms].
        intros q Hq. apply filter_In in Hq. destruct Hq as [Hq Hne].
        destruct (Hinv q Hq) as [Hq0 Hdone]. split; [exact Hq0|].
        intros d Hd. apply in_app_or in Hd. destruct Hd as [Hd | [<- | []]].
        -- now apply Hdone.
        -- apply negb_true_iff in Hne. now apply String.eqb_neq in Hne.
      * split; [|reflexivity]. intros q Hq. split; [exact Hq | intros d []].
    + cbn beta. intros s0 w1 [Hinv Hrooms].
      assert (Hfresh : forall q, In q (participants (store w1)) -> stale th q = false).
      { intros q Hq. destruct (Hinv q Hq) as [Hq0 Hne].
        destruct (stale th q) eqn:E; [|reflexivity].
        exfalso. apply (Hne q (Hps q Hq0 E)). reflexivity. }
      apply (wp_for_each
               (fun w' =>
                  (forall q, In q (participants (store w')) -> stale th q = false)
                  /\ (forall r, In r (rooms (store w')) -> In r (rooms (store w)))));
        [|split; [exact Hfresh | now rewrite Hrooms]].
      intros roomID w2 _ [Hf2 Hr2].
      apply wp_bind, wp_Client_CountParticipants.
      * intros e _. apply wp_ret. now split.
      * intros _. destruct (_ =? 0)%nat; [|apply wp_ret; now split].
        apply wp_bind, wp_Client_DeleteRoom;
          [intros e _; apply wp_ret; now split | |
           intros e Hf; rewrite Hnf in Hf; discriminate Hf].
        intros _. apply wp_ret. world_simpl. split.
        -- intros q Hq. apply Hf2. now apply participants_after_delete_room in Hq.
        -- intros r Hr. apply rooms_after_delete_room in Hr. apply Hr2, Hr.
Qed.

Lemma stale_rooms_removed (env : Env) (th : Time) (w : World) :
  (forall k, net_fails env k = false) ->
  (forall q, In q (participants (store w)) -> stale th q = false) ->
  wp (cleanupRooms env th)
     (fun _ w' =>
        (forall q, In q (participants (store w')) -> stale th q = false)
        /\ (forall r, In r (rooms (store w')) -> stale_room th r = false)) w.
Proof.
  intros Hnf Hfresh. unfold cleanupRooms, Client_GetInactiveRooms.
  apply wp_bind, wp_doRequest;
    [intros e Hf; rewrite Hnf in Hf; discriminate Hf
    |intros e _ He; discriminate He
    |
    |intros e st rs Hf; rewrite Hnf in Hf; discriminate Hf].
  - intros st rs _ Hsem. unfold sem_select_rooms in Hsem.
    injection Hsem as <- <-.
    replace (set_store (store w) w) with w by now destruct w.
    fold (stale_room th).
    set (rs := List.filter (stale_room th) (rooms (store w))).
    assert (Hrs : forall r, In r (rooms (store w)) -> stale_room th r = true ->
                            In r rs)
      by (intros r Hr Hs; apply filter_In; now split).
    destruct (Nat.eqb_spec (length rs) 0) as [H0|_].
    { apply wp_ret. split; [exact Hfresh|]. intros r Hr.
      destruct (stale_room th r) eqn:E; [|reflexivity].
      apply Hrs in Hr; [|exact E]. destruct rs; [destruct Hr | discriminate H0]. }
    set (w0 := after_call (StoreCall (OpGetInactiveRooms th) true) w).
    apply wp_mono
      with (Q := fun _ w' =>
                   ((forall q, In q (participants (store w')) -> stale th q = false)
                    /\ forall r, In r (rooms (store w')) -> In r (rooms (store w)))
                   /\ forall d, In d rs ->
                        forall r, In r (rooms (store w')) -> Room_ID r <> Room_ID d).
    + assert (H1 : wp (for_each rs (fun room =>
                         let* _ := Client_DeleteRoom env (Room_ID room) in ret tt))
                      (fun _ w' =>
                         (forall q, In q (participants (store w')) ->
                                    stale th q = false)
                         /\ forall r, In r (rooms (store w')) ->
                                      In r (rooms (store w))) w0).
      { apply (wp_for_each
                 (fun w' =>
                    (forall q, In q (participants (store w')) -> stale th q = false)
                    /\ forall r, In r (rooms (store w')) -> In r (rooms (store w))));
          [|split; [exact Hfresh | auto]].
        intros room w1 _ [Hf1 Hr1]. apply wp_bind, wp_Client_DeleteRoom;
          [intros e Hf; rewrite Hnf in Hf; discriminate Hf | |
           intros e Hf; rewrite Hnf in Hf; discriminate Hf].
        intros _. apply wp_ret. world_simpl. split.
        - intros q Hq. apply Hf1. now apply participants_after_delete_room in Hq.
        - intros r Hr. apply rooms_after_delete_room in Hr. apply Hr1, Hr. }
      assert (H2 : wp (for_each rs (fun room =>
                         let* _ := Client_DeleteRoom env (Room_ID room) in ret tt))
                      (fun _ w' =>
                         forall d, In d rs ->
                           forall r, In r (rooms (store w')) ->
                                     Room_ID r <> Room_ID d) w0).
      { apply (wp_for_each_visit
                 (fun d w' => forall r, In r (rooms (store w')) ->
                                        Room_ID r <> Room_ID d)).
        intros x y w1 Hxy. apply wp_bind, wp_Client_DeleteRoom;
          [intros e Hf; rewrite Hnf in Hf; discriminate Hf | |
           intros e Hf; rewrite Hnf in Hf; discriminate Hf].
        intros _. apply wp_ret. world_simpl.
        intros r Hr. apply rooms_after_delete_room in Hr.
        destruct Hr as [Hr Hne]. destruct Hxy as [<- | Hy]; [exact Hne | now apply Hy]. }
      unfold wp in *. split; [exact H1 | exact H2].
    + cbn beta. intros _ w' [[Hf' Hsub] Hgone]. split; [exact Hf'|].
      intros r Hr. destruct (stale_room th r) eqn:E; [|reflexivity].
      exfalso. apply (Hgone r (Hrs r (Hsub r Hr) E) r Hr). reflexivity.
Qed.


Lemma FormatRFC3339_gt (t : Time) : t - 1000000000 < FormatRFC3339 t.
Proof.
  unfold FormatRFC3339.
  pose proof (Z.mod_pos_bound t 1000000000 ltac:(lia)) as Hm.
  pose proof (Z.div_mod t 1000000000 ltac:(lia)) as Hd. lia.
Qed.

(** X6. When no request to the Session Store fails, a sweep leaves no
    participant and no room whose last activity is before the threshold of
    the sweep cut down to whole seconds, which is how the threshold is sent
    to the store; so every row it leaves was last active later than one
    second before the threshold. A row that is less than a second older than
    the threshold can stay. The threshold is the clock reading of the sweep
    plus the negation of the timeout as an [int64]. *)
Theorem sweep_removes_all_stale (env : Env) (s : CleanupService) (w : World) :
  (forall k, net_fails env k = false) ->
  let w' := snd (cleanup env s w) in
  let th := cleanup_threshold env s w in
  (forall q, In q (participants (store w')) ->
             FormatRFC3339 th <= Participant_LastActiveAt q
             /\ th - 1000000000 < Participant_LastActiveAt q)
  /\ (forall r, In r (rooms (store w')) ->
                FormatRFC3339 th <= Room_LastActiveAt r
                /\ th - 1000000000 < Room_LastActiveAt r).
Proof.
  intros Hnf. cbn zeta.
  assert (H : wp (cleanup env s)
                (fun _ w' =>
                   (forall q, In q (participants (store w')) ->
                              stale (cleanup_threshold env s w) q = false)
                   /\ (forall r, In r (rooms (store w')) ->
                                 stale_room (cleanup_threshold env s w) r = false))
                w).
  { unfold cleanup. apply wp_bind, wp_time_Now.
    fold (cleanup_threshold env s w). apply wp_bind.
    eapply wp_mono; [apply (stale_participants_removed env _ _ Hnf)|].
    cbn beta. intros ? w1 [Hfresh _].
    now apply stale_rooms_removed. }
  apply wp_run in H. destruct H as [Hp Hr].
  pose proof (FormatRFC3339_gt (cleanup_threshold env s w)) as Hgt.
  split.
  - intros q Hq. specialize (Hp q Hq). unfold stale, Before in Hp.
    apply Z.ltb_ge in Hp. lia.
  - intros r Hr'. specialize (Hr r Hr'). unfold stale_room, Before in Hr.
    apply Z.ltb_ge in Hr. lia.
Qed.

(** Ann was last active 0.3 s before the threshold of the sweep and stays;
    Ben is older and goes. *)
Lemma sweep_removes_all_stale_witness :
  let almost := mkParticipant "ann" "a1b2c3d4" "Ann" "fox" 6 700200000000 in
  let w := mkWorld (mkStore [live_standup] [almost; ben]) ∅ ∅ true ∅ [] O in
  let w' := snd (cleanup offbeat_env every_minute w) in
  let th := cleanup_threshold offbeat_env every_minute w in
  th = 700500000000
  /\ participants (store w') = [almost]
  /\ (forall q, In q (participants (store w')) ->
                FormatRFC3339 th <= Participant_LastActiveAt q
                /\ th - 1000000000 < Participant_LastActiveAt q)
  /\ (forall r, In r (rooms (store w')) ->
                FormatRFC3339 th <= Room_LastActiveAt r
                /\ th - 1000000000 < Room_LastActiveAt r).
Proof.
  intros almost w w' th.
  split; [reflexivity|]. split; [vm_compute; reflexivity|].
  apply (sweep_removes_all_stale offbeat_env every_minute w).
  intros k. reflexivity.
Defined.





(** *** The scheduler: one sweep per tick, none after Stop *)

Lemma sweep_count_app (e1 e2 : list Event) :
  sweep_count (e1 ++ e2) = (sweep_count e1 + sweep_count e2)%nat.
Proof. unfold sweep_count. now rewrite List.filter_app, length_app. Qed.

Lemma segmental_no_sweep : segmental (fun evs => sweep_count evs = O).
Proof.
  split; [reflexivity|]. intros e1 e2 H1 H2.
  rewrite sweep_count_app. lia.
Qed.

Lemma wp_bind_appended_sum {A B : Type} (n1 n2 : nat) (m : M A) (k : A -> M B)
    (w : World) :
  wp m (fun _ w1 => appended w (fun evs => sweep_count evs = n1) w1) w ->
  (forall a w1, wp (k a) (fun _ w2 => appended w1 (fun evs => sweep_count evs = n2) w2) w1) ->
  wp (bind m k) (fun _ w2 => appended w (fun evs => sweep_count evs = (n1 + n2)%nat) w2) w.
Proof.
  intros Hm Hk. apply wp_bind.
  eapply wp_mono; [exact Hm|]. cbn beta. intros a w1 H1.
  eapply wp_mono; [apply Hk|]. cbn beta. intros b w2 H2.
  eapply appended_seq; [exact H1 | exact H2|].
  cbn beta. intros e1 e2 He1 He2. rewrite sweep_count_app. lia.
Qed.

Lemma cleanup_is_one_sweep (env : Env) (s : CleanupService) (w : World) :
  wp (cleanup env s) (fun _ w' => appended w (fun evs => sweep_count evs = 1%nat) w') w.
Proof.
  assert (H0 := segmental_no_sweep).
  unfold cleanup.
  apply (wp_bind_appended_sum 0 1).
  { wp_exec. appended_explicit. reflexivity. }
  intros now w1. apply (wp_bind_appended_sum 1 0).
  - unfold cleanupParticipants. apply (wp_bind_appended_sum 1 0).
    { wp_exec; appended_explicit; reflexivity. }
    intros [e|ps] w2; [apply wp_ret, appended_refl; reflexivity|].
    destruct (length ps =? 0)%nat; [apply wp_ret, appended_refl; reflexivity|].
    apply wp_bind_appended; [exact H0| |].
    + apply wp_fold_each_appended; [exact H0|].
      intros s0 p w3. wp_exec; appended_explicit; reflexivity.
    + intros s0 w3. apply wp_for_each_appended; [exact H0|].
      intros roomID w4. wp_exec; appended_explicit; reflexivity.
  - intros _ w2. unfold cleanupRooms.
    apply wp_bind_appended; [exact H0| |].
    { wp_exec; appended_explicit; reflexivity. }
    intros [e|rs] w3; [apply wp_ret, appended_refl; reflexivity|].
    destruct (length rs =? 0)%nat; [apply wp_ret, appended_refl; reflexivity|].
    apply wp_for_each_appended; [exact H0|].
    intros room w4. wp_exec; appended_explicit; reflexivity.
Qed.

Lemma Start_sweeps_wp (env : Env) (s : CleanupService)
    (received : list SelectEvent) :
  forall w,
    wp (Start env s received)
       (fun _ w' =>
          appended w (fun evs => sweep_count evs = ticks_before_stop received) w') w.
Proof.
  induction received as [|[|] rest IH]; intros w; cbn [Start ticks_before_stop].
  - apply wp_ret, appended_refl. reflexivity.
  - apply (wp_bind_appended_sum 1 (ticks_before_stop rest)).
    + apply cleanup_is_one_sweep.
    + intros _ w1. apply IH.
  - apply wp_ret, appended_refl. reflexivity.
Qed.

(** X8. [Start] runs exactly one sweep for each tick it receives before the
    stop signal, and none for what it receives after: the number of sweeps
    begun during an execution is the number of ticks before the first stop,
    whatever fails during the sweeps. *)
Theorem Start_sweeps_once_per_tick (env : Env) (s : CleanupService)
    (received : list SelectEvent) (w : World) :
  sweep_count (events (Start env s received) w) = ticks_before_stop received.
Proof.
  apply (wp_events (Start env s received)
           (fun evs => sweep_count evs = ticks_before_stop received)).
  apply Start_sweeps_wp.
Qed.

(** *** The hub: consistency, and no panic *)

Lemma hub_ok_lookup (w : World) (roomID : string) (R : gset addr) (a : addr) :
  hub_ok w -> hub_rooms w !! roomID = Some R -> a ∈ R ->
  exists c, heap w !! a = Some c
            /\ chan_closed (Client_send c) = false
            /\ Client_RoomID c = roomID.
Proof. intros H. apply H. Qed.

(** Queueing a payload for a registered connection keeps the hub
    consistent. *)
Lemma hub_ok_delivered (w : World) (a : addr) (c : Client) (m : list byte) :
  hub_ok w -> heap w !! a = Some c ->
  hub_ok (set_heap (<[a := delivered m c]> (heap w)) w).
Proof.
  intros Hok Hc roomID R b HR Hb. cbn [hub_rooms set_heap] in HR.
  destruct (Hok roomID R b HR Hb) as (cb & Hcb & Hopen & Hroom).
  cbn [heap set_heap]. destruct (decide (a = b)) as [->|Hne].
  - rewrite lookup_insert_eq. exists (delivered m c).
    rewrite Hc in Hcb. injection Hcb as ->. repeat split; auto.
  - rewrite lookup_insert_ne by exact Hne. eauto.
Qed.

(** Dropping a connection of room [roomID] (out of the set, queue closed)
    keeps the hub consistent. *)
Lemma hub_ok_dropped (w : World) (roomID : string) (R : gset addr) (a : addr)
    (c : Client) :
  hub_ok w -> hub_rooms w !! roomID = Some R -> a ∈ R -> heap w !! a = Some c ->
  hub_ok (set_heap (<[a := closed_off c]> (heap w))
            (set_hub_rooms (<[roomID := R ∖ {[a]}]> (hub_rooms w)) w)).
Proof.
  intros Hok HR Ha Hc room' R' b HR' Hb.
  cbn [hub_rooms set_heap set_hub_rooms heap] in *.
  destruct (Hok roomID R a HR Ha) as (ca & Hca & _ & Hroom_a).
  assert (Hb_ne : b <> a).
  { intros ->. destruct (decide (room' = roomID)) as [->|Hne].
    - rewrite lookup_insert_eq in HR'. injection HR' as <-.
      apply elem_of_difference in Hb. destruct Hb as [_ Hn].
      apply Hn, elem_of_singleton. reflexivity.
    - rewrite lookup_insert_ne in HR' by auto.
      destruct (Hok room' R' a HR' Hb) as (ca' & Hca' & _ & Hroom').
      rewrite Hca in Hca'. injection Hca' as <-. congruence. }
  rewrite lookup_insert_ne by auto.
  destruct (decide (room' = roomID)) as [->|Hne].
  - rewrite lookup_insert_eq in HR'. injection HR' as <-.
    apply (Hok roomID R b HR). apply elem_of_difference in Hb. apply Hb.
  - rewrite lookup_insert_ne in HR' by auto. now apply (Hok room' R' b).
Qed.

Section FanOutAny.
Variable msg : BroadcastMessage.

(** The fan-out loop over connections of the room, from a consistent hub:
    it returns, keeps the hub consistent, serves each connection but the
    sender, and touches nothing else. *)
Lemma fan_out_any (l : list addr) :
  forall (w : World) (R : gset addr),
    NoDup l -> hub_ok w -> hub_rooms w !! Msg_RoomID msg = Some R ->
    (forall a, In a l -> a ∈ R) ->
    let r := fan_out msg l w in
    fst r = Returned
    /\ hub_ok (snd r)
    /\ (forall a, ~ In a l \/ Msg_Sender msg = Some a ->
          heap (snd r) !! a = heap w !! a)
    /\ (forall a c, In a l -> Msg_Sender msg <> Some a -> heap w !! a = Some c ->
          heap (snd r) !! a = Some (served (Msg_Message msg) c))
    /\ (exists R', hub_rooms (snd r) !! Msg_RoomID msg = Some R'
          /\ forall a, a ∈ R' <->
                a ∈ R /\ ~ (In a l /\ Msg_Sender msg <> Some a
                            /\ exists c, heap w !! a = Some c
                                         /\ queue_full c = true))
    /\ (forall roomID, roomID <> Msg_RoomID msg ->
          hub_rooms (snd r) !! roomID = hub_rooms w !! roomID).
Proof.
  induction l as [|a l IH]; intros w R Hnd Hok HR Hsub.
  - cbn. split; [reflexivity|]. split; [exact Hok|]. split; [reflexivity|].
    split; [intros ? ? []|]. split; [|reflexivity].
    exists R. split; [exact HR|]. intros a. split; [|tauto].
    intros Ha. split; [exact Ha|]. intros [[] _].
  - apply NoDup_cons in Hnd. destruct Hnd as [Hnotin Hnd].
    rewrite list_elem_of_In in Hnotin.
    assert (HaR : a ∈ R) by (apply Hsub; now left).
    destruct (Hok _ R a HR HaR) as (c & Hc & Hopen & Hroom).
    cbn [fan_out]. unfold bind.
    destruct (decide (Msg_Sender msg = Some a)) as [Hs|Hs].
    { rewrite (send_or_drop_sender msg a w Hs).
      destruct (IH w R Hnd Hok HR (fun b Hb => Hsub b (or_intror Hb)))
        as (H0 & H1 & H2 & H3 & (R' & HR' & HR'spec) & H5).
      split; [exact H0|]. split; [exact H1|]. split; [|split; [|split]].
      - intros b [Hb|Hb]; apply H2; [left; intros Hin; apply Hb; now right
                                     | now right].
      - intros b cb [->|Hb] Hsb; [contradiction|]. now apply H3.
      - exists R'. split; [exact HR'|]. intros b. rewrite HR'spec.
        split; intros [HbR Hn]; (split; [exact HbR|]); intros (Hin & Hsb & Hfull);
          apply Hn; (split; [|now split]).
        + destruct Hin as [->|Hin]; [contradiction | exact Hin].
        + now right.
      - exact H5. }
    destruct (queue_full c) eqn:Eq.
    + rewrite (send_or_drop_drops msg a c R w Hs Hc Hopen Eq HR).
      set (w1 := set_heap _ _).
      assert (Hok1 : hub_ok w1) by (subst w1; now apply hub_ok_dropped).
      assert (HR1 : hub_rooms w1 !! Msg_RoomID msg = Some (R ∖ {[a]}))
        by (subst w1; cbn; apply lookup_insert_eq).
      assert (Hheap1 : forall b, b <> a -> heap w1 !! b = heap w !! b)
        by (intros b Hb; subst w1; cbn; now rewrite lookup_insert_ne).
      assert (Hsub1 : forall b, In b l -> b ∈ R ∖ {[a]}).
      { intros b Hb. apply elem_of_difference. split; [apply Hsub; now right|].
        rewrite elem_of_singleton. intros ->. contradiction. }
      destruct (IH w1 _ Hnd Hok1 HR1 Hsub1)
        as (H0 & H1 & H2 & H3 & (R' & HR' & HR'spec) & H5).
      split; [exact H0|]. split; [exact H1|]. split; [|split; [|split]].
      * intros b [Hb|Hb].
        -- rewrite H2 by (left; intros Hin; apply Hb; now right).
           apply Hheap1. intros ->. apply Hb. now left.
        -- rewrite H2 by now right. apply Hheap1. intros ->. contradiction.
      * intros b cb [<-|Hb] Hsb Hcb.
        -- rewrite H2 by now left. subst w1. cbn.
           rewrite Hc in Hcb. injection Hcb as <-. unfold served. rewrite Eq.
           apply lookup_insert_eq.
        -- apply H3; auto. rewrite Hheap1; [exact Hcb|].
           intros ->. contradiction.
      * exists R'. split; [exact HR'|]. intros b. rewrite HR'spec.
        rewrite elem_of_difference, elem_of_singleton.
        split.
        -- intros [[HbR Hba] Hn]. split; [exact HbR|].
           intros ([->|Hin] & Hsb & cb & Hcb & Hfull); [contradiction|].
           apply Hn. split; [exact Hin|]. split; [exact Hsb|].
           exists cb. rewrite Hheap1 by exact Hba. now split.
        -- intros [HbR Hn]. assert (Hba : b <> a).
           { intros ->. apply Hn. split; [now left|]. split; [exact Hs|].
             exists c. now split. }
           split; [now split|].
           intros (Hin & Hsb & cb & Hcb & Hfull). apply Hn.
           split; [now right|]. split; [exact Hsb|].
           exists cb. rewrite <- Hheap1 by exact Hba. now split.
      * intros roomID Hne. rewrite H5 by exact Hne. subst w1. cbn.
        now rewrite lookup_insert_ne.
    + rewrite (send_or_drop_delivers msg a c w Hs Hc Hopen Eq).
      set (w1 := set_heap _ _).
      assert (Hok1 : hub_ok w1) by (subst w1; now apply hub_ok_delivered).
      assert (HR1 : hub_rooms w1 !! Msg_RoomID msg = Some R) by exact HR.
      assert (Hheap1 : forall b, b <> a -> heap w1 !! b = heap w !! b)
        by (intros b Hb; subst w1; cbn; now rewrite lookup_insert_ne).
      destruct (IH w1 _ Hnd Hok1 HR1 (fun b Hb => Hsub b (or_intror Hb)))
        as (H0 & H1 & H2 & H3 & (R' & HR' & HR'spec) & H5).
      split; [exact H0|]. split; [exact H1|]. split; [|split; [|split]].
      * intros b [Hb|Hb].
        -- rewrite H2 by (left; intros Hin; apply Hb; now right).
           apply Hheap1. intros ->. apply Hb. now left.
        -- rewrite H2 by now right. apply Hheap1. intros ->. contradiction.
      * intros b cb [<-|Hb] Hsb Hcb.
        -- rewrite H2 by now left. subst w1. cbn.
           rewrite Hc in Hcb. injection Hcb as <-. unfold served. rewrite Eq.
           apply lookup_insert_eq.
        -- apply H3; auto. rewrite Hheap1; [exact Hcb|].
           intros ->. contradiction.
      * exists R'. split; [exact HR'|]. intros b. rewrite HR'spec.
        split.
        -- intros [HbR Hn]. split; [exact HbR|].
           intros ([->|Hin] & Hsb & cb & Hcb & Hfull).
           ++ rewrite Hc in Hcb. injection Hcb as <-. congruence.
           ++ apply Hn. split; [exact Hin|]. split; [exact Hsb|].
              exists cb. rewrite Hheap1; [now split|].
              intros ->. contradiction.
        -- intros [HbR Hn]. split; [exact HbR|].
           intros (Hin & Hsb & cb & Hcb & Hfull). apply Hn.
           split; [now right|]. split; [exact Hsb|].
           exists cb. rewrite <- Hheap1; [now split|].
           intros ->. contradiction.
      * exact H5.
Qed.
End FanOutAny.

Lemma hub_ok_ext (w w' : World) :
  hub_rooms w' = hub_rooms w -> heap w' = heap w -> hub_ok w -> hub_ok w'.
Proof.
  intros Hr Hh Hok roomID R a. rewrite Hr, Hh. apply Hok.
Qed.

Lemma broadcastToRoom_any (env : Env) (msg : BroadcastMessage) (w : World) :
  Env_ok env -> hub_ok w ->
  let r := broadcastToRoom env msg w in
  let R := default ∅ (hub_rooms w !! Msg_RoomID msg) in
  fst r = Returned
  /\ hub_ok (snd r)
  /\ (forall a c, a ∈ R -> Msg_Sender msg <> Some a -> heap w !! a = Some c ->
        heap (snd r) !! a = Some (served (Msg_Message msg) c))
  /\ (forall a, a ∉ R \/ Msg_Sender msg = Some a ->
        heap (snd r) !! a = heap w !! a)
  /\ (forall a, a ∈ default ∅ (hub_rooms (snd r) !! Msg_RoomID msg) <->
        a ∈ R /\ ~ (Msg_Sender msg <> Some a
                    /\ exists c, heap w !! a = Some c /\ queue_full c = true))
  /\ (forall roomID, roomID <> Msg_RoomID msg ->
        hub_rooms (snd r) !! roomID = hub_rooms w !! roomID).
Proof.
  intros [_ Hrange] Hok. cbn zeta. unfold broadcastToRoom, bind.
  pose proof (storeMessageIfApplicable_hub env (Msg_RoomID msg) (Msg_Message msg) w)
    as [Hrooms0 Hheap0].
  destruct (storeMessageIfApplicable env (Msg_RoomID msg) (Msg_Message msg) w)
    as [u w0]. cbn [snd] in Hrooms0, Hheap0.
  assert (Hok0 : hub_ok w0) by now apply (hub_ok_ext w w0).
  destruct (hub_rooms w !! Msg_RoomID msg) as [R|] eqn:HR; cbn [default].
  - unfold id. set (l := range_clients env R).
    assert (Hin : forall a, In a l <-> a ∈ R).
    { intros a. rewrite <- list_elem_of_In. subst l. rewrite Hrange.
      apply elem_of_elements. }
    assert (Hnd : NoDup l) by (subst l; rewrite Hrange; apply NoDup_elements).
    assert (HR0 : hub_rooms w0 !! Msg_RoomID msg = Some R) by now rewrite Hrooms0.
    destruct (fan_out_any msg l w0 R Hnd Hok0 HR0 (fun a Ha => proj1 (Hin a) Ha))
      as (H0 & H1 & H2 & H3 & (R' & HR' & HR'spec) & H5).
    split; [exact H0|]. split; [exact H1|]. split; [|split; [|split]].
    + intros a c Ha Hs Hc. apply H3; [now apply Hin | exact Hs | now rewrite Hheap0].
    + intros a Ha. rewrite <- Hheap0. apply H2.
      destruct Ha as [Ha|Ha]; [left; now rewrite Hin | now right].
    + intros a. rewrite HR'. cbn [default]. rewrite HR'spec, Hheap0, Hin. tauto.
    + intros roomID Hne. rewrite H5 by exact Hne. now rewrite Hrooms0.
  - assert (Hl : range_clients env ∅ = []).
    { apply Permutation_nil_r. rewrite Hrange. now rewrite elements_empty. }
    rewrite Hl. cbn [fan_out ret fst snd].
    split; [reflexivity|]. split; [exact Hok0|]. split; [|split; [|split]].
    + intros a c Ha. apply not_elem_of_empty in Ha. destruct Ha.
    + intros a _. now rewrite Hheap0.
    + intros a. rewrite Hrooms0, HR. cbn [default]. split.
      * intros Ha. apply not_elem_of_empty in Ha. destruct Ha.
      * intros [Ha _]. exact Ha.
    + intros roomID _. now rewrite Hrooms0.
Qed.

(** X10. From a consistent hub, a broadcast to a room returns without
    panic and leaves the hub consistent, however many queues are full and in
    whatever order [range] visits the connections: every connection of the
    room but the sender either has the payload at the end of its queue or,
    if its queue was full, is out of the room's set with its queue closed;
    the sender, the connections of other rooms and the other rooms' sets are
    left as they were. *)
Theorem broadcast_serves_every_connection (env : Env) (msg : BroadcastMessage)
    (w : World) :
  Env_ok env -> hub_ok w ->
  let r := broadcastToRoom env msg w in
  let R := default ∅ (hub_rooms w !! Msg_RoomID msg) in
  fst r = Returned
  /\ hub_ok (snd r)
  /\ (forall a c, a ∈ R -> Msg_Sender msg <> Some a -> heap w !! a = Some c ->
        heap (snd r) !! a = Some (served (Msg_Message msg) c))
  /\ (forall a, a ∉ R \/ Msg_Sender msg = Some a ->
        heap (snd r) !! a = heap w !! a)
  /\ (forall a, a ∈ default ∅ (hub_rooms (snd r) !! Msg_RoomID msg) <->
        a ∈ R /\ ~ (Msg_Sender msg <> Some a
                    /\ exists c, heap w !! a = Some c /\ queue_full c = true))
  /\ (forall roomID, roomID <> Msg_RoomID msg ->
        hub_rooms (snd r) !! roomID = hub_rooms w !! roomID).
Proof. exact (broadcastToRoom_any env msg w). Qed.

Lemma hub_world_ok : hub_ok hub_world.
Proof.
  intros roomID R a HR Ha. cbn [hub_rooms hub_world] in HR.
  apply lookup_singleton_Some in HR. destruct HR as [<- <-].
  rewrite !elem_of_union, !elem_of_singleton in Ha.
  destruct Ha as [[-> | ->] | ->]; eexists; (split; [reflexivity|]); now split.
Qed.

Lemma broadcast_serves_every_connection_witness :
  let r := broadcastToRoom quiet_env (typing_from (Some 2%nat)) hub_world in
  fst r = Returned
  /\ heap (snd r) !! 1%nat = Some (closed_off saturated_client)
  /\ heap (snd r) !! 3%nat
     = Some (delivered [x68; x69] (NewClient "a1b2c3d4" "cat" "Cat" "cat")).
Proof.
  destruct (broadcast_serves_every_connection quiet_env (typing_from (Some 2%nat))
              hub_world quiet_env_ok hub_world_ok)
    as (H0 & _ & Hserved & _).
  split; [exact H0|]. split.
  - apply (Hserved 1%nat saturated_client); [|discriminate|reflexivity].
    change (1%nat ∈ ({[1%nat; 2%nat; 3%nat]} : gset addr)).
    rewrite !elem_of_union, !elem_of_singleton. tauto.
  - apply (Hserved 3%nat (NewClient "a1b2c3d4" "cat" "Cat" "cat"));
      [|discriminate|reflexivity].
    change (3%nat ∈ ({[1%nat; 2%nat; 3%nat]} : gset addr)).
    rewrite !elem_of_union, !elem_of_singleton. tauto.
Defined.

(** *** register and unregister *)

Lemma registerClient_run (a : addr) (c : Client) (w : World) :
  heap w !! a = Some c ->
  registerClient a w
  = (Returned,
     set_hub_rooms
       (<[Client_RoomID c := {[a]} ∪ default ∅ (hub_rooms w !! Client_RoomID c)]>
          (hub_rooms w)) w).
Proof. intros H. unfold registerClient. now rewrite H. Qed.

Lemma hub_ok_after_register (a : addr) (c : Client) (w : World) :
  hub_ok w -> heap w !! a = Some c -> chan_closed (Client_send c) = false ->
  hub_ok (snd (registerClient a w)).
Proof.
  intros Hok Hc Hopen. rewrite (registerClient_run a c w Hc). cbn [snd].
  intros roomID R b HR Hb. cbn [hub_rooms set_hub_rooms heap] in *.
  destruct (decide (roomID = Client_RoomID c)) as [->|Hne].
  - rewrite lookup_insert_eq in HR. injection HR as <-.
    apply elem_of_union in Hb. destruct Hb as [Hb|Hb].
    + apply elem_of_singleton in Hb. subst b. exists c. now repeat split.
    + destruct (hub_rooms w !! Client_RoomID c) as [R0|] eqn:E; cbn [default] in Hb.
      * now apply (Hok _ R0 b E).
      * apply not_elem_of_empty in Hb. destruct Hb.
  - rewrite lookup_insert_ne in HR by auto. now apply (Hok roomID R b).
Qed.

Lemma registered_after_register (a b : addr) (c : Client) (w : World) :
  heap w !! a = Some c -> b <> a ->
  registered (snd (registerClient a w)) b -> registered w b.
Proof.
  intros Hc Hne. rewrite (registerClient_run a c w Hc). cbn [snd].
  intros (roomID & R & HR & Hb). cbn [hub_rooms set_hub_rooms] in HR.
  destruct (decide (roomID = Client_RoomID c)) as [->|Hr].
  - rewrite lookup_insert_eq in HR. injection HR as <-.
    apply elem_of_union in Hb. destruct Hb as [Hb|Hb].
    + apply elem_of_singleton in Hb. contradiction.
    + destruct (hub_rooms w !! Client_RoomID c) as [R0|] eqn:E; cbn [default] in Hb.
      * exists (Client_RoomID c), R0. now split.
      * apply not_elem_of_empty in Hb. destruct Hb.
  - rewrite lookup_insert_ne in HR by auto. exists roomID, R. now split.
Qed.

(** [unregisterClient] for a connection that is in the set of its room. *)
Lemma unregisterClient_member (a : addr) (c : Client) (R : gset addr) (w : World) :
  heap w !! a = Some c -> chan_closed (Client_send c) = false ->
  hub_rooms w !! Client_RoomID c = Some R -> a ∈ R ->
  unregisterClient a w
  = (Returned,
     let w2 := set_heap (<[a := closed_off c]> (heap w))
                 (set_hub_rooms (<[Client_RoomID c := R ∖ {[a]}]> (hub_rooms w)) w) in
     if (size (R ∖ {[a]}) =? 0)%nat
     then set_hub_rooms (delete (Client_RoomID c) (hub_rooms w2)) w2
     else w2).
Proof.
  intros Hc Hopen HR Ha. unfold unregisterClient. rewrite Hc, HR.
  rewrite decide_True by exact Ha. unfold close_send.
  cbn [heap set_hub_rooms]. rewrite Hc, Hopen.
  now destruct (size (R ∖ {[a]}) =? 0)%nat.
Qed.

(** [unregisterClient] for a connection that is in no set. *)
Lemma unregisterClient_absent (a : addr) (c : Client) (w : World) :
  heap w !! a = Some c ->
  (forall R, hub_rooms w !! Client_RoomID c = Some R -> a ∉ R) ->
  unregisterClient a w = (Returned, w).
Proof.
  intros Hc Hno. unfold unregisterClient. rewrite Hc.
  destruct (hub_rooms w !! Client_RoomID c) as [R|] eqn:E; [|reflexivity].
  now rewrite decide_False by (apply Hno; reflexivity).
Qed.

Lemma hub_ok_delete_room (w : World) (roomID : string) :
  hub_ok w -> hub_ok (set_hub_rooms (delete roomID (hub_rooms w)) w).
Proof.
  intros Hok room' R b HR Hb. cbn [hub_rooms set_hub_rooms heap] in *.
  destruct (decide (roomID = room')) as [->|Hne].
  - rewrite lookup_delete_eq in HR. discriminate HR.
  - rewrite lookup_delete_ne in HR by auto. now apply (Hok room' R b).
Qed.

(** What [unregisterClient] does from a consistent hub. *)
Lemma unregisterClient_spec (a : addr) (c : Client) (w : World) :
  hub_ok w -> heap w !! a = Some c ->
  let r := unregisterClient a w in
  fst r = Returned
  /\ hub_ok (snd r)
  /\ ~ registered (snd r) a
  /\ (forall b, registered (snd r) b -> registered w b)
  /\ (forall b, b <> a -> heap (snd r) !! b = heap w !! b)
  /\ (registered w a -> heap (snd r) !! a = Some (closed_off c))
  /\ (~ registered w a -> snd r = w)
  /\ (forall roomID R, hub_rooms (snd r) !! roomID = Some R ->
        hub_rooms w !! roomID <> Some ∅ -> R <> ∅ \/ hub_rooms w !! roomID = Some R).
Proof.
  intros Hok Hc. cbn zeta.
  destruct (hub_rooms w !! Client_RoomID c) as [R|] eqn:HR.
  2:{ rewrite (unregisterClient_absent a c w Hc)
        by (intros R HR'; congruence). cbn [fst snd].
      assert (Hnot : ~ registered w a).
      { intros (room & R & HR' & Ha).
        destruct (Hok room R a HR' Ha) as (c' & Hc' & _ & Hroom).
        rewrite Hc in Hc'. injection Hc' as <-. congruence. }
      repeat split; auto. intros H. contradiction. }
  destruct (decide (a ∈ R)) as [Ha|Ha].
  2:{ rewrite (unregisterClient_absent a c w Hc)
        by (intros R' HR'; congruence). cbn [fst snd].
      assert (Hnot : ~ registered w a).
      { intros (room & R' & HR' & Ha').
        destruct (Hok room R' a HR' Ha') as (c' & Hc' & _ & Hroom).
        rewrite Hc in Hc'. injection Hc' as <-. congruence. }
      repeat split; auto. intros H. contradiction. }
  destruct (Hok _ R a HR Ha) as (c' & Hc' & Hopen & _).
  rewrite Hc in Hc'. injection Hc' as <-.
  rewrite (unregisterClient_member a c R w Hc Hopen HR Ha). cbn [fst snd].
  set (w2 := set_heap _ _).
  assert (Hok2 : hub_ok w2) by (subst w2; now apply hub_ok_dropped).
  assert (Hrooms2 : forall room' R', hub_rooms w2 !! room' = Some R' ->
            (room' = Client_RoomID c /\ R' = R ∖ {[a]})
            \/ (room' <> Client_RoomID c /\ hub_rooms w !! room' = Some R')).
  { intros room' R' H'. subst w2. cbn [hub_rooms set_heap set_hub_rooms] in H'.
    destruct (decide (room' = Client_RoomID c)) as [->|Hne].
    - rewrite lookup_insert_eq in H'. injection H' as <-. now left.
    - rewrite lookup_insert_ne in H' by auto. now right. }
  assert (Hnot2 : ~ registered w2 a).
  { intros (room' & R' & H' & Ha').
    destruct (Hrooms2 room' R' H') as [[-> ->] | [Hne H'']].
    - apply elem_of_difference in Ha'. destruct Ha' as [_ Hn].
      apply Hn, elem_of_singleton. reflexivity.
    - destruct (Hok room' R' a H'' Ha') as (c' & Hc' & _ & Hroom).
      rewrite Hc in Hc'. injection Hc' as <-. congruence. }
  assert (Hreg2 : forall b, registered w2 b -> registered w b).
  { intros b (room' & R' & H' & Hb).
    destruct (Hrooms2 room' R' H') as [[-> ->] | [Hne H'']].
    - exists (Client_RoomID c), R. split; [exact HR|].
      apply elem_of_difference in Hb. apply Hb.
    - exists room', R'. now split. }
  assert (Hheap2 : forall b, b <> a -> heap w2 !! b = heap w !! b)
    by (intros b Hb; subst w2; cbn; now rewrite lookup_insert_ne).
  assert (Hclosed2 : heap w2 !! a = Some (closed_off c))
    by (subst w2; cbn; apply lookup_insert_eq).
  assert (Hwas : registered w a) by (exists (Client_RoomID c), R; now split).
  destruct (Nat.eqb_spec (size (R ∖ {[a]})) 0) as [Hsz|Hsz].
  - split; [reflexivity|]. split; [now apply hub_ok_delete_room|].
    assert (Hsub : forall room' R',
              hub_rooms (set_hub_rooms (delete (Client_RoomID c) (hub_rooms w2)) w2)
                !! room' = Some R' ->
              room' <> Client_RoomID c /\ hub_rooms w2 !! room' = Some R').
    { intros room' R' H'. cbn [hub_rooms set_hub_rooms] in H'.
      destruct (decide (Client_RoomID c = room')) as [<-|Hne].
      - rewrite lookup_delete_eq in H'. discriminate H'.
      - rewrite lookup_delete_ne in H' by auto. split; [auto | exact H']. }
    split; [|split; [|split; [|split; [|split]]]].
    + intros (room' & R' & H' & Ha'). apply Hsub in H'. destruct H' as [_ H'].
      apply Hnot2. exists room', R'. now split.
    + intros b (room' & R' & H' & Hb). apply Hsub in H'. destruct H' as [_ H'].
      apply Hreg2. exists room', R'. now split.
    + exact Hheap2.
    + intros _. exact Hclosed2.
    + intros Hn. contradiction.
    + intros room' R' H' _. apply Hsub in H'. destruct H' as [Hne H'].
      destruct (Hrooms2 room' R' H') as [[-> _] | [_ H'']];
        [contradiction | now right].
  - split; [reflexivity|]. split; [exact Hok2|].
    split; [exact Hnot2|]. split; [exact Hreg2|]. split; [exact Hheap2|].
    split; [intros _; exact Hclosed2|]. split; [intros Hn; contradiction|].
    intros room' R' H' _.
    destruct (Hrooms2 room' R' H') as [[-> ->] | [_ H'']]; [|now right].
    left. intros Hempty. rewrite Hempty in Hsz. now rewrite size_empty in Hsz.
Qed.

Lemma registered_or_not (a : addr) (c : Client) (w : World) :
  hub_ok w -> heap w !! a = Some c -> registered w a \/ ~ registered w a.
Proof.
  intros Hok Hc.
  destruct (hub_rooms w !! Client_RoomID c) as [R|] eqn:HR.
  - destruct (decide (a ∈ R)) as [Ha|Ha].
    + left. exists (Client_RoomID c), R. now split.
    + right. intros (room & R' & HR' & Ha').
      destruct (Hok room R' a HR' Ha') as (c' & Hc' & _ & Hroom).
      rewrite Hc in Hc'. injection Hc' as <-. congruence.
  - right. intros (room & R' & HR' & Ha').
    destruct (Hok room R' a HR' Ha') as (c' & Hc' & _ & Hroom).
    rewrite Hc in Hc'. injection Hc' as <-. congruence.
Qed.

(** X11. [unregisterClient] is idempotent and closes the queue once: from a
    consistent hub, unregistering a connection returns without panic,
    leaves the hub consistent and the connection in no room's set, with its
    queue closed if it was registered; a second call returns and changes
    nothing. The hub keeps no entry for an emptied room. *)
Theorem unregister_is_idempotent (a : addr) (c : Client) (w : World) :
  hub_ok w -> heap w !! a = Some c ->
  let r1 := unregisterClient a w in
  let r2 := unregisterClient a (snd r1) in
  fst r1 = Returned /\ fst r2 = Returned /\ snd r2 = snd r1
  /\ hub_ok (snd r1)
  /\ ~ registered (snd r1) a
  /\ (registered w a -> heap (snd r1) !! a = Some (closed_off c))
  /\ (no_empty_room w -> no_empty_room (snd r1)).
Proof.
  intros Hok Hc r1 r2.
  destruct (unregisterClient_spec a c w Hok Hc)
    as (H0 & Hok1 & Hnot & _ & _ & Hclosed & Hsame & Hne).
  fold r1 in H0, Hok1, Hnot, Hclosed, Hsame, Hne.
  assert (Hc1 : exists c1, heap (snd r1) !! a = Some c1).
  { destruct (registered_or_not a c w Hok Hc) as [Hr|Hr].
    - exists (closed_off c). now apply Hclosed.
    - exists c. now rewrite (Hsame Hr). }
  destruct Hc1 as [c1 Hc1].
  destruct (unregisterClient_spec a c1 (snd r1) Hok1 Hc1)
    as (H0' & _ & _ & _ & _ & _ & Hsame' & _).
  fold r2 in H0', Hsame'.
  split; [exact H0|]. split; [exact H0'|]. split; [now apply Hsame'|].
  split; [exact Hok1|]. split; [exact Hnot|]. split; [exact Hclosed|].
  intros Hnon roomID R HR.
  destruct (Hne roomID R HR) as [Hr | Hr]; [|exact Hr|now apply (Hnon roomID)].
  intros Hempty. now apply (Hnon roomID ∅).
Qed.

Lemma unregister_is_idempotent_witness :
  let r1 := unregisterClient 3%nat hub_world in
  let r2 := unregisterClient 3%nat (snd r1) in
  fst r1 = Returned /\ fst r2 = Returned /\ snd r2 = snd r1
  /\ hub_ok (snd r1)
  /\ ~ registered (snd r1) 3%nat
  /\ (registered hub_world 3%nat ->
      heap (snd r1) !! 3%nat
      = Some (closed_off (NewClient "a1b2c3d4" "cat" "Cat" "cat")))
  /\ (no_empty_room hub_world -> no_empty_room (snd r1)).
Proof.
  apply (unregister_is_idempotent 3%nat (NewClient "a1b2c3d4" "cat" "Cat" "cat")
           hub_world hub_world_ok).
  reflexivity.
Defined.

(** X12. [registerClient] puts the connection in the set of its room,
    creating the entry if the room had none: the room's connection count
    grows by one when the connection was not in the set and stays the same
    when it was; the other rooms and the connections themselves are left as
    they were, and a consistent hub stays consistent when the queue of the
    connection is open. *)
Theorem register_adds_connection (a : addr) (c : Client) (w : World) :
  heap w !! a = Some c ->
  let r := registerClient a w in
  let R := default ∅ (hub_rooms w !! Client_RoomID c) in
  fst r = Returned
  /\ hub_rooms (snd r) !! Client_RoomID c = Some ({[a]} ∪ R)
  /\ GetRoomClientCount (snd r) (Client_RoomID c)
     = (if decide (a ∈ R) then size R else S (size R))
  /\ (forall roomID, roomID <> Client_RoomID c ->
        hub_rooms (snd r) !! roomID = hub_rooms w !! roomID)
  /\ heap (snd r) = heap w
  /\ (hub_ok w -> chan_closed (Client_send c) = false -> hub_ok (snd r))
  /\ (no_empty_room w -> no_empty_room (snd r)).
Proof.
  intros Hc. cbn zeta.
  pose proof (hub_ok_after_register a c w) as Hok'.
  rewrite (registerClient_run a c w Hc) in *. cbn [fst snd].
  set (R := default ∅ (hub_rooms w !! Client_RoomID c)).
  assert (Hlook : hub_rooms
                    (set_hub_rooms (<[Client_RoomID c := {[a]} ∪ R]> (hub_rooms w)) w)
                    !! Client_RoomID c = Some ({[a]} ∪ R))
    by (cbn; apply lookup_insert_eq).
  split; [reflexivity|]. split; [exact Hlook|]. split; [|split; [|split; [|split]]].
  - unfold GetRoomClientCount. rewrite Hlook. cbn [default]. unfold id.
    destruct (decide (a ∈ R)) as [Ha|Ha].
    + f_equal. apply leibniz_equiv, subseteq_union_1. now apply singleton_subseteq_l.
    + rewrite size_union by (apply disjoint_singleton_l; exact Ha).
      now rewrite size_singleton.
  - intros roomID Hne. cbn. now rewrite lookup_insert_ne.
  - reflexivity.
  - intros Hok Hopen. now apply Hok'.
  - intros Hnon roomID R' HR'. cbn [hub_rooms set_hub_rooms] in HR'.
    destruct (decide (roomID = Client_RoomID c)) as [->|Hne].
    + rewrite lookup_insert_eq in HR'. injection HR' as <-.
      intros Hempty. assert (Ha : a ∈ ({[a]} ∪ R)).
      { apply elem_of_union. left. now apply elem_of_singleton. }
      rewrite Hempty in Ha. now apply not_elem_of_empty in Ha.
    + rewrite lookup_insert_ne in HR' by auto. now apply (Hnon roomID).
Qed.

Lemma register_adds_connection_witness :
  GetRoomClientCount
    (snd (registerClient 1%nat
            (set_heap {[1%nat := NewClient "a1b2c3d4" "ann" "Ann" "fox"]} empty_world)))
    "a1b2c3d4" = 1%nat.
Proof.
  assert (Hc : heap (set_heap {[1%nat := NewClient "a1b2c3d4" "ann" "Ann" "fox"]}
                       empty_world) !! 1%nat
               = Some (NewClient "a1b2c3d4" "ann" "Ann" "fox"))
    by (cbn; apply lookup_singleton_eq).
  destruct (register_adds_connection 1%nat (NewClient "a1b2c3d4" "ann" "Ann" "fox")
              (set_heap {[1%nat := NewClient "a1b2c3d4" "ann" "Ann" "fox"]} empty_world)
              Hc)
    as (_ & _ & Hcount & _).
  exact Hcount.
Defined.

(** X13. Registering a connection that is in no set, with an open queue,
    and then unregistering it returns without panic, leaves the queue of the
    connection closed, and gives back the room map of the hub as it was,
    but for one case: an entry of the connection's room that held an empty
    set, as a broadcast can leave it, is not restored but deleted. In
    particular the map is given back exactly when the hub kept no empty
    entry. *)
Theorem register_then_unregister (a : addr) (c : Client) (w : World) :
  heap w !! a = Some c -> chan_closed (Client_send c) = false ->
  ~ registered w a ->
  let w1 := snd (registerClient a w) in
  let r := unregisterClient a w1 in
  fst r = Returned
  /\ heap (snd r) = <[a := closed_off c]> (heap w)
  /\ hub_rooms (snd r)
     = (if decide (hub_rooms w !! Client_RoomID c = Some ∅)
        then delete (Client_RoomID c) (hub_rooms w)
        else hub_rooms w)
  /\ (no_empty_room w -> hub_rooms (snd r) = hub_rooms w).
Proof.
  intros Hc Hopen Hnot. cbn zeta.
  rewrite (registerClient_run a c w Hc). cbn [snd].
  set (R := default ∅ (hub_rooms w !! Client_RoomID c)).
  set (w1 := set_hub_rooms _ w).
  assert (HaR : a ∉ R).
  { intros Ha. apply Hnot. subst R.
    destruct (hub_rooms w !! Client_RoomID c) as [R0|] eqn:E; cbn [default] in Ha.
    - exists (Client_RoomID c), R0. now split.
    - now apply not_elem_of_empty in Ha. }
  assert (HR1 : hub_rooms w1 !! Client_RoomID c = Some ({[a]} ∪ R))
    by (subst w1; cbn; apply lookup_insert_eq).
  assert (Ha1 : a ∈ ({[a]} ∪ R))
    by (apply elem_of_union; left; now apply elem_of_singleton).
  rewrite (unregisterClient_member a c ({[a]} ∪ R) w1 Hc Hopen HR1 Ha1).
  cbn [fst snd].
  assert (Hdiff : ({[a]} ∪ R) ∖ {[a]} = R).
  { apply set_eq. intros b.
    rewrite elem_of_difference, elem_of_union, elem_of_singleton.
    split; [intros [[->|Hb] Hn]; [contradiction | exact Hb]|].
    intros Hb. split; [now right|]. intros ->. contradiction. }
  rewrite Hdiff. split; [reflexivity|]. subst w1.
  assert (Hgiven : no_empty_room w ->
            (if decide (hub_rooms w !! Client_RoomID c = Some ∅)
             then delete (Client_RoomID c) (hub_rooms w)
             else hub_rooms w) = hub_rooms w).
  { intros Hnon.
    destruct (decide (hub_rooms w !! Client_RoomID c = Some ∅)) as [He|_];
      [|reflexivity].
    exfalso. now apply (Hnon _ ∅ He). }
  destruct (Nat.eqb_spec (size R) 0) as [Hs|Hs];
    cbn [hub_rooms heap set_heap set_hub_rooms];
    (split; [reflexivity|]); rewrite insert_insert_eq;
    match goal with
    | |- ?lhs = ?rhs /\ _ =>
        assert (Hrooms : lhs = rhs); [|split; [exact Hrooms|];
                                       intros Hnon; rewrite Hrooms; now apply Hgiven]
    end.
  - (* the set of the room was empty, or the room had no entry *)
    apply size_empty_inv, leibniz_equiv in Hs. rewrite delete_insert_eq.
    subst R. destruct (hub_rooms w !! Client_RoomID c) as [R0|] eqn:E;
      cbn [default] in Hs; unfold id in Hs.
    + rewrite decide_True by congruence. reflexivity.
    + rewrite decide_False by discriminate. now apply delete_id.
  - (* the room had other connections *)
    subst R. destruct (hub_rooms w !! Client_RoomID c) as [R0|] eqn:E;
      cbn [default] in *; unfold id in *.
    + rewrite decide_False.
      * now apply insert_id.
      * intros Heq. injection Heq as ->. apply Hs, size_empty.
    + exfalso. apply Hs, size_empty.
Qed.

(** From the hub that a broadcast to one saturated connection has left:
    the entry of the room, emptied, is deleted by the round trip. *)
Lemma register_then_unregister_witness :
  let w := mkWorld (mkStore [] []) ∅
             {["a1b2c3d4"%string := (∅ : gset addr)]} true
             {[1%nat := NewClient "a1b2c3d4" "ann" "Ann" "fox"]} [] O in
  let r := unregisterClient 1%nat (snd (registerClient 1%nat w)) in
  fst r = Returned
  /\ heap (snd r)
     = <[1%nat := closed_off (NewClient "a1b2c3d4" "ann" "Ann" "fox")]> (heap w)
  /\ hub_rooms (snd r)
     = (if decide (hub_rooms w !! "a1b2c3d4"%string = Some ∅)
        then delete "a1b2c3d4"%string (hub_rooms w)
        else hub_rooms w)
  /\ (no_empty_room w -> hub_rooms (snd r) = hub_rooms w).
Proof.
  intros w.
  apply (register_then_unregister 1%nat (NewClient "a1b2c3d4" "ann" "Ann" "fox") w).
  - cbn. apply lookup_singleton_eq.
  - reflexivity.
  - intros (roomID & R & HR & Ha). cbn in HR.
    apply lookup_singleton_Some in HR. destruct HR as [_ <-].
    now apply not_elem_of_empty in Ha.
Defined.

(** *** The event loop of the hub *)

Lemma registerClient_frame (a : addr) (c : Client) (w : World) :
  heap w !! a = Some c ->
  hub_frame w (snd (registerClient a w)) (Some a).
Proof.
  intros Hc. split.
  - intros b Hb. now rewrite (registerClient_run a c w Hc).
  - intros b Hnot Hne. split.
    + intros Hreg. apply Hnot.
      apply (registered_after_register a b c w Hc); [congruence | exact Hreg].
    + now rewrite (registerClient_run a c w Hc).
Qed.

Lemma unregisterClient_frame (a : addr) (c : Client) (w : World) :
  hub_ok w -> heap w !! a = Some c ->
  hub_frame w (snd (unregisterClient a w)) None.
Proof.
  intros Hok Hc.
  destruct (unregisterClient_spec a c w Hok Hc)
    as (_ & _ & _ & Hreg & Hheap & Hclosed & Hsame & _).
  split.
  - intros b Hb. destruct (decide (b = a)) as [->|Hne].
    + destruct (registered_or_not a c w Hok Hc) as [Hr|Hr].
      * rewrite (Hclosed Hr). eauto.
      * now rewrite (Hsame Hr).
    + now rewrite (Hheap b Hne).
  - intros b Hnot _. split.
    + intros Hr. apply Hnot, Hreg, Hr.
    + destruct (decide (b = a)) as [->|Hne].
      * now rewrite (Hsame Hnot).
      * now apply Hheap.
Qed.

Lemma broadcastToRoom_frame (env : Env) (msg : BroadcastMessage) (w : World) :
  Env_ok env -> hub_ok w ->
  hub_frame w (snd (broadcastToRoom env msg w)) None.
Proof.
  intros Henv Hok.
  destruct (broadcastToRoom_any env msg w Henv Hok)
    as (_ & _ & Hserved & Hsame & Hset & Hother).
  split.
  - intros b Hb.
    destruct (decide (b ∈ default ∅ (hub_rooms w !! Msg_RoomID msg))) as [Hin|Hin];
      [destruct (decide (Msg_Sender msg = Some b)) as [Hs|Hs]|].
    + rewrite Hsame by now right. exact Hb.
    + destruct Hb as [c Hc]. rewrite (Hserved b c Hin Hs Hc). eauto.
    + rewrite Hsame by now left. exact Hb.
  - intros b Hnot _.
    assert (Hout : b ∉ default ∅ (hub_rooms w !! Msg_RoomID msg)).
    { intros Hin. apply Hnot.
      destruct (hub_rooms w !! Msg_RoomID msg) as [R|] eqn:E; cbn [default] in Hin.
      - exists (Msg_RoomID msg), R. now split.
      - now apply not_elem_of_empty in Hin. }
    split; [|apply Hsame; now left].
    intros (roomID & R & HR & Hb).
    destruct (decide (roomID = Msg_RoomID msg)) as [->|Hne].
    + apply Hout. apply (Hset b). rewrite HR. exact Hb.
    + apply Hnot. exists roomID, R. split; [|exact Hb].
      now rewrite <- (Hother roomID Hne).
Qed.

(** The connections still to be registered are allocated, out of every
    set, with an open queue; those to be unregistered are allocated. *)
Lemma Run_returns (env : Env) (evs : list HubEvent) :
  Env_ok env ->
  forall w,
  hub_ok w ->
  NoDup (registrations evs) ->
  (forall a, In a (registrations evs) ->
     ~ registered w a
     /\ exists c, heap w !! a = Some c /\ chan_closed (Client_send c) = false) ->
  (forall a, In a (unregistrations evs) -> is_Some (heap w !! a)) ->
  fst (Run env evs w) = Returned /\ hub_ok (snd (Run env evs w)).
Proof.
  intros Henv. induction evs as [|ev rest IH]; intros w Hok Hnd Hreg Hun.
  - now split.
  - assert (Hstep : forall (m : M outcome) except,
              fst (m w) = Returned -> hub_ok (snd (m w)) ->
              hub_frame w (snd (m w)) except ->
              NoDup (registrations rest) ->
              (forall a, In a (registrations rest) ->
                 except <> Some a /\ In a (registrations (ev :: rest))) ->
              (forall a, In a (unregistrations rest) ->
                 In a (unregistrations (ev :: rest))
                 \/ In a (registrations (ev :: rest))) ->
              let r := (let* o := m in
                        match o with
                        | Panicked why => ret (Panicked why)
                        | Returned => Run env rest
                        end) w in
              fst r = Returned /\ hub_ok (snd r)).
    { intros m except H0 H1 [Halloc Hframe] Hnd' Hsub Hsub'. cbn zeta.
      unfold bind. destruct (m w) as [o w1]. cbn [fst snd] in *. subst o.
      apply IH; [exact H1 | exact Hnd' | |].
      - intros a Ha. destruct (Hsub a Ha) as [Hex Hin].
        destruct (Hreg a Hin) as [Hnot (c & Hc & Hopen)].
        destruct (Hframe a Hnot Hex) as [Hnot1 Hheap1].
        split; [exact Hnot1|]. exists c. now rewrite Hheap1.
      - intros a Ha. apply Halloc.
        destruct (Hsub' a Ha) as [Hin|Hin]; [now apply Hun|].
        destruct (Hreg a Hin) as [_ (c & Hc & _)]. rewrite Hc. eauto. }
    destruct ev as [a|a|msg]; cbn [Run].
    + cbn [registrations] in Hnd, Hreg. apply NoDup_cons in Hnd.
      destruct Hnd as [Hfresh Hnd].
      destruct (Hreg a (or_introl eq_refl)) as [Hnot (c & Hc & Hopen)].
      apply (Hstep (registerClient a) (Some a)).
      * now rewrite (registerClient_run a c w Hc).
      * now apply (hub_ok_after_register a c w).
      * now apply (registerClient_frame a c w).
      * exact Hnd.
      * intros b Hb. split; [|cbn [registrations]; now right].
        intros E. injection E as ->. apply Hfresh. now apply list_elem_of_In.
      * intros b Hb. now left.
    + destruct (Hun a (or_introl eq_refl)) as [c Hc].
      destruct (unregisterClient_spec a c w Hok Hc) as (H0 & H1 & _).
      apply (Hstep (unregisterClient a) None).
      * exact H0.
      * exact H1.
      * now apply (unregisterClient_frame a c w).
      * exact Hnd.
      * intros b Hb. split; [discriminate | exact Hb].
      * intros b Hb. left. cbn [unregistrations]. now right.
    + destruct (broadcastToRoom_any env msg w Henv Hok) as (H0 & H1 & _).
      apply (Hstep (broadcastToRoom env msg) None).
      * exact H0.
      * exact H1.
      * now apply broadcastToRoom_frame.
      * exact Hnd.
      * intros b Hb. split; [discriminate | exact Hb].
      * intros b Hb. now left.
Qed.

(** X14. The event loop of the hub never panics and keeps the hub
    consistent, whatever the order of the events, when every connection is
    registered at most once and before it is in any set, with its queue
    open, and every connection unregistered exists: no queue is closed
    twice and nothing is sent on a closed queue. *)
Theorem hub_loop_never_panics (env : Env) (evs : list HubEvent) (w : World) :
  Env_ok env ->
  hub_ok w ->
  NoDup (registrations evs) ->
  (forall a, In a (registrations evs) ->
     ~ registered w a
     /\ exists c, heap w !! a = Some c /\ chan_closed (Client_send c) = false) ->
  (forall a, In a (unregistrations evs) -> is_Some (heap w !! a)) ->
  fst (Run env evs w) = Returned /\ hub_ok (snd (Run env evs w)).
Proof. intros Henv. now apply Run_returns. Qed.

Lemma hub_loop_never_panics_witness :
  let w := set_heap {[1%nat := NewClient "a1b2c3d4" "ann" "Ann" "fox"]} empty_world in
  let evs := [RegisterEv 1%nat; BroadcastEv (typing_from None);
              UnregisterEv 1%nat; UnregisterEv 1%nat] in
  fst (Run quiet_env evs w) = Returned /\ hub_ok (snd (Run quiet_env evs w)).
Proof.
  intros w evs.
  assert (Hc : heap w !! 1%nat = Some (NewClient "a1b2c3d4" "ann" "Ann" "fox"))
    by (cbn; apply lookup_singleton_eq).
  apply (hub_loop_never_panics quiet_env evs w).
  - split; intros s; reflexivity.
  - intros roomID R a HR. cbn in HR. rewrite lookup_empty in HR. discriminate HR.
  - cbn. apply NoDup_cons. split; [apply not_elem_of_nil | apply NoDup_nil_2].
  - intros a [<- | []]. split.
    + intros (roomID & R & HR & _). cbn in HR. rewrite lookup_empty in HR.
      discriminate HR.
    + exists (NewClient "a1b2c3d4" "ann" "Ann" "fox"). split; [exact Hc | reflexivity].
  - intros a [<- | [<- | []]]; exists (NewClient "a1b2c3d4" "ann" "Ann" "fox");
      exact Hc.
Defined.

(** *** The message log and the hub *)

Lemma close_send_messages (a : addr) (w : World) :
  messages (snd (close_send a w)) = messages w.
Proof.
  unfold close_send. destruct (heap w !! a) as [c|]; [|reflexivity].
  now destruct (chan_closed (Client_send c)).
Qed.

Lemma send_or_drop_messages (msg : BroadcastMessage) (a : addr) (w : World) :
  messages (snd (send_or_drop msg a w)) = messages w.
Proof.
  unfold send_or_drop.
  destruct (decide (Msg_Sender msg = Some a)); [reflexivity|].
  destruct (heap w !! a) as [c|]; [|reflexivity].
  destruct (chan_closed (Client_send c)); [reflexivity|].
  destruct (length (chan_buf (Client_send c)) <? chan_cap (Client_send c))%nat;
    [reflexivity|].
  destruct (hub_rooms w !! Msg_RoomID msg) as [R|]; [|reflexivity].
  now rewrite close_send_messages.
Qed.

Lemma fan_out_messages (msg : BroadcastMessage) (l : list addr) :
  forall w, messages (snd (fan_out msg l w)) = messages w.
Proof.
  induction l as [|a l IH]; intros w; [reflexivity|].
  cbn [fan_out]. unfold bind.
  pose proof (send_or_drop_messages msg a w) as H.
  destruct (send_or_drop msg a w) as [[|why] w1]; cbn [snd] in H.
  - now rewrite IH.
  - exact H.
Qed.

(** X15. A broadcast persists chat messages only, and once: when the hub
    has a message service and the frame is a chat message, one message is
    appended to the log of the room, with the sender, content, name, avatar
    and reply context of the payload but an identifier and a timestamp
    assigned by the server; in every other case the log is left as it was.
    The logs of the other rooms are never touched, and the fan-out to the
    connections, complete or not, changes nothing of the log. *)
Theorem broadcast_persists_chat_only (env : Env) (msg : BroadcastMessage)
    (w : World) :
  let r := broadcastToRoom env msg w in
  (forall other, other <> Msg_RoomID msg ->
     messages (snd r) !! other = messages w !! other)
  /\ match (if hub_messageService w then chat_payload env (Msg_Message msg)
            else None) with
     | None => messages (snd r) = messages w
     | Some pl =>
         log_of (snd r) (Msg_RoomID msg)
         = log_of w (Msg_RoomID msg)
           ++ [mkMessage (uuid_at env (tick w)) (Msg_RoomID msg)
                 (Payload_ParticipantID pl) (Payload_Content pl)
                 (Payload_Username pl) (Payload_Avatar pl)
                 (now_at env (S (tick w))) (Payload_ReplyTo pl)]
     end.
Proof.
  cbn zeta. unfold broadcastToRoom, bind.
  destruct (storeMessageIfApplicable env (Msg_RoomID msg) (Msg_Message msg) w)
    as [u w0] eqn:E.
  rewrite fan_out_messages. unfold log_of. rewrite fan_out_messages.
  unfold storeMessageIfApplicable, chat_payload in *.
  destruct (hub_messageService w); cbn [negb] in E.
  2:{ injection E as _ <-. now split. }
  destruct (json_ws env (Msg_Message msg)) as [[type payload]|].
  2:{ injection E as _ <-. now split. }
  destruct (String.eqb type "message"); cbn [negb] in E.
  2:{ injection E as _ <-. now split. }
  destruct (json_payload env payload) as [pl|].
  2:{ injection E as _ <-. now split. }
  cbn in E. injection E as _ <-. cbn [messages set_messages step tick]. split.
  - intros other Hne. now rewrite lookup_insert_ne.
  - now rewrite lookup_insert_eq.
Qed.

(** *** The log under a sequence of sends *)

Lemma log_of_after_send (env : Env) (roomID other : string)
    (req : SendMessageRequest) (w : World) :
  log_of (snd (SendMessage env roomID req w)) other
  = log_of w other
    ++ List.filter (in_room other) [fst (SendMessage env roomID req w)].
Proof.
  unfold log_of. cbn. unfold in_room. cbn [Message_RoomID].
  destruct (String.eqb_spec roomID other) as [->|Hne].
  - now rewrite lookup_insert_eq.
  - rewrite lookup_insert_ne by exact Hne. now rewrite app_nil_r.
Qed.

Lemma send_each_log (env : Env) (reqs : list (string * SendMessageRequest))
    (roomID : string) :
  forall w,
    log_of (snd (send_each env reqs w)) roomID
    = log_of w roomID ++ List.filter (in_room roomID) (fst (send_each env reqs w)).
Proof.
  induction reqs as [|[room req] rest IH]; intros w.
  - cbn. now rewrite app_nil_r.
  - cbn [send_each]. unfold bind.
    pose proof (log_of_after_send env room roomID req w) as Hone.
    destruct (SendMessage env room req w) as [m w1]. cbn [fst snd] in Hone.
    specialize (IH w1).
    destruct (send_each env rest w1) as [ms w2]. cbn [fst snd ret] in *.
    rewrite IH, Hone, <- app_assoc. f_equal.
    cbn [List.filter]. now destruct (in_room roomID m).
Qed.

Lemma send_each_fields (env : Env) (reqs : list (string * SendMessageRequest)) :
  forall w,
    map (fun m => (Message_RoomID m,
                   mkSendMessageRequest (Message_ParticipantID m) (Message_Content m)
                     (Message_Username m) (Message_Avatar m) (Message_ReplyTo m)))
        (fst (send_each env reqs w))
    = reqs.
Proof.
  induction reqs as [|[room req] rest IH]; intros w; [reflexivity|].
  cbn [send_each]. unfold bind.
  destruct (SendMessage env room req w) as [m w1] eqn:E.
  specialize (IH w1).
  destruct (send_each env rest w1) as [ms w2]. cbn [fst snd ret map] in *.
  rewrite IH. f_equal. cbn in E. injection E as <- _. cbn. now destruct req.
Qed.

Lemma GetMessages_all (msgs : gmap string (list Message)) (roomID : string) :
  GetMessages msgs roomID 0 = default [] (msgs !! roomID).
Proof. unfold GetMessages. now destruct (msgs !! roomID). Qed.

(** X16. The log is append-only and kept per room: after any sequence of
    sends, to whatever rooms, reading a room without [after] gives what the
    room held before followed by the messages sent to that room, in the
    order of the sends; each message carries the room and the fields of its
    request; and the count of the room grows by the number of messages sent
    to it. *)
Theorem log_keeps_order_per_room (env : Env)
    (reqs : list (string * SendMessageRequest)) (roomID : string) (w : World) :
  let r := send_each env reqs w in
  let sent := List.filter (in_room roomID) (fst r) in
  GetMessages (messages (snd r)) roomID 0 = GetMessages (messages w) roomID 0 ++ sent
  /\ map (fun m => (Message_RoomID m,
                    mkSendMessageRequest (Message_ParticipantID m) (Message_Content m)
                      (Message_Username m) (Message_Avatar m) (Message_ReplyTo m)))
         (fst r) = reqs
  /\ GetMessageCount (messages (snd r)) roomID
     = (GetMessageCount (messages w) roomID + length sent)%nat.
Proof.
  cbn zeta. rewrite !GetMessages_all. unfold GetMessageCount.
  pose proof (send_each_log env reqs roomID w) as H. unfold log_of in H.
  rewrite H, length_app. split; [reflexivity|]. split; [|reflexivity].
  apply send_each_fields.
Qed.

(** *** Polling *)

Lemma chronological_filter_all (t : Time) (l : list Message) (m : Message) :
  (t <? Message_Timestamp m) = true ->
  forallb (fun m' => Message_Timestamp m <=? Message_Timestamp m') l = true ->
  List.filter (fun m' => t <? Message_Timestamp m') l = l.
Proof.
  intros Hm. induction l as [|x l IH]; [reflexivity|].
  cbn [forallb List.filter]. intros H. apply andb_prop in H. destruct H as [Hx Hl].
  assert (Ht : (t <? Message_Timestamp x) = true) by lia.
  rewrite Ht. f_equal. now apply IH.
Qed.

Lemma chronological_filter (t : Time) (l : list Message) :
  chronological l = true ->
  exists k, List.filter (fun m => t <? Message_Timestamp m) l = drop k l.
Proof.
  induction l as [|m l IH]; intros H.
  - now exists O.
  - cbn [chronological] in H. apply andb_prop in H. destruct H as [Hm Hl].
    cbn [List.filter]. destruct (t <? Message_Timestamp m) eqn:E.
    + exists O. cbn [drop]. f_equal. now apply (chronological_filter_all t l m).
    + destruct (IH Hl) as [k Hk]. exists (S k). exact Hk.
Qed.

(** X17. When the timestamps of a room's buffer never go back, what
    [GetMessages] returns is a suffix of the buffer, whatever [after] is: a
    poller is given an unbroken tail of the log, never a message with a gap
    before it. *)
Theorem GetMessages_is_a_suffix (msgs : gmap string (list Message))
    (roomID : string) (t : Time) :
  chronological (default [] (msgs !! roomID)) = true ->
  exists k, GetMessages msgs roomID t = drop k (default [] (msgs !! roomID)).
Proof.
  intros H. unfold GetMessages.
  destruct (msgs !! roomID) as [roomMessages|]; cbn [default] in *.
  - destruct (IsZero t); [now exists O|].
    unfold filter_after. rewrite filter_after_acc. cbn [app].
    now apply chronological_filter.
  - now exists O.
Qed.

(** Three messages in the order of their timestamps, read after the first:
    the last two are returned. *)
Lemma GetMessages_is_a_suffix_witness :
  let m1 := mkMessage "m1" "a1b2c3d4" "ann" "c1" "Ann" "fox" 10 None in
  let m2 := mkMessage "m2" "a1b2c3d4" "ben" "c2" "Ben" "owl" 20 None in
  let m3 := mkMessage "m3" "a1b2c3d4" "ann" "c3" "Ann" "fox" 20 None in
  let msgs : gmap string (list Message) :=
    {["a1b2c3d4"%string := [m1; m2; m3]]} in
  GetMessages msgs "a1b2c3d4" 15 = [m2; m3]
  /\ exists k, GetMessages msgs "a1b2c3d4" 15
               = drop k (default [] (msgs !! "a1b2c3d4"%string)).
Proof.
  intros m1 m2 m3 msgs. split; [reflexivity|].
  apply (GetMessages_is_a_suffix msgs "a1b2c3d4" 15).
  reflexivity.
Defined.

Lemma chronological_snoc (l : list Message) (m : Message) :
  chronological l = true ->
  (forall x, In x l -> Message_Timestamp x <= Message_Timestamp m) ->
  chronological (l ++ [m]) = true.
Proof.
  induction l as [|x l IH]; intros H Hle; [reflexivity|].
  cbn [chronological app] in *. apply andb_prop in H. destruct H as [Hx Hl].
  apply andb_true_intro. split.
  - rewrite forallb_app. apply andb_true_intro. split; [exact Hx|].
    cbn [forallb]. rewrite andb_true_r. apply Z.leb_le. apply Hle. now left.
  - apply IH; [exact Hl|]. intros y Hy. apply Hle. now right.
Qed.

Lemma send_each_chronological (env : Env) (roomID : string) :
  monotone_clock env ->
  forall (reqs : list (string * SendMessageRequest)) (w : World),
    chronological (log_of w roomID) = true ->
    (forall m, In m (log_of w roomID) -> Message_Timestamp m <= now_at env (tick w)) ->
    chronological (log_of (snd (send_each env reqs w)) roomID) = true
    /\ forall m, In m (log_of (snd (send_each env reqs w)) roomID) ->
         Message_Timestamp m
         <= now_at env (tick (snd (send_each env reqs w))).
Proof.
  intros Hmono. induction reqs as [|[room req] rest IH]; intros w Hc Hb.
  - now split.
  - cbn [send_each]. unfold bind.
    pose proof (log_of_after_send env room roomID req w) as Hone.
    assert (Htick : tick (snd (SendMessage env room req w)) = S (S (tick w)))
      by reflexivity.
    assert (Hts : Message_Timestamp (fst (SendMessage env room req w))
                  = now_at env (S (tick w))) by reflexivity.
    destruct (SendMessage env room req w) as [m w1]. cbn [fst snd] in *.
    assert (Hc1 : chronological (log_of w1 roomID) = true).
    { rewrite Hone. cbn [List.filter]. destruct (in_room roomID m).
      - apply chronological_snoc; [exact Hc|]. intros x Hx. rewrite Hts.
        etransitivity; [apply (Hb x Hx)|]. apply Hmono. lia.
      - now rewrite app_nil_r. }
    assert (Hb1 : forall x, In x (log_of w1 roomID) ->
                    Message_Timestamp x <= now_at env (tick w1)).
    { intros x Hx. rewrite Hone in Hx. apply in_app_or in Hx.
      rewrite Htick. destruct Hx as [Hx|Hx].
      - etransitivity; [apply (Hb x Hx)|]. apply Hmono. lia.
      - cbn [List.filter] in Hx. destruct (in_room roomID m); [|destruct Hx].
        destruct Hx as [<-|[]]. rewrite Hts. apply Hmono. lia. }
    specialize (IH w1 Hc1 Hb1).
    destruct (send_each env rest w1) as [ms w2]. cbn [fst snd ret] in *.
    exact IH.
Qed.

(** X18. With a clock that never goes back, sending keeps every buffer in
    the order of its timestamps: from a buffer that is in order and holds
    nothing later than the present, any sequence of sends leaves the buffer
    of the room in order, so that polling it returns a suffix. *)
Theorem sends_keep_log_chronological (env : Env)
    (reqs : list (string * SendMessageRequest)) (roomID : string) (w : World)
    (t : Time) :
  monotone_clock env ->
  chronological (log_of w roomID) = true ->
  (forall m, In m (log_of w roomID) -> Message_Timestamp m <= now_at env (tick w)) ->
  let w' := snd (send_each env reqs w) in
  chronological (log_of w' roomID) = true
  /\ exists k, GetMessages (messages w') roomID t = drop k (log_of w' roomID).
Proof.
  intros Hmono Hc Hb. cbn zeta.
  destruct (send_each_chronological env roomID Hmono reqs w Hc Hb) as [Hc' _].
  split; [exact Hc'|].
  unfold GetMessages, log_of in *.
  destruct (messages (snd (send_each env reqs w)) !! roomID) as [roomMessages|];
    cbn [default] in *.
  - destruct (IsZero t); [now exists O|].
    unfold filter_after. rewrite filter_after_acc. cbn [app].
    now apply chronological_filter.
  - now exists O.
Qed.

Lemma sends_keep_log_chronological_witness :
  let reqs := [("a1b2c3d4"%string, mkSendMessageRequest "ann" "c2" "Ann" "fox" None);
               ("ffffffff"%string, mkSendMessageRequest "zed" "c3" "Zed" "elk" None)] in
  let w' := snd (send_each quiet_env reqs world_ann) in
  chronological (log_of w' "a1b2c3d4") = true
  /\ exists k, GetMessages (messages w') "a1b2c3d4" 8 = drop k (log_of w' "a1b2c3d4").
Proof.
  intros reqs.
  apply (sends_keep_log_chronological quiet_env reqs "a1b2c3d4" world_ann 8).
  - intros i j Hij. cbn. lia.
  - reflexivity.
  - intros m [<- | []]. cbn. lia.
Defined.

(** *** The HTTP handlers *)

Lemma GetRoom_wp (env : Env) (roomID : string) (w : World) :
  wp (GetRoom env roomID)
     (fun r w' =>
        store w' = store w
        /\ appended w (Forall (fun e => is_broadcast e = false)) w'
        /\ match r with
           | inr (room, ps) =>
               In room (rooms (store w)) /\ Room_ID room = roomID
               /\ ps = List.filter (participant_in_room roomID)
                         (participants (store w))
           | inl _ => True
           end) w.
Proof.
  unfold GetRoom. wp_exec.
  all: sem_inv; world_simpl.
  all: split; [reflexivity|].
  all: split; [appended_explicit; repeat constructor|].
  all: try exact I.
  match goal with
  | H : List.filter (room_has_id _) _ = ?r :: _ |- _ =>
      assert (Hin : In r (List.filter (room_has_id roomID) (rooms (store w))))
        by (rewrite H; now left);
      apply filter_In in Hin; destruct Hin as [Hin Hid]
  end.
  split; [exact Hin|]. split; [|reflexivity].
  now apply String.eqb_eq in Hid.
Qed.

(** X19. [GetRoom], service and handler, only reads: for a room id that
    the URL carries unchanged, the Session Store is left as it was and
    nothing is broadcast; the handler answers 400 for an empty room id, 200
    with a room of the store that has the requested id and with exactly the
    participants of the store that are in that room, and 404 in every other
    case, a failed request to the store included. *)
Theorem GetRoom_only_reads (env : Env) (roomID : string) (w : World) :
  plain_id roomID = true ->
  let r := Handler_GetRoom env roomID w in
  store (snd r) = store w
  /\ Forall (fun e => is_broadcast e = false) (events (Handler_GetRoom env roomID) w)
  /\ match body (fst r) with
     | RoomInfoResponse room ps =>
         status (fst r) = StatusOK
         /\ roomID <> ""%string
         /\ In room (rooms (store w)) /\ Room_ID room = roomID
         /\ ps = List.filter (participant_in_room roomID) (participants (store w))
     | ErrorText _ =>
         status (fst r) = (if String.eqb roomID "" then StatusBadRequest
                           else StatusNotFound)
     | _ => False
     end.
Proof.
  intros _. cbn zeta. unfold events, Handler_GetRoom.
  destruct (String.eqb_spec roomID "") as [->|Hne].
  - cbn. rewrite drop_all. now repeat split.
  - pose proof (wp_run _ _ _ (GetRoom_wp env roomID w)) as (Hst & Happ & Hres).
    unfold bind. destruct (GetRoom env roomID w) as [[e|[room ps]] w'];
      cbn [fst snd ret body status writeJSON http_Error] in *.
    + split; [exact Hst|]. split; [|reflexivity].
      destruct Happ as (evs & -> & Hevs). now rewrite drop_app_length.
    + split; [exact Hst|]. split.
      * destruct Happ as (evs & -> & Hevs). now rewrite drop_app_length.
      * destruct Hres as (H1 & H2 & H3). now repeat split.
Qed.

Lemma GetRoom_only_reads_witness :
  let r := Handler_GetRoom quiet_env "a1b2c3d4" world_ann in
  fst r = writeJSON StatusOK (RoomInfoResponse standup [ann])
  /\ store (snd r) = store world_ann.
Proof.
  intros r.
  destruct (GetRoom_only_reads quiet_env "a1b2c3d4" world_ann eq_refl)
    as (Hst & _ & _).
  split; [reflexivity | exact Hst].
Defined.

Ltac handler_unfold :=
  unfold Handler_JoinRoom, Handler_LeaveRoom, Handler_Heartbeat,
    Handler_SendMessage, Handler_GetMessages, Handler_GetRoom,
    StatusBadRequest, StatusOK, StatusCreated, StatusNoContent,
    StatusInternalServerError, StatusNotFound.

(** X20. The room handlers answer 400 exactly when the request is
    invalid: an empty room id, or for joining and leaving a body that does
    not decode or that gives an empty user name or participant id; and a
    request answered with 400 has no effect at all. A heartbeat is only
    checked for its room id: its body may be missing. *)
Theorem room_handlers_validate (env : Env) (roomID : string) (w : World) :
  (forall decoded,
     let r := Handler_JoinRoom env roomID decoded w in
     (status (fst r) = StatusBadRequest
      <-> roomID = ""%string \/ decoded = None
          \/ exists avatar, decoded = Some (""%string, avatar))
     /\ (status (fst r) = StatusBadRequest -> snd r = w))
  /\ (forall decoded,
        let r := Handler_LeaveRoom env roomID decoded w in
        (status (fst r) = StatusBadRequest
         <-> roomID = ""%string \/ decoded = None \/ decoded = Some ""%string)
        /\ (status (fst r) = StatusBadRequest -> snd r = w))
  /\ (forall participantID,
        let r := Handler_Heartbeat env roomID participantID w in
        (status (fst r) = StatusBadRequest <-> roomID = ""%string)
        /\ (status (fst r) = StatusBadRequest -> snd r = w)).
Proof.
  split; [|split].
  - intros decoded. cbn zeta. handler_unfold.
    destruct (String.eqb_spec roomID "") as [->|Hne];
      [cbn; split; [tauto | reflexivity]|].
    destruct decoded as [[username avatar]|];
      [|cbn; split; [tauto | reflexivity]].
    destruct (String.eqb_spec username "") as [->|Hu];
      [cbn; split; [|reflexivity]; split; [|reflexivity]; intros _; right; right; eauto|].
    unfold bind.
    destruct (JoinRoom env roomID username avatar w) as [[e|[[p room] ps]] w'];
      cbn [fst snd ret status writeJSON http_Error].
    all: split; [|discriminate].
    all: split; [discriminate|].
    all: intros [H | [H | [a H]]]; congruence.
  - intros decoded. cbn zeta. handler_unfold.
    destruct (String.eqb_spec roomID "") as [->|Hne];
      [cbn; split; [tauto | reflexivity]|].
    destruct decoded as [participantID|];
      [|cbn; split; [tauto | reflexivity]].
    destruct (String.eqb_spec participantID "") as [->|Hu];
      [cbn; split; [tauto | reflexivity]|].
    unfold bind.
    destruct (LeaveRoom env roomID participantID w) as [[e|] w'];
      cbn [fst snd ret status writeJSON http_Error].
    all: split; [|discriminate].
    all: split; [discriminate|].
    all: intros [H | [H | H]]; congruence.
  - intros participantID. cbn zeta. handler_unfold.
    destruct (String.eqb_spec roomID "") as [->|Hne];
      [cbn; split; [tauto | reflexivity]|].
    unfold bind.
    destruct (UpdateHeartbeat env roomID participantID w) as [[e|] w'];
      cbn [fst snd ret status writeJSON http_Error].
    all: split; [|discriminate].
    all: split; [discriminate | congruence].
Qed.

(** X21. The message handlers: posting answers 400 exactly for an empty
    room id, a body that does not decode or an empty content, and then
    stores nothing; otherwise it answers 201 with the stored message.
    Reading never changes anything; it answers 400 exactly for an empty room
    id or an [after] parameter that is given and does not parse, and 200
    otherwise, with the whole buffer when [after] is not given. *)
Theorem message_handlers_validate (env : Env) (time_Parse : string -> option Time)
    (roomID : string) (w : World) :
  (forall decoded,
     let r := Handler_SendMessage env roomID decoded w in
     (status (fst r) = StatusBadRequest
      <-> roomID = ""%string \/ decoded = None
          \/ exists req, decoded = Some req /\ Req_Content req = ""%string)
     /\ (status (fst r) = StatusBadRequest -> snd r = w)
     /\ (status (fst r) <> StatusBadRequest ->
         exists req, decoded = Some req
           /\ fst r = writeJSON StatusCreated
                        (MessageResponse (fst (SendMessage env roomID req w)))
           /\ snd r = snd (SendMessage env roomID req w)))
  /\ (forall afterParam,
        let r := Handler_GetMessages time_Parse roomID afterParam w in
        snd r = w
        /\ (status (fst r) = StatusBadRequest
            <-> roomID = ""%string
                \/ (afterParam <> ""%string /\ time_Parse afterParam = None))
        /\ (roomID <> ""%string -> afterParam = ""%string ->
            fst r = writeJSON StatusOK (GetMessagesResponse (log_of w roomID)))
        /\ (forall t, roomID <> ""%string -> time_Parse afterParam = Some t ->
            afterParam <> ""%string ->
            fst r = writeJSON StatusOK
                      (GetMessagesResponse (GetMessages (messages w) roomID t)))).
Proof.
  split.
  - intros decoded. cbn zeta. handler_unfold.
    destruct (String.eqb_spec roomID "") as [->|Hne];
      [cbn; split; [tauto | split; [reflexivity | congruence]]|].
    destruct decoded as [req|];
      [|cbn; split; [tauto | split; [reflexivity | congruence]]].
    destruct (String.eqb_spec (Req_Content req) "") as [Hc|Hc].
    + cbn. split; [|split; [reflexivity | congruence]].
      split; [|reflexivity]. intros _. right. right. eauto.
    + unfold bind. destruct (SendMessage env roomID req w) as [m w'] eqn:E.
      cbn [fst snd ret status writeJSON]. split; [|split].
      * split; [discriminate|].
        intros [H | [H | (req' & H & H')]]; congruence.
      * discriminate.
      * intros _. exists req. rewrite E. now repeat split.
  - intros afterParam. cbn zeta. handler_unfold.
    destruct (String.eqb_spec roomID "") as [->|Hne].
    { cbn. split; [reflexivity|]. split; [tauto|]. split; congruence. }
    destruct (String.eqb_spec afterParam "") as [->|Ha]; cbn [negb].
    { cbn [fst snd status writeJSON]. split; [reflexivity|]. split; [|split].
      - split; [discriminate|]. intros [H | [H _]]; congruence.
      - intros _ _. unfold log_of. now rewrite GetMessages_all.
      - intros t _ _ H. congruence. }
    destruct (time_Parse afterParam) as [t|]; cbn [fst snd ret status writeJSON http_Error].
    + split; [reflexivity|]. split; [|split].
      * split; [discriminate|]. intros [H | [_ H]]; congruence.
      * congruence.
      * intros t' _ H _. now injection H as <-.
    + split; [reflexivity|]. split; [|split].
      * split; [tauto|reflexivity].
      * congruence.
      * intros t' _ H. discriminate H.
Qed.

(** *** Creating a room *)

Lemma hex_digits_of_byte : forall b,
  is_hex_digit (char_at hextable (Z.shiftr (byte_val b) 4))
  && is_hex_digit (char_at hextable (Z.land (byte_val b) 15)) = true.
Proof. apply forall_bytes. vm_compute. reflexivity. Qed.

Lemma hex_EncodeToString_digits (src : list byte) :
  forallb is_hex_digit (list_ascii_of_string (hex_EncodeToString src)) = true.
Proof.
  unfold hex_EncodeToString. rewrite list_ascii_of_string_of_list_ascii.
  induction src as [|b src IH]; [reflexivity|].
  cbn [flat_map app forallb]. rewrite IH.
  pose proof (hex_digits_of_byte b) as H. apply andb_prop in H.
  destruct H as [-> ->]. reflexivity.
Qed.

Lemma CreateRoom_fresh_wp (env : Env) (name : string) (w : World) :
  wp (CreateRoom env name)
     (fun r w' =>
        match r with
        | inr room =>
            String.length (Room_ID room) = 8%nat
            /\ forallb is_hex_digit (list_ascii_of_string (Room_ID room)) = true
            /\ (exists key, length key = 32%nat
                  /\ rfc4648_decode (Room_EncryptionKey room) = Some key)
            /\ Room_Name room = room_name_for name
            /\ Room_CreatedAt room = Room_LastActiveAt room
            /\ room_exists (Room_ID room) (store w) = false
            /\ store w' = mkStore (rooms (store w) ++ [room]) (participants (store w))
        | inl _ =>
            store w' = store w
            \/ (reply_lost env (3 + tick w) = true
                /\ exists room,
                     Room_Name room = room_name_for name
                     /\ room_exists (Room_ID room) (store w) = false
                     /\ store w' = mkStore (rooms (store w) ++ [room])
                                     (participants (store w)))
        end) w.
Proof.
  unfold CreateRoom. wp_exec.
  all: try (left; reflexivity).
  all: match goal with
       | H : sem_CreateRoom _ _ = inr _ |- _ =>
           unfold sem_CreateRoom in H; cbn [Room_ID] in H;
           destruct (existsb _ _) eqn:Efresh; [discriminate H | injection H as <- <-]
       end.
  - cbn [Room_ID Room_Name Room_EncryptionKey Room_CreatedAt Room_LastActiveAt].
    world_simpl.
    rewrite length_hex_EncodeToString, hex_EncodeToString_digits.
    repeat match goal with H : length _ = _ |- _ => rewrite H end.
    split; [reflexivity|]. split; [reflexivity|]. split.
    { eexists. split; [|apply rfc4648_decode_base64Encode]. assumption. }
    repeat split; auto.
  - right. world_simpl. split; [assumption|].
    eexists. split; [|split; [|reflexivity]]; [reflexivity | exact Efresh].
Qed.

(** X22. A room that [CreateRoom] returns is new and well formed: its id
    is eight lower-case hexadecimal digits and was the id of no room of the
    store; its key is the base64 form of 32 bytes; its name is the name
    asked for, or "Untitled Room" when none was given; its two timestamps
    are equal; and it is the last row of the rooms table, the table being
    otherwise as before. When [CreateRoom] returns an error, an id that is
    already taken included, the store is left as it was, except when the
    store had applied the INSERT and its reply was lost: then the room is in
    the store although the caller was given an error. *)
Theorem CreateRoom_makes_fresh_room (env : Env) (name : string) (w : World) :
  let r := CreateRoom env name w in
  match fst r with
  | inr room =>
      String.length (Room_ID room) = 8%nat
      /\ forallb is_hex_digit (list_ascii_of_string (Room_ID room)) = true
      /\ (exists key, length key = 32%nat
            /\ rfc4648_decode (Room_EncryptionKey room) = Some key)
      /\ Room_Name room = room_name_for name
      /\ Room_CreatedAt room = Room_LastActiveAt room
      /\ room_exists (Room_ID room) (store w) = false
      /\ store (snd r) = mkStore (rooms (store w) ++ [room]) (participants (store w))
  | inl _ =>
      store (snd r) = store w
      \/ (reply_lost env (3 + tick w) = true
          /\ exists room,
               Room_Name room = room_name_for name
               /\ room_exists (Room_ID room) (store w) = false
               /\ store (snd r) = mkStore (rooms (store w) ++ [room])
                                     (participants (store w)))
  end.
Proof. exact (wp_run _ _ _ (CreateRoom_fresh_wp env name w)). Qed.

(** X23. The handler of room creation answers 201 with the id of a room
    that is now the last row of the rooms table, or 500; a body that does
    not decode is taken as an empty name, so the room is named "Untitled
    Room". With a 500 the store is as it was, except when the store had
    applied the INSERT and its reply was lost: then the room is in the
    store and its id was not returned. *)
Theorem Handler_CreateRoom_answers (env : Env) (decoded : option string)
    (w : World) :
  let r := Handler_CreateRoom env decoded w in
  match body (fst r) with
  | CreateRoomResponse room_id =>
      status (fst r) = StatusCreated
      /\ exists room,
           Room_ID room = room_id
           /\ Room_Name room = room_name_for (default ""%string decoded)
           /\ room_exists room_id (store w) = false
           /\ rooms (store (snd r)) = rooms (store w) ++ [room]
           /\ participants (store (snd r)) = participants (store w)
  | ErrorText _ =>
      status (fst r) = StatusInternalServerError
      /\ (store (snd r) = store w
          \/ (reply_lost env (3 + tick w) = true
              /\ exists room,
                   Room_Name room = room_name_for (default ""%string decoded)
                   /\ room_exists (Room_ID room) (store w) = false
                   /\ store (snd r) = mkStore (rooms (store w) ++ [room])
                                         (participants (store w))))
  | _ => False
  end.
Proof.
  cbn zeta. unfold Handler_CreateRoom.
  replace (match decoded with Some name => name | None => ""%string end)
    with (default ""%string decoded) by now destruct decoded.
  pose proof (wp_run _ _ _ (CreateRoom_fresh_wp env (default ""%string decoded) w))
    as H.
  unfold bind. destruct (CreateRoom env (default ""%string decoded) w) as [[e|room] w'];
    cbn [fst snd ret body status writeJSON http_Error] in *.
  - now split.
  - destruct H as (_ & _ & _ & Hname & _ & Hfresh & Hst).
    split; [reflexivity|]. exists room. rewrite Hst. now repeat split.
Qed.

(** X24. A message posted through the handler is then listed by the
    handler: after a post that passes validation, reading the room without
    [after] answers 200 with what the room held before followed by the
    message the post answered with, which carries the room id and the
    content of the request. *)
Theorem posted_message_is_listed (env : Env) (time_Parse : string -> option Time)
    (roomID : string) (req : SendMessageRequest) (w : World) :
  roomID <> ""%string -> Req_Content req <> ""%string ->
  let r1 := Handler_SendMessage env roomID (Some req) w in
  let r2 := Handler_GetMessages time_Parse roomID "" (snd r1) in
  exists m,
    fst r1 = writeJSON StatusCreated (MessageResponse m)
    /\ fst r2 = writeJSON StatusOK (GetMessagesResponse (log_of w roomID ++ [m]))
    /\ Message_RoomID m = roomID
    /\ Message_Content m = Req_Content req
    /\ Message_ParticipantID m = Req_ParticipantID req.
Proof.
  intros Hroom Hcontent. cbn zeta.
  unfold Handler_SendMessage, Handler_GetMessages.
  destruct (String.eqb_spec roomID "") as [E|_]; [contradiction|].
  destruct (String.eqb_spec (Req_Content req) "") as [E|_]; [contradiction|].
  unfold bind.
  pose proof (SendMessage_appends env roomID req w) as [Hlog _].
  assert (Hfields : Message_RoomID (fst (SendMessage env roomID req w)) = roomID
                    /\ Message_Content (fst (SendMessage env roomID req w))
                       = Req_Content req
                    /\ Message_ParticipantID (fst (SendMessage env roomID req w))
                       = Req_ParticipantID req)
    by now repeat split.
  destruct (SendMessage env roomID req w) as [m w']. cbn [fst snd ret negb] in *.
  exists m. split; [reflexivity|]. split; [|exact Hfields].
  cbn [String.eqb negb fst]. rewrite GetMessages_all, Hlog. reflexivity.
Qed.

Lemma posted_message_is_listed_witness :
  let req := mkSendMessageRequest "ann" "c2" "Ann" "fox" None in
  let r1 := Handler_SendMessage quiet_env "a1b2c3d4" (Some req) world_ann in
  let r2 := Handler_GetMessages (fun _ => None) "a1b2c3d4" "" (snd r1) in
  exists m,
    fst r1 = writeJSON StatusCreated (MessageResponse m)
    /\ fst r2 = writeJSON StatusOK
                  (GetMessagesResponse (log_of world_ann "a1b2c3d4" ++ [m]))
    /\ Message_RoomID m = "a1b2c3d4"%string
    /\ Message_Content m = "c2"%string
    /\ Message_ParticipantID m = "ann"%string.
Proof.
  intros req.
  apply (posted_message_is_listed quiet_env (fun _ => None) "a1b2c3d4" req world_ann);
    discriminate.
Defined.

(** *** Rooms emptied by back-pressure *)

Lemma broadcastToRoom_keeps_entries (env : Env) (msg : BroadcastMessage)
    (w : World) :
  Env_ok env -> hub_ok w ->
  forall roomID,
    is_Some (hub_rooms (snd (broadcastToRoom env msg w)) !! roomID)
    <-> is_Some (hub_rooms w !! roomID).
Proof.
  intros Henv Hok roomID.
  destruct (decide (roomID = Msg_RoomID msg)) as [->|Hne].
  2:{ destruct (broadcastToRoom_any env msg w Henv Hok) as (_ & _ & _ & _ & _ & H).
      now rewrite (H roomID Hne). }
  destruct Henv as [_ Hrange]. unfold broadcastToRoom, bind.
  pose proof (storeMessageIfApplicable_hub env (Msg_RoomID msg) (Msg_Message msg) w)
    as [Hrooms0 Hheap0].
  destruct (storeMessageIfApplicable env (Msg_RoomID msg) (Msg_Message msg) w)
    as [u w0]. cbn [snd] in Hrooms0, Hheap0.
  assert (Hok0 : hub_ok w0) by now apply (hub_ok_ext w w0).
  destruct (hub_rooms w !! Msg_RoomID msg) as [R|] eqn:HR; cbn [default].
  - unfold id. set (l := range_clients env R).
    assert (Hin : forall a, In a l -> a ∈ R).
    { intros a. rewrite <- list_elem_of_In. subst l. rewrite Hrange.
      apply elem_of_elements. }
    assert (Hnd : NoDup l) by (subst l; rewrite Hrange; apply NoDup_elements).
    assert (HR0 : hub_rooms w0 !! Msg_RoomID msg = Some R) by now rewrite Hrooms0.
    destruct (fan_out_any msg l w0 R Hnd Hok0 HR0 Hin)
      as (_ & _ & _ & _ & (R' & HR' & _) & _).
    rewrite HR'. split; eauto.
  - assert (Hl : range_clients env ∅ = []).
    { apply Permutation_nil_r. rewrite Hrange. now rewrite elements_empty. }
    rewrite Hl. cbn [fan_out ret snd]. now rewrite Hrooms0, HR.
Qed.

(** X25. A broadcast never removes the entry of a room from the hub, and
    adds none, whatever it drops: when every connection of the room has a
    full queue and the message names no sender, all of them are dropped and
    the room is left in the hub with an empty set of connections, where
    [unregisterClient] would have removed the entry. *)
Theorem broadcast_keeps_emptied_room (env : Env) (msg : BroadcastMessage)
    (w : World) :
  Env_ok env -> hub_ok w ->
  let r := broadcastToRoom env msg w in
  (forall roomID,
     is_Some (hub_rooms (snd r) !! roomID) <-> is_Some (hub_rooms w !! roomID))
  /\ (is_Some (hub_rooms w !! Msg_RoomID msg) ->
      Msg_Sender msg = None ->
      (forall a c, heap w !! a = Some c -> Client_RoomID c = Msg_RoomID msg ->
                   queue_full c = true) ->
      hub_rooms (snd r) !! Msg_RoomID msg = Some ∅
      /\ GetRoomClientCount (snd r) (Msg_RoomID msg) = O).
Proof.
  intros Henv Hok. cbn zeta.
  pose proof (broadcastToRoom_keeps_entries env msg w Henv Hok) as Hdom.
  split; [exact Hdom|]. intros Hsome Hsender Hfull.
  destruct (broadcastToRoom_any env msg w Henv Hok) as (_ & _ & _ & _ & Hset & _).
  apply Hdom in Hsome. destruct Hsome as [R' HR'].
  assert (Hempty : R' = ∅).
  { apply set_eq. intros a. split; [|intros Ha; now apply not_elem_of_empty in Ha].
    intros Ha. exfalso.
    assert (Ha' : a ∈ default ∅ (hub_rooms (snd (broadcastToRoom env msg w))
                                   !! Msg_RoomID msg)) by now rewrite HR'.
    apply Hset in Ha'. destruct Ha' as [HaR Hnot]. apply Hnot.
    split; [rewrite Hsender; discriminate|].
    destruct (hub_rooms w !! Msg_RoomID msg) as [R|] eqn:HR; cbn [default] in HaR;
      [|now apply not_elem_of_empty in HaR].
    destruct (Hok _ R a HR HaR) as (c & Hc & _ & Hroom).
    exists c. split; [exact Hc|]. now apply (Hfull a c). }
  unfold GetRoomClientCount. rewrite HR', Hempty. cbn [default].
  split; [reflexivity | apply size_empty].
Qed.

Lemma broadcast_keeps_emptied_room_witness :
  let w := mkWorld (mkStore [] []) ∅
             {["a1b2c3d4"%string := ({[1%nat]} : gset addr)]} true
             {[1%nat := saturated_client]} [] O in
  let r := broadcastToRoom quiet_env (typing_from None) w in
  hub_rooms (snd r) !! "a1b2c3d4"%string = Some ∅
  /\ GetRoomClientCount (snd r) "a1b2c3d4" = O.
Proof.
  intros w.
  assert (Hok : hub_ok w).
  { intros roomID R a HR Ha. cbn [hub_rooms w] in HR.
    apply lookup_singleton_Some in HR. destruct HR as [<- <-].
    apply elem_of_singleton in Ha. subst a.
    exists saturated_client. split; [apply lookup_singleton_eq|]. now split. }
  destruct (broadcast_keeps_emptied_room quiet_env (typing_from None) w
              quiet_env_ok Hok) as [_ H].
  apply H.
  - cbn. rewrite lookup_singleton_eq. eauto.
  - reflexivity.
  - intros a c Hc _. cbn [heap w] in Hc.
    apply lookup_singleton_Some in Hc. destruct Hc as [_ <-]. reflexivity.
Defined.

(** *** What leaving and sweeping do settle *)

(** X26. When [LeaveRoom] returns without error, the room named in the
    call, by an id that the URL carries unchanged, is settled: if it has no
    participant it is no longer in the store. This holds whether or not the
    participant that left was in that room; nothing is said of the room the
    participant was in when the call names another. *)
Theorem LeaveRoom_settles_named_room (env : Env) (roomID participantID : string)
    (w : World) :
  plain_id roomID = true ->
  fst (LeaveRoom env roomID participantID w) = None ->
  participantCount roomID (store (snd (LeaveRoom env roomID participantID w))) = O ->
  room_exists roomID (store (snd (LeaveRoom env roomID participantID w))) = false.
Proof.
  intros _ Herr.
  exact (wp_run _ _ _ (LeaveRoom_settles env roomID participantID w) Herr).
Qed.

Lemma LeaveRoom_settles_named_room_witness :
  room_exists "a1b2c3d4"
    (store (snd (LeaveRoom quiet_env "a1b2c3d4" "ann" world_ann))) = false.
Proof.
  apply (LeaveRoom_settles_named_room quiet_env "a1b2c3d4" "ann" world_ann);
    vm_compute; reflexivity.
Defined.

(** X27. When no request to the Session Store fails, a sweep settles the
    room of every participant it finds stale: if the room has no participant
    when the sweep returns, it is no longer in the store, in whatever order
    the rooms are recounted. *)
Theorem sweep_settles_rooms (env : Env) (s : CleanupService) (w : World)
    (p : Participant) :
  Env_ok env -> (forall k, net_fails env k = false) ->
  In p (participants (store w)) ->
  stale (cleanup_threshold env s w) p = true ->
  participantCount (Participant_RoomID p) (store (snd (cleanup env s w))) = O ->
  room_exists (Participant_RoomID p) (store (snd (cleanup env s w))) = false.
Proof.
  intros Hok Hnf Hin Hstale.
  assert (H : wp (cleanup env s)
                (fun _ w' => settled (Participant_RoomID p) (store w')) w).
  { unfold cleanup. apply wp_bind, wp_time_Now.
    fold (cleanup_threshold env s w). apply wp_bind.
    eapply wp_mono; [apply (cleanupParticipants_settles env _ _ Hok Hnf)|].
    cbn beta. intros ? w1 H1.
    apply cleanupRooms_keeps_settled. apply H1.
    apply filter_In. split; [exact Hin | exact Hstale]. }
  exact (wp_run _ _ _ H).
Qed.

Lemma sweep_settles_rooms_witness :
  room_exists "a1b2c3d4" (store (snd (cleanup quiet_env every_minute world_ann)))
  = false.
Proof.
  apply (sweep_settles_rooms quiet_env every_minute world_ann ann quiet_env_ok
           (fun _ => eq_refl)).
  - left. reflexivity.
  - vm_compute. reflexivity.
  - vm_compute. reflexivity.
Defined.

Lemma presence_count_quiet (evs : list Event) :
  Forall no_presence_event evs -> presence_count evs = O.
Proof.
  unfold presence_count. induction 1 as [|e evs He _ IH]; [reflexivity|].
  cbn [List.filter]. unfold no_presence_event in He. now rewrite He.
Qed.

(** X28. A leave that comes after the participant was removed is quiet.
    For a participant id that the URL carries unchanged: [LeaveRoom] for a
    participant that is not in the store emits no "participant left" event,
    whatever fails, and returns no error when no request to the store fails.
    Hence, when a participant who is in the store leaves twice, one call
    after the other, and no request fails, both calls return no error, the
    participant is out of the store after the first, and the two calls
    together emit exactly one "participant left" event. *)
Theorem second_leave_is_quiet (env : Env) (roomID participantID : string)
    (w : World) :
  plain_id participantID = true ->
  (participant_exists participantID (store w) = false ->
   presence_count (events (LeaveRoom env roomID participantID) w) = O
   /\ ((forall k, net_fails env k = false) ->
       fst (LeaveRoom env roomID participantID w) = None))
  /\ ((forall k, net_fails env k = false) ->
      participant_exists participantID (store w) = true ->
      let r1 := LeaveRoom env roomID participantID w in
      let r2 := LeaveRoom env roomID participantID (snd r1) in
      fst r1 = None /\ fst r2 = None
      /\ participant_exists participantID (store (snd r1)) = false
      /\ (presence_count (events (LeaveRoom env roomID participantID) w)
          + presence_count (events (LeaveRoom env roomID participantID) (snd r1))
          = 1)%nat).
Proof.
  intros _.
  assert (Hquiet : forall w0,
            participant_exists participantID (store w0) = false ->
            presence_count (events (LeaveRoom env roomID participantID) w0) = O).
  { intros w0 Habs. apply presence_count_quiet.
    apply wp_events. now apply LeaveRoom_absent_quiet. }
  split.
  - intros Habs. split; [now apply Hquiet|].
    intros Hnf. exact (wp_run _ _ _ (LeaveRoom_no_error env roomID participantID w Hnf)).
  - intros Hnf Hex r1 r2.
    assert (H1 : fst r1 = None)
      by exact (wp_run _ _ _ (LeaveRoom_no_error env roomID participantID w Hnf)).
    assert (Hgone : participant_exists participantID (store (snd r1)) = false)
      by exact (wp_run _ _ _ (LeaveRoom_removes env roomID participantID w) H1).
    repeat split; [exact H1| |exact Hgone|].
    + exact (wp_run _ _ _
               (LeaveRoom_no_error env roomID participantID (snd r1) Hnf)).
    + rewrite (Hquiet (snd r1) Hgone).
      pose proof (wp_events _ _ _
                    (LeaveRoom_presence_count env roomID participantID w)) as Hc.
      cbn beta in Hc. destruct Hc as [_ Hc]. rewrite (Hc Hnf Hex). reflexivity.
Qed.

Lemma second_leave_is_quiet_witness :
  let r1 := LeaveRoom quiet_env "a1b2c3d4" "ann" world_ann in
  let r2 := LeaveRoom quiet_env "a1b2c3d4" "ann" (snd r1) in
  (presence_count (events (LeaveRoom quiet_env "a1b2c3d4" "ann") (snd r1)) = O
   /\ fst r2 = None)
  /\ (fst r1 = None /\ fst r2 = None
      /\ participant_exists "ann" (store (snd r1)) = false
      /\ (presence_count (events (LeaveRoom quiet_env "a1b2c3d4" "ann") world_ann)
          + presence_count (events (LeaveRoom quiet_env "a1b2c3d4" "ann") (snd r1))
          = 1)%nat).
Proof.
  intros r1 r2. split.
  - destruct (proj1 (second_leave_is_quiet quiet_env "a1b2c3d4" "ann" (snd r1)
                       eq_refl))
      as [Hq He]; [vm_compute; reflexivity|].
    split; [exact Hq | apply He; intros k; reflexivity].
  - apply (proj2 (second_leave_is_quiet quiet_env "a1b2c3d4" "ann" world_ann
                    eq_refl)).
    + intros k. reflexivity.
    + vm_compute. reflexivity.
Defined.
